(** * plottools.styles: generators of named plot styles

    A shallow embedding of [src/plottools/styles.py].  The generators
    [make_linestyles], [make_pointstyles], [make_linepointstyles],
    [make_fillstyles] and [plot_styles] mutate a namespace object: they set
    attributes on it, append to the list [style_names] and insert into
    dictionaries that are shared between an attribute and a category
    mapping.  The embedding therefore runs in a state-and-exception monad
    over a heap of Python objects addressed by references. *)

From Stdlib Require Import ZArith Ascii.
From Stdlib Require QArith_base.
From stdpp Require Import gmap strings list fin_maps pretty.


(** ** Exceptions and results *)

Inductive exn : Type :=
  | IndexError
  | TypeError
  | AttributeError
  | KeyError
  | ValueError.

Inductive result (A : Type) : Type :=
  | Ok (a : A)
  | Raise (e : exn).
Arguments Ok {A} a.
Arguments Raise {A} e.

(** References into the heap. *)
Abbreviation loc := nat.

(** The module [__main__], the default namespace, lives at address 0. *)
Definition main_module : loc := 0.

(** An argument that is either a scalar or a tuple/list:
    [isinstance(x, (tuple, list))] is the test for [Seq]. *)
Inductive arg (A : Type) : Type :=
  | Scalar (a : A)
  | Seq (xs : list A).
Arguments Scalar {A} a.
Arguments Seq {A} xs.

(** [len(x)] of a sequence argument, [None] for a scalar. *)
Definition seq_len {A} (x : arg A) : option nat :=
  match x with
  | Scalar _ => None
  | Seq xs => Some (length xs)
  end.

(** [x[k] if isinstance(x, (tuple, list)) else x] *)
Definition pick {A} (x : arg A) (k : nat) : result A :=
  match x with
  | Scalar a => Ok a
  | Seq xs => match xs !! k with
              | Some a => Ok a
              | None => Raise IndexError
              end
  end.

(** The number of styles to be generated:
<<
    n = 1
    for x in (...):
        if isinstance(x, (tuple, list)) and len(x) > n:
            n = len(x)
>> *)
Definition count_step (n : nat) (x : option nat) : nat :=
  match x with
  | Some m => if (n <? m)%nat then m else n
  | None => n
  end.

Definition style_count (xs : list (option nat)) : nat :=
  fold_left count_step xs 1.

(** ['%' in names] *)
Fixpoint has_percent (s : string) : bool :=
  match s with
  | EmptyString => false
  | String c s' => if Ascii.eqb c "%"%char then true else has_percent s'
  end.

(** [needle in hay] for two strings. *)
Fixpoint is_prefix (p s : string) : bool :=
  match p, s with
  | EmptyString, _ => true
  | String a p', String b s' => if Ascii.eqb a b then is_prefix p' s' else false
  | String _ _, EmptyString => false
  end.

Fixpoint is_substring (needle hay : string) : bool :=
  if is_prefix needle hay then true
  else match hay with
       | EmptyString => false
       | String _ hay' => is_substring needle hay'
       end.

(** Truth value of a prefix in [if prefixes[i]:]: [None] and [''] are false. *)
Definition truthy (p : option string) : bool :=
  match p with
  | None => false
  | Some s => negb (String.eqb s "")
  end.

(** ** The monad: a state threaded through; an exception keeps the state
    reached when it was raised *)

Definition M (St A : Type) : Type := St → result A * St.

Definition ret {St A} (a : A) : M St A := λ s, (Ok a, s).

Definition bind {St A B} (m : M St A) (f : A → M St B) : M St B :=
  λ s, match m s with
       | (Ok a, s') => f a s'
       | (Raise e, s') => (Raise e, s')
       end.

Definition raise {St A} (e : exn) : M St A := λ s, (Raise e, s).

Definition lift {St A} (r : result A) : M St A := λ s, (r, s).

Notation "x ←- m ; k" := (bind m (λ x, k))
  (at level 20, m at level 100, k at level 200, right associativity,
   format "'[v' x  ←-  m ; '/' k ']'").
Notation "m ;;- k" := (bind m (λ _, k))
  (at level 100, k at level 200, right associativity,
   format "'[v' m  ;;- '/' k ']'").

Definition when {St} (b : bool) (m : M St unit) : M St unit :=
  if b then m else ret tt.

(** [for x in xs: body(x)] *)
Fixpoint for_each {St A} (xs : list A) (body : A → M St unit) : M St unit :=
  match xs with
  | [] => ret tt
  | x :: xs' => body x ;;- for_each xs' body
  end.

(** [for k in range(n): body(k)] *)
Definition for_range {St} (n : nat) (body : nat → M St unit) : M St unit :=
  for_each (seq 0 n) body.

(** [enumerate(xs)] *)
Definition enumerate {A} (xs : list A) : list (nat * A) :=
  zip (seq 0 (length xs)) xs.

Definition rbind {A B} (r : result A) (f : A → result B) : result B :=
  match r with
  | Ok a => f a
  | Raise e => Raise e
  end.

(** ** color_cycler (lines 493-508) *)

(** A value of [mpl.rcParams]: a cycler over one property, a plain list of
    colors, or some other setting. *)
Inductive rc_value : Type :=
  | RcCycler (prop : string) (values : list string)
  | RcList (values : list string)
  | RcOther (s : string).

(** [[palette[c] for c in colors if c in palette]] *)
Fixpoint color_cycle (palette : gmap string string) (colors : list string)
  : result (list string) :=
  match colors with
  | [] => Ok []
  | c :: colors' =>
      if bool_decide (is_Some (palette !! c))
      then match palette !! c with
           | Some v => rbind (color_cycle palette colors') (λ rest, Ok (v :: rest))
           | None => Raise KeyError
           end
      else color_cycle palette colors'
  end.

Definition color_cycler (palette : gmap string string) (colors : list string)
  : M (gmap string rc_value) unit :=
  color_cycle ←- lift (color_cycle palette colors);
  λ rcParams,
    if bool_decide (is_Some (rcParams !! "axes.prop_cycle"))
    then (Ok tt, <["axes.prop_cycle" := RcCycler "color" color_cycle]> rcParams)
    else (Ok tt, <["axes.color_cycle" := RcList color_cycle]> rcParams).

Section Styles.

(** Python numbers with the one arithmetic operation the module uses; the
    functions [lighter] of [plottools.colors] and the builtin string
    formatting [template % i] are not part of this file. *)
Context {num : Type}.
Variable num_of_Z : Z → num.
Variable num_mul : num → num → num.
Variable lighter : string → num → result string.
Variable str_mod : string → Z → result string.

(** ** Values and objects *)

Inductive pyval : Type :=
  | VNone
  | VBool (b : bool)
  | VStr (s : string)
  | VNum (x : num)
  | VTuple (xs : list num)
  | VRef (l : loc).

Inductive obj : Type :=
  | OList (xs : list pyval)
  | ODict (d : gmap string pyval)
  | ONamespace (attrs : gmap string pyval).

Abbreviation heap := (list obj).

(** An element of [markers].  A marker is a pair of a marker symbol and a
    scaling factor; the elements of a [markers] that is a single such pair,
    as the default [('o', 1.0)] is, are a string and a number. *)
Inductive marker : Type :=
  | MPair (symbol : pyval) (factor : num)
  | MStr (s : string)
  | MNum (x : num).

(** The product [s * x] of a string and a number, a repetition of [s] for
    an integer and a [TypeError] for a float, is not part of this file. *)
Variable str_mul : string → num → result pyval.

(** [mk[0]] *)
Definition marker_symbol (mk : marker) : result pyval :=
  match mk with
  | MPair symbol _ => Ok symbol
  | MStr (String c _) => Ok (VStr (String c EmptyString))
  | MStr EmptyString => Raise IndexError
  | MNum _ => Raise TypeError
  end.

(** [mk[1]*ms] *)
Definition marker_size (mk : marker) (ms : num) : result pyval :=
  match mk with
  | MPair _ factor => Ok (VNum (num_mul factor ms))
  | MStr (String _ (String c _)) => str_mul (String c EmptyString) ms
  | MStr _ => Raise IndexError
  | MNum _ => Raise TypeError
  end.

(** ** Primitive operations on objects *)

(** A new object; its address is the next free one. *)
Definition alloc (o : obj) : M heap loc :=
  λ h, (Ok (length h), h ++ [o]).

(** [hasattr(ns, a)] *)
Definition py_hasattr (ns : loc) (a : string) : M heap bool :=
  λ h, match h !! ns with
       | Some (ONamespace attrs) => (Ok (bool_decide (is_Some (attrs !! a))), h)
       | _ => (Ok false, h)
       end.

(** [getattr(ns, a)] *)
Definition py_getattr (ns : loc) (a : string) : M heap pyval :=
  λ h, match h !! ns with
       | Some (ONamespace attrs) =>
           match attrs !! a with
           | Some v => (Ok v, h)
           | None => (Raise AttributeError, h)
           end
       | _ => (Raise AttributeError, h)
       end.

(** [setattr(ns, a, v)]; a list or a dict takes no new attributes. *)
Definition py_setattr (ns : loc) (a : string) (v : pyval) : M heap unit :=
  λ h, match h !! ns with
       | Some (ONamespace attrs) => (Ok tt, <[ns := ONamespace (<[a := v]> attrs)]> h)
       | _ => (Raise AttributeError, h)
       end.

(** [name in v] for a string [name] *)
Definition py_contains (v : pyval) (name : string) : M heap bool :=
  λ h, match v with
       | VRef l =>
           match h !! l with
           | Some (OList xs) =>
               (Ok (existsb (λ x, match x with VStr s => String.eqb s name | _ => false end) xs), h)
           | Some (ODict d) => (Ok (bool_decide (is_Some (d !! name))), h)
           | _ => (Raise TypeError, h)
           end
       | VStr s => (Ok (is_substring name s), h)
       | VTuple _ => (Ok false, h)
       | _ => (Raise TypeError, h)
       end.

(** [v.append(x)] *)
Definition py_append (v : pyval) (x : pyval) : M heap unit :=
  λ h, match v with
       | VRef l =>
           match h !! l with
           | Some (OList xs) => (Ok tt, <[l := OList (xs ++ [x])]> h)
           | _ => (Raise AttributeError, h)
           end
       | _ => (Raise AttributeError, h)
       end.

(** [v[name] = x] for a string [name] *)
Definition py_setitem (v : pyval) (name : string) (x : pyval) : M heap unit :=
  λ h, match v with
       | VRef l =>
           match h !! l with
           | Some (ODict d) => (Ok tt, <[l := ODict (<[name := x]> d)]> h)
           | _ => (Raise TypeError, h)
           end
       | _ => (Raise TypeError, h)
       end.

(** [dict(k1=v1, ..., **kwargs)]: a keyword given twice is a [TypeError]. *)
Definition py_dict (kw : list (string * pyval)) (kwargs : gmap string pyval)
  : result (gmap string pyval) :=
  if existsb (λ p, bool_decide (is_Some (kwargs !! p.1))) kw
  then Raise TypeError
  else Ok (list_to_map kw ∪ kwargs).

(** [d.update(dict(k1=v1, ...))] *)
Definition dict_update (d : gmap string pyval) (kw : list (string * pyval))
  : gmap string pyval :=
  foldl (λ d p, <[p.1 := p.2]> d) d kw.

(** ** Code shared verbatim by the three generators *)

(** The name of style [k] (lines 146-152, 250-256, 390-396):
<<
    if isinstance(names, (tuple, list)):
        name = names[k]
    else:
        if '%' in names:
            name = names % (k+1)
        else:
            name = names
>> *)
Definition style_name (names : arg string) (k : nat) : result string :=
  match names with
  | Seq xs => match xs !! k with
              | Some s => Ok s
              | None => Raise IndexError
              end
  | Scalar s => if has_percent s then str_mod s (Z.of_nat k + 1) else Ok s
  end.

(** [[
    if not hasattr(namespace, 'style_names'):
        namespace.style_names = []
]] *)
Definition prepare_style_names (namespace : loc) : M heap unit :=
  b ←- py_hasattr namespace "style_names";
  when (negb b) (l ←- alloc (OList []); py_setattr namespace "style_names" (VRef l)).

(** [[
    if not hasattr(namespace, ln):
        setattr(namespace, ln, {})
]] *)
Definition prepare_category (namespace : loc) (ln : string) : M heap unit :=
  b ←- py_hasattr namespace ln;
  when (negb b) (l ←- alloc (ODict ∅); py_setattr namespace ln (VRef l)).

(** [[
    if name not in namespace.style_names:
        namespace.style_names.append(name)
]] *)
Definition add_style_name (namespace : loc) (name : string) : M heap unit :=
  sns ←- py_getattr namespace "style_names";
  b ←- py_contains sns name;
  when (negb b) (sns' ←- py_getattr namespace "style_names";
                 py_append sns' (VStr name)).

(** [[
    setattr(namespace, sn, d)
    getattr(namespace, ln)[name] = d
]] *)
Definition register (namespace : loc) (sn ln name : string) (d : loc) : M heap unit :=
  py_setattr namespace sn (VRef d) ;;-
  cat ←- py_getattr namespace ln;
  py_setitem cat name (VRef d).

(** ** make_linestyles (lines 71-161) *)

Definition make_linestyles (prefix : string) (names : arg string) (suffix : string)
    (colors : arg string) (dashes : arg string) (lws : arg num)
    (namespace : option loc) (kwargs : gmap string pyval) : M heap unit :=
  let namespace := default main_module namespace in
  prepare_style_names namespace ;;-
  let ln := prefix +:+ suffix in
  prepare_category namespace ln ;;-
  let n := style_count [seq_len names; seq_len colors; seq_len dashes; seq_len lws] in
  for_range n (λ k,
    name ←- lift (style_name names k);
    add_style_name namespace name ;;-
    let sn := prefix +:+ name +:+ suffix in
    c ←- lift (pick colors k);
    ds ←- lift (pick dashes k);
    lw ←- lift (pick lws k);
    d ←- lift (py_dict [("color", VStr c); ("linestyle", VStr ds); ("linewidth", VNum lw)] kwargs);
    ld ←- alloc (ODict d);
    register namespace sn ln name ld).

(** ** make_pointstyles (lines 164-270)

    [markers] is a tuple or list; when it has more than one element, style
    [k] takes element [k], otherwise all styles take element 0.  The
    keyword arguments of [dict(...)] are evaluated from left to right:
    [mk[0]], then [mk[1]*ms], then [lighter(c, mc)]. *)

Definition make_pointstyles (prefix : string) (names : arg string) (suffix : string)
    (colors : arg string) (dashes : arg string) (lws : arg num)
    (markers : list marker) (markersizes : arg num) (markeredgecolors : arg num)
    (markeredgewidths : arg num)
    (namespace : option loc) (kwargs : gmap string pyval) : M heap unit :=
  let namespace := default main_module namespace in
  prepare_style_names namespace ;;-
  let ln := prefix +:+ suffix in
  prepare_category namespace ln ;;-
  let n := style_count [seq_len names; seq_len colors; seq_len dashes; seq_len lws;
                        Some (length markers); seq_len markersizes;
                        seq_len markeredgecolors; seq_len markeredgewidths] in
  for_range n (λ k,
    name ←- lift (style_name names k);
    add_style_name namespace name ;;-
    let sn := prefix +:+ name +:+ suffix in
    c ←- lift (pick colors k);
    ds ←- lift (pick dashes k);
    lw ←- lift (pick lws k);
    mk ←- lift (if (1 <? length markers)%nat then pick (Seq markers) k
                else pick (Seq markers) 0);
    ms ←- lift (pick markersizes k);
    mc ←- lift (pick markeredgecolors k);
    mw ←- lift (pick markeredgewidths k);
    symbol ←- lift (marker_symbol mk);
    size ←- lift (marker_size mk ms);
    mec ←- lift (lighter c mc);
    d ←- lift (py_dict [("color", VStr c); ("linestyle", VStr ds); ("linewidth", VNum lw);
                        ("marker", symbol); ("markersize", size);
                        ("markeredgecolor", VStr mec); ("markeredgewidth", VNum mw)] kwargs);
    pd ←- alloc (ODict d);
    register namespace sn ln name pd).

(** ** make_linepointstyles (lines 273-309) *)

(** [prefixes[i]] *)
Definition prefix_at (prefixes : list (option string)) (i : nat) : result (option string) :=
  match prefixes !! i with
  | Some p => Ok p
  | None => Raise IndexError
  end.

(** [if prefixes[i]: f(prefixes[i])] *)
Definition if_prefix (prefixes : list (option string)) (i : nat) (f : string → M heap unit)
  : M heap unit :=
  p ←- lift (prefix_at prefixes i);
  match p with
  | Some s => if String.eqb s "" then ret tt else f s
  | None => ret tt
  end.

Definition make_linepointstyles (prefixes : list (option string)) (names : arg string)
    (suffix : string) (colors : arg string) (dashes : arg string) (lws : arg num)
    (markers : list marker) (markersizes : arg num) (markeredgecolors : arg num)
    (markeredgewidths : arg num)
    (namespace : option loc) (kwargs : gmap string pyval) : M heap unit :=
  let namespace := Some (default main_module namespace) in
  if_prefix prefixes 0 (λ p,
    make_linestyles p names suffix colors dashes lws namespace kwargs) ;;-
  if_prefix prefixes 1 (λ p,
    make_pointstyles p names suffix colors (Scalar "none") (Scalar (num_of_Z 0))
                     markers markersizes markeredgecolors markeredgewidths
                     namespace kwargs) ;;-
  if_prefix prefixes 2 (λ p,
    make_pointstyles p names suffix colors dashes lws
                     markers markersizes markeredgecolors markeredgewidths
                     namespace kwargs).

(** ** make_fillstyles (lines 312-414) *)

(** The fill dictionary of variant [j]:
<<
    filldict = dict(facecolor=c, **kwargs)
    if j == 0:   # fill with edge:
        filldict.update(dict(edgecolor=lighter(c, ec), linewidth=ew))
    elif j == 1: # fill without edge:
        filldict.update(dict(edgecolor='none'))
    elif j == 2: # fill without edge, with alpha:
        filldict.update(dict(edgecolor='none', alpha=fa))
>> *)
Definition fill_dict (j : nat) (c : string) (ec ew fa : num) (kwargs : gmap string pyval)
  : result (gmap string pyval) :=
  match py_dict [("facecolor", VStr c)] kwargs with
  | Raise e => Raise e
  | Ok filldict =>
      match j with
      | 0 => match lighter c ec with
             | Raise e => Raise e
             | Ok edge => Ok (dict_update filldict [("edgecolor", VStr edge); ("linewidth", VNum ew)])
             end
      | 1 => Ok (dict_update filldict [("edgecolor", VStr "none")])
      | 2 => Ok (dict_update filldict [("edgecolor", VStr "none"); ("alpha", VNum fa)])
      | _ => Ok filldict
      end
  end.

Definition make_fillstyles (prefix : string) (names : arg string)
    (suffixes : list (option string))
    (colors : arg string) (edgecolors : arg num) (edgewidths : arg num)
    (fillalphas : arg num)
    (namespace : option loc) (kwargs : gmap string pyval) : M heap unit :=
  let namespace := default main_module namespace in
  prepare_style_names namespace ;;-
  for_each suffixes (λ suffix,
    match suffix with
    | Some suffix => prepare_category namespace (prefix +:+ suffix)
    | None => ret tt
    end) ;;-
  let n := style_count [seq_len names; seq_len colors; seq_len edgecolors;
                        seq_len edgewidths; seq_len fillalphas] in
  for_range n (λ k,
    name ←- lift (style_name names k);
    add_style_name namespace name ;;-
    for_each (enumerate suffixes) (λ js,
      match js.2 with
      | Some suffix =>
          let sn := prefix +:+ name +:+ suffix in
          c ←- lift (pick colors k);
          ec ←- lift (pick edgecolors k);
          ew ←- lift (pick edgewidths k);
          fa ←- lift (pick fillalphas k);
          d ←- lift (fill_dict js.1 c ec ew fa kwargs);
          filldict ←- alloc (ODict d);
          register namespace sn (prefix +:+ suffix) name filldict
      | None => ret tt
      end)).

(** ** plot_styles (lines 417-490) *)

Definition plot_styles (names : arg string) (colors : arg string) (dashes : arg string)
    (markers : list marker) (lwthick lwthin markerlarge markersmall mec mew fillalpha : num)
    (namespace : option loc) : M heap unit :=
  let namespace := Some (default main_module namespace) in
  let circle : list marker := [MPair (VStr "o") (num_of_Z 1)] in
  (* line, point and linepoint styles: *)
  make_linepointstyles [Some "ls"; Some "ps"; Some "lps"] names "" colors dashes
    (Scalar lwthick) markers (Scalar markerlarge) (Scalar mec) (Scalar mew) namespace ∅ ;;-
  (* circular point and linepoint styles: *)
  make_linepointstyles [Some ""; Some "ps"; Some "lps"] names "c" colors dashes
    (Scalar lwthick) circle (Scalar markerlarge) (Scalar mec) (Scalar mew) namespace ∅ ;;-
  (* minor line, point and linepoint styles: *)
  make_linepointstyles [Some "ls"; Some "ps"; Some "lps"] names "m" colors dashes
    (Scalar lwthin) circle (Scalar markersmall) (Scalar mec) (Scalar mew) namespace ∅ ;;-
  (* fill styles: *)
  make_fillstyles "fs" names [Some ""; Some "s"; Some "a"] colors
    (Scalar mec) (Scalar mew) (Scalar fillalpha) namespace ∅.

(** ** Calls of the generators *)

(** A call of one of the three generators, without its namespace. *)
Inductive call : Type :=
  | LineStyles (prefix : string) (names : arg string) (suffix : string)
      (colors dashes : arg string) (lws : arg num) (kwargs : gmap string pyval)
  | PointStyles (prefix : string) (names : arg string) (suffix : string)
      (colors dashes : arg string) (lws : arg num) (markers : list marker)
      (markersizes markeredgecolors markeredgewidths : arg num)
      (kwargs : gmap string pyval)
  | FillStyles (prefix : string) (names : arg string) (suffixes : list (option string))
      (colors : arg string) (edgecolors edgewidths fillalphas : arg num)
      (kwargs : gmap string pyval).

Definition run_call (namespace : option loc) (c : call) : M heap unit :=
  match c with
  | LineStyles prefix names suffix colors dashes lws kwargs =>
      make_linestyles prefix names suffix colors dashes lws namespace kwargs
  | PointStyles prefix names suffix colors dashes lws markers markersizes
      markeredgecolors markeredgewidths kwargs =>
      make_pointstyles prefix names suffix colors dashes lws markers markersizes
        markeredgecolors markeredgewidths namespace kwargs
  | FillStyles prefix names suffixes colors edgecolors edgewidths fillalphas kwargs =>
      make_fillstyles prefix names suffixes colors edgecolors edgewidths fillalphas
        namespace kwargs
  end.

Definition call_prefix (c : call) : string :=
  match c with
  | LineStyles prefix _ _ _ _ _ _ => prefix
  | PointStyles prefix _ _ _ _ _ _ _ _ _ _ => prefix
  | FillStyles prefix _ _ _ _ _ _ _ => prefix
  end.

Definition call_names (c : call) : arg string :=
  match c with
  | LineStyles _ names _ _ _ _ _ => names
  | PointStyles _ names _ _ _ _ _ _ _ _ _ => names
  | FillStyles _ names _ _ _ _ _ _ => names
  end.

(** The suffixes of the styles a call generates for one name. *)
Definition call_suffixes (c : call) : list string :=
  match c with
  | LineStyles _ _ suffix _ _ _ _ => [suffix]
  | PointStyles _ _ suffix _ _ _ _ _ _ _ _ => [suffix]
  | FillStyles _ _ suffixes _ _ _ _ _ => omap id suffixes
  end.

(** The lengths the generator takes the number of styles from. *)
Definition call_lengths (c : call) : list (option nat) :=
  match c with
  | LineStyles _ names _ colors dashes lws _ =>
      [seq_len names; seq_len colors; seq_len dashes; seq_len lws]
  | PointStyles _ names _ colors dashes lws markers markersizes
      markeredgecolors markeredgewidths _ =>
      [seq_len names; seq_len colors; seq_len dashes; seq_len lws;
       Some (length markers); seq_len markersizes;
       seq_len markeredgecolors; seq_len markeredgewidths]
  | FillStyles _ names _ colors edgecolors edgewidths fillalphas _ =>
      [seq_len names; seq_len colors; seq_len edgecolors;
       seq_len edgewidths; seq_len fillalphas]
  end.

Definition call_count (c : call) : nat := style_count (call_lengths c).



(** The category mappings of a call: [prefix + suffix]. *)
Definition call_categories (c : call) : list string :=
  (λ suffix, call_prefix c +:+ suffix) <$> call_suffixes c.

(** The two preparation steps of a generator. *)
Definition prepare_registry (ns : loc) (lns : list string) : M heap unit :=
  prepare_style_names ns ;;- for_each lns (prepare_category ns).

(** ** Reading a registry back from the heap *)

(** The attribute [a] of the namespace object [ns]. *)
Definition attr_of (h : heap) (ns : loc) (a : string) : option pyval :=
  match h !! ns with
  | Some (ONamespace attrs) => attrs !! a
  | _ => None
  end.

(** The dictionary a value refers to. *)
Definition dict_at (h : heap) (v : pyval) : option (gmap string pyval) :=
  match v with
  | VRef l => match h !! l with
              | Some (ODict d) => Some d
              | _ => None
              end
  | _ => None
  end.

(** The list a value refers to. *)
Definition list_at (h : heap) (v : pyval) : option (list pyval) :=
  match v with
  | VRef l => match h !! l with
              | Some (OList xs) => Some xs
              | _ => None
              end
  | _ => None
  end.

(** [namespace.style_names] *)
Definition style_names_of (h : heap) (ns : loc) : option (list pyval) :=
  attr_of h ns "style_names" ≫= list_at h.

(** The category mapping [getattr(namespace, ln)]. *)
Definition category_of (h : heap) (ns : loc) (ln : string) : option (gmap string pyval) :=
  attr_of h ns ln ≫= dict_at h.

(** The style dictionary [getattr(namespace, sn)]. *)
Definition style_of (h : heap) (ns : loc) (sn : string) : option (gmap string pyval) :=
  attr_of h ns sn ≫= dict_at h.

(** The style dictionary [getattr(namespace, ln)[name]]. *)
Definition category_style (h : heap) (ns : loc) (ln name : string)
  : option (gmap string pyval) :=
  match category_of h ns ln with
  | Some cat => match cat !! name with
                | Some v => dict_at h v
                | None => None
                end
  | None => None
  end.

(** [name in xs] as [py_contains] decides it on a list. *)
Definition name_in (xs : list pyval) (name : string) : bool :=
  existsb (λ x, match x with VStr s => String.eqb s name | _ => false end) xs.

(** The list [style_names] after [add_style_name]. *)
Definition add_name (xs : list pyval) (name : string) : list pyval :=
  if name_in xs name then xs else xs ++ [VStr name].

(** ** The common shape of the three generators

    Each generator is two preparation steps followed by one loop.  The body
    of the loop finds the name of style [k], adds it to [style_names] and
    then registers one dictionary per variant: one for line and point
    styles, one per suffix for fill styles. *)

(** [dict(color=c, linestyle=ds, linewidth=lw, **kwargs)] of line style [k] *)
Definition line_dict (colors dashes : arg string) (lws : arg num)
    (kwargs : gmap string pyval) (k : nat) : result (gmap string pyval) :=
  rbind (pick colors k) (λ c,
  rbind (pick dashes k) (λ ds,
  rbind (pick lws k) (λ lw,
  py_dict [("color", VStr c); ("linestyle", VStr ds); ("linewidth", VNum lw)] kwargs))).

(** The dictionary of point style [k] *)
Definition point_dict (colors dashes : arg string) (lws : arg num)
    (markers : list marker) (markersizes markeredgecolors markeredgewidths : arg num)
    (kwargs : gmap string pyval) (k : nat) : result (gmap string pyval) :=
  rbind (pick colors k) (λ c,
  rbind (pick dashes k) (λ ds,
  rbind (pick lws k) (λ lw,
  rbind (if (1 <? length markers)%nat then pick (Seq markers) k
         else pick (Seq markers) 0) (λ mk,
  rbind (pick markersizes k) (λ ms,
  rbind (pick markeredgecolors k) (λ mc,
  rbind (pick markeredgewidths k) (λ mw,
  rbind (marker_symbol mk) (λ symbol,
  rbind (marker_size mk ms) (λ size,
  rbind (lighter c mc) (λ mec,
  py_dict [("color", VStr c); ("linestyle", VStr ds); ("linewidth", VNum lw);
           ("marker", symbol); ("markersize", size);
           ("markeredgecolor", VStr mec); ("markeredgewidth", VNum mw)] kwargs)))))))))).

(** The dictionary of variant [j] of fill style [k] *)
Definition fill_dict_at (colors : arg string) (edgecolors edgewidths fillalphas : arg num)
    (kwargs : gmap string pyval) (j k : nat) : result (gmap string pyval) :=
  rbind (pick colors k) (λ c,
  rbind (pick edgecolors k) (λ ec,
  rbind (pick edgewidths k) (λ ew,
  rbind (pick fillalphas k) (λ fa,
  fill_dict j c ec ew fa kwargs)))).

(** Allocate a dictionary and register it. *)
Definition new_style (ns : loc) (sn ln name : string) (d : result (gmap string pyval))
  : M heap unit :=
  d ←- lift d;
  r ←- alloc (ODict d);
  register ns sn ln name r.

(** A variant: its suffix and the dictionary of its style [k]. *)
Definition variant : Type := string * (nat → result (gmap string pyval)).

Definition expand_body (ns : loc) (prefix : string) (names : arg string)
    (vs : list variant) (k : nat) : M heap unit :=
  name ←- lift (style_name names k);
  add_style_name ns name ;;-
  for_each vs (λ v,
    new_style ns (prefix +:+ name +:+ v.1) (prefix +:+ v.1) name (v.2 k)).

Definition expand (ns : loc) (prefix : string) (names : arg string)
    (vs : list variant) (n : nat) : M heap unit :=
  for_range n (expand_body ns prefix names vs).

(** The variants of a fill style: the suffixes that are not [None], each
    with its position in [suffixes]. *)
Definition fill_variants (suffixes : list (option string))
    (colors : arg string) (edgecolors edgewidths fillalphas : arg num)
    (kwargs : gmap string pyval) : list variant :=
  omap (λ js : nat * option string,
          match js.2 with
          | Some suffix =>
              Some (suffix, fill_dict_at colors edgecolors edgewidths fillalphas kwargs js.1)
          | None => None
          end)
       (enumerate suffixes).

(** ** The registry of one call

    While a generator runs, the part of the heap it works on is described
    by the attributes of the namespace, the list [style_names], the
    category dictionaries (by address) and the style dictionaries
    allocated so far (in order, from address [base] on). *)

Record astate : Type := AState {
  a_attrs : gmap string pyval;
  a_names : list pyval;
  a_dicts : gmap loc (gmap string pyval);
  a_recs : list (gmap string pyval);
}.

Definition a_add_style_name (name : string) : M astate unit :=
  λ σ, (Ok tt, AState (a_attrs σ) (add_name (a_names σ) name) (a_dicts σ) (a_recs σ)).

Definition a_new_style (base : nat) (sn ln name : string)
    (d : result (gmap string pyval)) : M astate unit :=
  λ σ, match d with
       | Raise e => (Raise e, σ)
       | Ok d =>
           let r := base + length (a_recs σ) in
           match a_attrs σ !! ln with
           | Some (VRef lc) =>
               (Ok tt, AState (<[sn := VRef r]> (a_attrs σ)) (a_names σ)
                              (alter (insert name (VRef r)) lc (a_dicts σ))
                              (a_recs σ ++ [d]))
           | _ => (Raise TypeError, σ)
           end
       end.

Definition a_expand_body (base : nat) (prefix : string) (names : arg string)
    (vs : list variant) (k : nat) : M astate unit :=
  name ←- lift (style_name names k);
  a_add_style_name name ;;-
  for_each vs (λ v,
    a_new_style base (prefix +:+ name +:+ v.1) (prefix +:+ v.1) name (v.2 k)).

Definition a_expand (base : nat) (prefix : string) (names : arg string)
    (vs : list variant) (n : nat) : M astate unit :=
  for_range n (a_expand_body base prefix names vs).

(** The heap [h] holds the registry [σ]; [h0] is the heap when the loop
    was entered and [base] its size. *)
Record rep (h0 : heap) (base : nat) (ns ls : loc) (σ : astate) (h : heap) : Prop := {
  rep_ns : h !! ns = Some (ONamespace (a_attrs σ));
  rep_names_attr : a_attrs σ !! "style_names" = Some (VRef ls);
  rep_names : h !! ls = Some (OList (a_names σ));
  rep_dicts : ∀ l d, a_dicts σ !! l = Some d → h !! l = Some (ODict d);
  rep_dicts_lt : ∀ l, is_Some (a_dicts σ !! l) → l < base;
  rep_length : length h = base + length (a_recs σ);
  rep_recs : ∀ i d, a_recs σ !! i = Some d → h !! (base + i) = Some (ODict d);
  rep_frame : ∀ l, l < base → l ≠ ns → l ≠ ls → a_dicts σ !! l = None → h !! l = h0 !! l;
}.

(** Every category name of the call refers to a category dictionary. *)
Definition cats_ok (lns : list string) (σ : astate) : Prop :=
  ∀ ln, ln ∈ lns → ∃ lc, a_attrs σ !! ln = Some (VRef lc) ∧ is_Some (a_dicts σ !! lc).

(** No style of the call is named like one of its categories or like
    [style_names]. *)
Definition no_clash (prefix : string) (names : arg string) (suffixes : list string)
    (n : nat) : Prop :=
  ∀ k name suffix, k < n → style_name names k = Ok name → suffix ∈ suffixes →
    prefix +:+ name +:+ suffix ≠ "style_names" ∧
    ∀ suffix', suffix' ∈ suffixes → prefix +:+ name +:+ suffix ≠ prefix +:+ suffix'.

(** [no_clash] as a test. *)
Definition no_clashb (prefix : string) (names : arg string) (suffixes : list string)
    (n : nat) : bool :=
  forallb (λ k,
    match style_name names k with
    | Ok name =>
        forallb (λ suffix,
          negb (String.eqb (prefix +:+ name +:+ suffix) "style_names") &&
          forallb (λ suffix',
            negb (String.eqb (prefix +:+ name +:+ suffix) (prefix +:+ suffix')))
            suffixes)
          suffixes
    | Raise _ => true
    end) (seq 0 n).

(** ** Running the primitives *)

Lemma run_bind_ok {St A B} (m : M St A) (f : A → M St B) h a h' :
  m h = (Ok a, h') → bind m f h = f a h'.
Proof. unfold bind. by intros ->. Qed.


Lemma run_bind_lift_ok {St A B} (r : result A) (f : A → M St B) h a :
  r = Ok a → bind (lift r) f h = f a h.
Proof. by intros ->. Qed.

Lemma run_bind_lift_raise {St A B} (r : result A) (f : A → M St B) h e :
  r = Raise e → bind (lift r) f h = (Raise e, h).
Proof. by intros ->. Qed.

Lemma for_each_ext {St A} (xs : list A) (f g : A → M St unit) :
  (∀ x h, x ∈ xs → f x h = g x h) → ∀ h, for_each xs f h = for_each xs g h.
Proof.
  induction xs as [|x xs IH]; intros Hfg h; [done|].
  simpl. unfold bind. rewrite Hfg by left.
  destruct (g x h) as [[[]|e] h']; [|done].
  apply IH. intros y h'' Hy. apply Hfg. by right.
Qed.

Lemma for_each_app {St A} (xs ys : list A) (f : A → M St unit) h :
  for_each (xs ++ ys) f h = bind (for_each xs f) (λ _, for_each ys f) h.
Proof.
  revert h. induction xs as [|x xs IH]; intros h; simpl.
  - done.
  - unfold bind. destruct (f x h) as [[[]|e] h']; [|done].
    rewrite IH. done.
Qed.

Lemma for_range_S {St} n (body : nat → M St unit) h :
  for_range (S n) body h = bind (for_range n body) (λ _, body n) h.
Proof.
  unfold for_range. rewrite seq_S, for_each_app. simpl.
  unfold bind. destruct (for_each (seq 0 n) body h) as [[[]|e] h']; [|done].
  destruct (body n h') as [[[]|e] h'']; done.
Qed.

Section run.
Context (h : heap) (ns : loc) (attrs : gmap string pyval).
Hypothesis Hns : h !! ns = Some (ONamespace attrs).

Lemma run_hasattr a :
  py_hasattr ns a h = (Ok (bool_decide (is_Some (attrs !! a))), h).
Proof. unfold py_hasattr. by rewrite Hns. Qed.

Lemma run_getattr a v :
  attrs !! a = Some v → py_getattr ns a h = (Ok v, h).
Proof. intros Ha. unfold py_getattr. by rewrite Hns, Ha. Qed.

Lemma run_setattr a v :
  py_setattr ns a v h = (Ok tt, <[ns := ONamespace (<[a := v]> attrs)]> h).
Proof. unfold py_setattr. by rewrite Hns. Qed.

Lemma ns_lt : ns < length h.
Proof. by eapply lookup_lt_Some. Qed.

(** [add_style_name] on a namespace whose [style_names] is a list. *)
Lemma run_add_style_name ls L name :
  attrs !! "style_names" = Some (VRef ls) →
  h !! ls = Some (OList L) →
  add_style_name ns name h = (Ok tt, <[ls := OList (add_name L name)]> h).
Proof.
  intros Hattr Hls. unfold add_style_name.
  rewrite (run_bind_ok _ _ _ _ _ (run_getattr _ _ Hattr)).
  unfold bind at 1, py_contains. rewrite Hls. fold (name_in L name).
  unfold add_name. destruct (name_in L name); simpl.
  - unfold ret. by rewrite list_insert_id.
  - rewrite (run_bind_ok _ _ _ _ _ (run_getattr _ _ Hattr)).
    unfold py_append. by rewrite Hls.
Qed.

(** [register] on a namespace whose category [ln] is a dictionary. *)
Lemma run_register sn ln name lc cat r :
  sn ≠ ln →
  attrs !! ln = Some (VRef lc) →
  h !! lc = Some (ODict cat) →
  register ns sn ln name r h =
    (Ok tt, <[lc := ODict (<[name := VRef r]> cat)]>
              (<[ns := ONamespace (<[sn := VRef r]> attrs)]> h)).
Proof.
  intros Hne Hattr Hlc. unfold register.
  rewrite (run_bind_ok _ _ _ _ _ (run_setattr _ _)).
  assert (lc ≠ ns) as Hlcns by (intros ->; congruence).
  erewrite run_bind_ok; last first.
  { unfold py_getattr. rewrite list_lookup_insert_eq by apply ns_lt.
    rewrite lookup_insert_ne by done. by rewrite Hattr. }
  unfold py_setitem. rewrite list_lookup_insert_ne by done. by rewrite Hlc.
Qed.

(** [new_style] allocates the dictionary at the end of the heap. *)
Lemma run_new_style sn ln name lc cat d :
  sn ≠ ln →
  attrs !! ln = Some (VRef lc) →
  h !! lc = Some (ODict cat) →
  new_style ns sn ln name (Ok d) h =
    (Ok tt, <[lc := ODict (<[name := VRef (length h)]> cat)]>
              (<[ns := ONamespace (<[sn := VRef (length h)]> attrs)]> (h ++ [ODict d]))).
Proof.
  intros Hne Hattr Hlc. unfold new_style.
  rewrite run_bind_lift_ok with (a := d) by done.
  rewrite run_bind_ok with (a := length h) (h' := h ++ [ODict d]) by done.
  assert (lc < length h) by (by eapply lookup_lt_Some).
  unfold register.
  erewrite run_bind_ok; last first.
  { unfold py_setattr. rewrite lookup_app_l by apply ns_lt. by rewrite Hns. }
  assert (lc ≠ ns) as Hlcns by (intros ->; congruence).
  erewrite run_bind_ok; last first.
  { unfold py_getattr. rewrite list_lookup_insert_eq
      by (rewrite length_app; pose proof ns_lt; lia).
    rewrite lookup_insert_ne by done. by rewrite Hattr. }
  unfold py_setitem. rewrite list_lookup_insert_ne by done.
  rewrite lookup_app_l by done. by rewrite Hlc.
Qed.
End run.

(** ** Loop invariants *)

Lemma bind_assoc {St A B C} (m : M St A) (f : A → M St B) (g : B → M St C) s :
  bind (bind m f) g s = bind m (λ a, bind (f a) g) s.
Proof. unfold bind. by destruct (m s) as [[a|e] s']. Qed.

(** [P k] holds before iteration [k]; [Q] holds when an iteration raises. *)
Lemma for_range_ind {St} (P : nat → St → Prop) (Q : St → Prop) n (body : nat → M St unit) s :
  P 0 s →
  (∀ k s, k < n → P k s →
     match body k s with
     | (Ok _, s') => P (S k) s'
     | (Raise _, s') => Q s'
     end) →
  match for_range n body s with
  | (Ok _, s') => P n s'
  | (Raise _, s') => Q s'
  end.
Proof.
  intros H0 Hstep. induction n as [|n IH].
  - done.
  - rewrite for_range_S. unfold bind.
    destruct (for_range n body s) as [[[]|e] s'].
    + apply Hstep; [lia|]. apply IH. intros k s'' ? ?. apply Hstep; [lia|done].
    + apply IH. intros k s'' ? ?. apply Hstep; [lia|done].
Qed.

(** [P pre] holds when the elements [pre] have been processed. *)
Lemma for_each_ind {St A} (P : list A → St → Prop) (Q : St → Prop) (xs : list A)
    (body : A → M St unit) s :
  P [] s →
  (∀ pre x post s, xs = pre ++ x :: post → P pre s →
     match body x s with
     | (Ok _, s') => P (pre ++ [x]) s'
     | (Raise _, s') => Q s'
     end) →
  match for_each xs body s with
  | (Ok _, s') => P xs s'
  | (Raise _, s') => Q s'
  end.
Proof.
  intros H0 Hstep.
  enough (∀ pre post s, xs = pre ++ post → P pre s →
            match for_each post body s with
            | (Ok _, s') => P xs s'
            | (Raise _, s') => Q s'
            end) as Hgen by (by apply (Hgen [] xs)).
  intros pre post. revert pre. induction post as [|x post IH]; intros pre s' Hxs Hpre.
  - simpl. by rewrite Hxs, app_nil_r.
  - simpl. unfold bind. pose proof (Hstep pre x post s' Hxs Hpre) as Hb.
    destruct (body x s') as [[[]|e] s'']; [|done].
    apply (IH (pre ++ [x])); [|done]. by rewrite <-app_assoc.
Qed.

(** A loop that succeeds has succeeded in every iteration. *)
Lemma for_range_ok_inv {St} n (body : nat → M St unit) s s' :
  for_range n body s = (Ok tt, s') →
  ∀ k, k ≤ n → ∃ sk, for_range k body s = (Ok tt, sk).
Proof.
  revert s'. induction n as [|n IH]; intros s' Hrun k Hk.
  - assert (k = 0) as -> by lia. by exists s.
  - rewrite for_range_S in Hrun. unfold bind in Hrun.
    destruct (for_range n body s) as [[[]|e] sn] eqn:Hn; [|done].
    destruct (decide (k = S n)) as [->|].
    + exists s'. rewrite for_range_S. unfold bind. by rewrite Hn.
    + apply (IH sn eq_refl). lia.
Qed.

(** ** The generators in their common shape *)

Lemma bind_ext {St A B} (m : M St A) (f g : A → M St B) s :
  (∀ a s', f a s' = g a s') → bind m f s = bind m g s.
Proof. intros Hfg. unfold bind. destruct (m s) as [[a|e] s']; [apply Hfg|done]. Qed.

Lemma bind_ret_unit {St} (m : M St unit) s : bind m (λ _, ret tt) s = m s.
Proof. unfold bind, ret. by destruct (m s) as [[[]|e] s']. Qed.

Lemma bind_for_each_one {St A B} (x : A) (f : A → M St unit) (g : unit → M St B) s :
  bind (for_each [x] f) g s = bind (f x) g s.
Proof. simpl. unfold bind, ret. by destruct (f x s) as [[[]|e] s']. Qed.

Lemma bind_lift_rbind {St A B C} (r : result A) (g : A → result B) (f : B → M St C) s :
  bind (lift (rbind r g)) f s = bind (lift r) (λ a, bind (lift (g a)) f) s.
Proof. by destruct r. Qed.

Lemma for_each_omap {St A B} (g : A → option B) (xs : list A) (f : B → M St unit) s :
  for_each (omap g xs) f s =
  for_each xs (λ x, match g x with Some y => f y | None => ret tt end) s.
Proof.
  revert s. induction xs as [|x xs IH]; intros s; [done|].
  simpl. destruct (g x) as [y|]; simpl.
  - apply bind_ext. intros _ s'. apply IH.
  - unfold bind, ret. apply IH.
Qed.

Lemma make_linestyles_expand prefix names suffix colors dashes lws namespace kwargs h :
  let ns := default main_module namespace in
  make_linestyles prefix names suffix colors dashes lws namespace kwargs h =
  (prepare_style_names ns ;;-
   for_each [prefix +:+ suffix] (prepare_category ns) ;;-
   expand ns prefix names [(suffix, line_dict colors dashes lws kwargs)]
     (style_count [seq_len names; seq_len colors; seq_len dashes; seq_len lws])) h.
Proof.
  intros ns. unfold make_linestyles. fold ns.
  apply bind_ext. intros _ h1. rewrite bind_for_each_one.
  apply bind_ext. intros _ h2.
  apply for_each_ext. intros k h3 _. unfold expand_body.
  apply bind_ext. intros name h4. apply bind_ext. intros _ h5.
  simpl for_each. rewrite bind_ret_unit. unfold new_style, line_dict.
  by repeat (rewrite bind_lift_rbind; apply bind_ext; intros ? ?).
Qed.

Lemma make_pointstyles_expand prefix names suffix colors dashes lws markers markersizes
    markeredgecolors markeredgewidths namespace kwargs h :
  let ns := default main_module namespace in
  make_pointstyles prefix names suffix colors dashes lws markers markersizes
    markeredgecolors markeredgewidths namespace kwargs h =
  (prepare_style_names ns ;;-
   for_each [prefix +:+ suffix] (prepare_category ns) ;;-
   expand ns prefix names
     [(suffix, point_dict colors dashes lws markers markersizes markeredgecolors
                 markeredgewidths kwargs)]
     (style_count [seq_len names; seq_len colors; seq_len dashes; seq_len lws;
                   Some (length markers); seq_len markersizes;
                   seq_len markeredgecolors; seq_len markeredgewidths])) h.
Proof.
  intros ns. unfold make_pointstyles. fold ns.
  apply bind_ext. intros _ h1. rewrite bind_for_each_one.
  apply bind_ext. intros _ h2.
  apply for_each_ext. intros k h3 _. unfold expand_body.
  apply bind_ext. intros name h4. apply bind_ext. intros _ h5.
  simpl for_each. rewrite bind_ret_unit. unfold new_style, point_dict.
  by repeat (rewrite bind_lift_rbind; apply bind_ext; intros ? ?).
Qed.

(** The category names of a fill style call. *)
Definition fill_categories (prefix : string) (suffixes : list (option string)) : list string :=
  omap (λ s : option string, (λ suffix, prefix +:+ suffix) <$> s) suffixes.

Lemma bind_ext_l_r {St A B} (m m' : M St A) (f g : A → M St B) s :
  m s = m' s → (∀ a s', f a s' = g a s') → bind m f s = bind m' g s.
Proof.
  intros Hm Hfg. unfold bind. rewrite Hm.
  destruct (m' s) as [[a|e] s']; [apply Hfg|done].
Qed.

Lemma bind_ext_l {St A B} (m m' : M St A) (f : A → M St B) s :
  m s = m' s → bind m f s = bind m' f s.
Proof. unfold bind. by intros ->. Qed.

Lemma prepare_fill_categories ns prefix suffixes h :
  for_each suffixes (λ suffix : option string,
    match suffix with
    | Some suffix => prepare_category ns (prefix +:+ suffix)
    | None => ret tt
    end) h =
  for_each (fill_categories prefix suffixes) (prepare_category ns) h.
Proof.
  unfold fill_categories. rewrite for_each_omap.
  apply for_each_ext. by intros [suffix|] h' _.
Qed.

Lemma make_fillstyles_expand prefix names suffixes colors edgecolors edgewidths fillalphas
    namespace kwargs h :
  let ns := default main_module namespace in
  make_fillstyles prefix names suffixes colors edgecolors edgewidths fillalphas
    namespace kwargs h =
  (prepare_style_names ns ;;-
   for_each (fill_categories prefix suffixes) (prepare_category ns) ;;-
   expand ns prefix names
     (fill_variants suffixes colors edgecolors edgewidths fillalphas kwargs)
     (style_count [seq_len names; seq_len colors; seq_len edgecolors;
                   seq_len edgewidths; seq_len fillalphas])) h.
Proof.
  intros ns. unfold make_fillstyles. fold ns.
  apply bind_ext. intros _ h1.
  rewrite (bind_ext_l _ _ _ _ (prepare_fill_categories ns prefix suffixes h1)).
  apply bind_ext. intros _ h2.
  apply for_each_ext. intros k h3 _. unfold expand_body.
  apply bind_ext. intros name h4. apply bind_ext. intros _ h5.
  unfold fill_variants. rewrite for_each_omap.
  apply for_each_ext. intros [j [suffix|]] h6 _; [|done]. simpl.
  unfold new_style, fill_dict_at.
  by repeat (rewrite bind_lift_rbind; apply bind_ext; intros ? ?).
Qed.

(** ** The heap refines the registry of a call *)

Section refinement.
Context (h0 : heap) (base : nat) (ns ls : loc) (lns : list string).

Definition holds (σ : astate) (h : heap) : Prop :=
  rep h0 base ns ls σ h ∧ cats_ok lns σ.

(** [m] on the heap does what [m'] does on the registry. *)
Definition refines {A} (m : M heap A) (m' : M astate A) : Prop :=
  ∀ σ h, holds σ h → (m h).1 = (m' σ).1 ∧ holds (m' σ).2 (m h).2.

Lemma refines_ret {A} (a : A) : refines (ret a) (ret a).
Proof. by intros σ h H. Qed.

Lemma refines_lift {A} (r : result A) : refines (lift r) (lift r).
Proof. by intros σ h H. Qed.

Lemma refines_bind {A B} (m : M heap A) (m' : M astate A)
    (f : A → M heap B) (f' : A → M astate B) :
  refines m m' → (∀ a, refines (f a) (f' a)) → refines (bind m f) (bind m' f').
Proof.
  intros Hm Hf σ h H. unfold bind.
  destruct (Hm σ h H) as [Hr H'].
  destruct (m h) as [r h1], (m' σ) as [r' σ1]; simpl in *; subst r'.
  destruct r as [a|e]; [by apply Hf | done].
Qed.

Lemma refines_for_each {A} (xs : list A) (f : A → M heap unit) (f' : A → M astate unit) :
  (∀ x, x ∈ xs → refines (f x) (f' x)) → refines (for_each xs f) (for_each xs f').
Proof.
  induction xs as [|x xs IH]; intros Hf; simpl.
  - apply refines_ret.
  - apply refines_bind; [apply Hf; by left|].
    intros _. apply IH. intros y Hy. apply Hf. by right.
Qed.

Lemma refines_add_style_name name :
  refines (add_style_name ns name) (a_add_style_name name).
Proof.
  intros σ h [Hrep Hcats].
  rewrite (run_add_style_name h ns _ (rep_ns _ _ _ _ _ _ Hrep) ls (a_names σ) name
             (rep_names_attr _ _ _ _ _ _ Hrep) (rep_names _ _ _ _ _ _ Hrep)).
  simpl. split; [done|]. split; [|done].
  destruct Hrep as [Hns Hattr Hls Hd Hdlt Hlen Hrecs Hframe].
  assert (ls < length h) as Hlt by (by eapply lookup_lt_Some).
  split; simpl.
  - rewrite list_lookup_insert_ne; [done|]. intros ->. congruence.
  - done.
  - by rewrite list_lookup_insert_eq.
  - intros l d Hl. rewrite list_lookup_insert_ne; [by apply Hd|].
    intros ->. apply Hd in Hl. congruence.
  - done.
  - by rewrite length_insert.
  - intros i d Hi. rewrite list_lookup_insert_ne; [by apply Hrecs|].
    intros ->. apply Hrecs in Hi. congruence.
  - intros l ? ? ? ?. rewrite list_lookup_insert_ne by done. by apply Hframe.
Qed.

Lemma refines_new_style sn ln name d :
  ln ∈ lns → sn ∉ lns → sn ≠ "style_names" →
  refines (new_style ns sn ln name d) (a_new_style base sn ln name d).
Proof.
  intros Hln Hsn Hsn' σ h [Hrep Hcats].
  unfold a_new_style. destruct d as [d|e]; [|done].
  destruct (Hcats ln Hln) as (lc & Hattr & [cat Hcat]). rewrite Hattr.
  destruct Hrep as [Hns Hnattr Hls Hd Hdlt Hlen Hrecs Hframe].
  assert (ns < length h) as Hnslt by (by eapply lookup_lt_Some).
  assert (ls < length h) as Hlslt by (by eapply lookup_lt_Some).
  assert (lc < base) as Hlcb by (apply Hdlt; by rewrite Hcat).
  assert (lc < length h) as Hlclt by lia.
  assert (lc ≠ ns) as Hlcns by (intros ->; apply Hd in Hcat; congruence).
  assert (lc ≠ ls) as Hlcls by (intros ->; apply Hd in Hcat; congruence).
  assert (ls ≠ ns) as Hlsns by (intros ->; congruence).
  assert (sn ≠ ln) as Hsnln by (intros ->; done).
  rewrite (run_new_style h ns (a_attrs σ) Hns sn ln name lc cat d Hsnln Hattr (Hd _ _ Hcat)).
  rewrite Hlen. simpl. split; [done|]. split.
  - split; simpl.
    + rewrite list_lookup_insert_ne by done.
      rewrite list_lookup_insert_eq; [done|]. rewrite length_app. lia.
    + by rewrite lookup_insert_ne.
    + rewrite !list_lookup_insert_ne by done. by rewrite lookup_app_l.
    + intros l d' Hl. destruct (decide (l = lc)) as [->|Hne].
      * rewrite lookup_alter_eq, Hcat in Hl. simpl in Hl. simplify_eq.
        rewrite list_lookup_insert_eq; [done|]. rewrite length_insert, length_app. lia.
      * rewrite lookup_alter_ne in Hl by done.
        assert (l ≠ ns) by (intros ->; apply Hd in Hl; congruence).
        rewrite !list_lookup_insert_ne by done.
        rewrite lookup_app_l; [by apply Hd|]. apply Hd in Hl. by eapply lookup_lt_Some.
    + intros l Hl. apply Hdlt. destruct (decide (l = lc)) as [->|Hne]; [by rewrite Hcat|].
      by rewrite lookup_alter_ne in Hl.
    + rewrite !length_insert, !length_app. simpl. lia.
    + intros i d' Hi. apply lookup_app_Some in Hi as [Hi|[Hge Hi]].
      * pose proof (Hrecs _ _ Hi) as Hh.
        assert (base + i ≠ lc) by lia.
        assert (base + i ≠ ns) by (intros Heq; rewrite Heq in Hh; congruence).
        rewrite !list_lookup_insert_ne by done.
        rewrite lookup_app_l; [done|]. by eapply lookup_lt_Some.
      * apply list_lookup_singleton_Some in Hi as [Hi ->].
        assert (base + i = length h) as Hi' by lia. rewrite Hi'.
        rewrite !list_lookup_insert_ne by lia.
        by rewrite list_lookup_middle.
    + intros l Hlb Hlns Hlls Hl.
      assert (l ≠ lc) as Hne.
      { intros ->. rewrite lookup_alter_eq, Hcat in Hl. done. }
      rewrite lookup_alter_ne in Hl by done.
      rewrite !list_lookup_insert_ne by done.
      rewrite lookup_app_l by lia. by apply Hframe.
  - intros ln' Hln'. destruct (Hcats ln' Hln') as (lc' & Hattr' & Hsome).
    exists lc'. simpl. split.
    + rewrite lookup_insert_ne; [done|]. intros ->. done.
    + destruct (decide (lc' = lc)) as [->|Hne].
      * rewrite lookup_alter_eq, Hcat. by eexists.
      * by rewrite lookup_alter_ne.
Qed.


Lemma refines_bind_lift {A B} (r : result A) (f : A → M heap B) (f' : A → M astate B) :
  (∀ a, r = Ok a → refines (f a) (f' a)) → refines (bind (lift r) f) (bind (lift r) f').
Proof.
  intros Hf σ h H. destruct r as [a|e]; [|done]. by apply Hf.
Qed.

Lemma refines_expand_body prefix names vs k n :
  lns = (λ v : variant, prefix +:+ v.1) <$> vs →
  no_clash prefix names (fst <$> vs) n → k < n →
  refines (expand_body ns prefix names vs k) (a_expand_body base prefix names vs k).
Proof.
  intros Hlns Hclash Hk. unfold expand_body, a_expand_body.
  apply refines_bind_lift. intros name Hname.
  apply refines_bind; [apply refines_add_style_name|]. intros _.
  apply refines_for_each. intros v Hv.
  assert (v.1 ∈ fst <$> vs) as Hv1 by (apply list_elem_of_fmap; eauto).
  destruct (Hclash k name v.1 Hk Hname Hv1) as [Hsn Hcat].
  apply refines_new_style; [| |done].
  - rewrite Hlns. apply list_elem_of_fmap. eauto.
  - rewrite Hlns. intros (v' & Heq & Hv')%list_elem_of_fmap.
    apply (Hcat v'.1); [|done]. apply list_elem_of_fmap. eauto.
Qed.

Lemma refines_expand prefix names vs n :
  lns = (λ v : variant, prefix +:+ v.1) <$> vs →
  no_clash prefix names (fst <$> vs) n →
  refines (expand ns prefix names vs n) (a_expand base prefix names vs n).
Proof.
  intros Hlns Hclash. unfold expand, a_expand, for_range.
  apply refines_for_each. intros k Hk%elem_of_seq.
  eapply refines_expand_body; [done..|lia].
Qed.
End refinement.

(** ** The preparation steps *)

(** The namespace can take the styles of a call with category names [lns]:
    [style_names], if it exists, is a list, and the categories that exist
    are dictionaries. *)
Definition registry_ok (h : heap) (ns : loc) (lns : list string) : Prop :=
  ("style_names" ∉ lns) ∧
  ∃ attrs, h !! ns = Some (ONamespace attrs) ∧
    (∀ v, attrs !! "style_names" = Some v → is_Some (list_at h v)) ∧
    (∀ ln v, ln ∈ lns → attrs !! ln = Some v → is_Some (dict_at h v)).

(** [style_names] and a category before the call; empty when absent. *)
Definition names0 (h : heap) (ns : loc) : list pyval :=
  default [] (style_names_of h ns).

Definition cat0 (h : heap) (ns : loc) (ln : string) : gmap string pyval :=
  default ∅ (category_of h ns ln).

Definition as_dict (o : obj) : option (gmap string pyval) :=
  match o with
  | ODict d => Some d
  | _ => None
  end.

(** All dictionaries of a heap, by address. *)
Definition dicts_of (h : heap) : gmap loc (gmap string pyval) :=
  omap as_dict (map_seq 0 h).

Lemma lookup_dicts_of h l : dicts_of h !! l = (h !! l) ≫= as_dict.
Proof. unfold dicts_of. by rewrite lookup_omap, lookup_map_seq_0. Qed.

Lemma lookup_dicts_of_Some h l d : dicts_of h !! l = Some d ↔ h !! l = Some (ODict d).
Proof.
  rewrite lookup_dicts_of. destruct (h !! l) as [[]|]; simpl; split; congruence.
Qed.

(** The heap [h1] after the preparation steps of a call on [h]. *)
Record prepared (h : heap) (ns : loc) (lns : list string) (attrs : gmap string pyval)
    (h1 : heap) (ls : loc) (attrs1 : gmap string pyval) : Prop := {
  pr_ns : h1 !! ns = Some (ONamespace attrs1);
  pr_len : length h ≤ length h1;
  pr_old : ∀ l, l < length h → l ≠ ns → h1 !! l = h !! l;
  pr_new : ∀ l, length h ≤ l → l < length h1 →
           h1 !! l = Some (OList []) ∨ h1 !! l = Some (ODict ∅);
  pr_attrs_old : ∀ a v, attrs !! a = Some v → attrs1 !! a = Some v;
  pr_attrs_new : ∀ a, a ≠ "style_names" → a ∉ lns → attrs1 !! a = attrs !! a;
  pr_names_attr : attrs1 !! "style_names" = Some (VRef ls);
  pr_names : h1 !! ls = Some (OList (names0 h ns));
  pr_cats : ∀ ln v, ln ∈ lns → attrs1 !! ln = Some v →
            ∃ lc, v = VRef lc ∧ h1 !! lc = Some (ODict (cat0 h ns ln));
}.

Section prepare.
Context (h : heap) (ns : loc) (lns : list string) (attrs : gmap string pyval).
Hypothesis Hns : h !! ns = Some (ONamespace attrs).
Hypothesis Hok : registry_ok h ns lns.

Lemma prepare_style_names_spec :
  ∃ h1 ls attrs1,
    prepare_style_names ns h = (Ok tt, h1) ∧ prepared h ns lns attrs h1 ls attrs1.
Proof.
  destruct Hok as (Hnotin & attrs' & Hns' & Hnames & Hcats).
  assert (attrs' = attrs) as -> by congruence.
  pose proof (ns_lt _ _ _ Hns) as Hlt.
  unfold prepare_style_names.
  rewrite (run_bind_ok _ _ _ _ _ (run_hasattr _ _ _ Hns _)).
  destruct (attrs !! "style_names") as [v|] eqn:Hv.
  - rewrite bool_decide_true by eauto. simpl.
    destruct (Hnames v eq_refl) as [L HL].
    destruct v as [| | | | |ls]; try done. simpl in HL.
    destruct (h !! ls) as [[L'| |]|] eqn:Hls; simplify_eq.
    exists h, ls, attrs. split; [done|]. split; try done.
    + intros l ? ?. lia.
    + unfold names0, style_names_of, attr_of. rewrite Hns, Hv. simpl. by rewrite Hls.
    + intros ln v Hln Hv'. destruct (Hcats ln v Hln Hv') as [d Hd].
      destruct v as [| | | | |lc]; try done. exists lc. split; [done|].
      unfold cat0, category_of, attr_of. rewrite Hns, Hv'. simpl in *.
      by destruct (h !! lc) as [[]|]; simplify_eq.
  - rewrite bool_decide_false by (by intros [? ?]). simpl.
    rewrite run_bind_ok with (a := length h) (h' := h ++ [OList []]) by done.
    unfold py_setattr. rewrite lookup_app_l, Hns by done.
    eexists _, (length h), _. split; [done|].
    assert (names0 h ns = []) as Hn0.
    { unfold names0, style_names_of, attr_of. by rewrite Hns, Hv. }
    split.
    + rewrite list_lookup_insert_eq; [done|]. rewrite length_app. lia.
    + rewrite length_insert, length_app. lia.
    + intros l ? ?. rewrite list_lookup_insert_ne by done. by rewrite lookup_app_l.
    + rewrite length_insert, length_app. simpl. intros l ? ?.
      assert (l = length h) as -> by lia. left.
      rewrite list_lookup_insert_ne by lia. by rewrite list_lookup_middle.
    + intros a v Ha. rewrite lookup_insert_ne; [done|]. intros <-. congruence.
    + intros a ? ?. by rewrite lookup_insert_ne.
    + by rewrite lookup_insert_eq.
    + rewrite Hn0, list_lookup_insert_ne by lia. by rewrite list_lookup_middle.
    + intros ln v Hln. rewrite lookup_insert_ne by (intros <-; done). intros Hv'.
      destruct (Hcats ln v Hln Hv') as [d Hd].
      destruct v as [| | | | |lc]; try done. exists lc. split; [done|].
      unfold cat0, category_of, attr_of. rewrite Hns, Hv'. simpl in *.
      destruct (h !! lc) as [[]|] eqn:Hlc; simplify_eq.
      assert (lc < length h) by (by eapply lookup_lt_Some).
      assert (lc ≠ ns) by (intros ->; congruence).
      rewrite list_lookup_insert_ne by done. by rewrite lookup_app_l.
Qed.

Lemma prepare_category_spec h1 ls attrs1 ln :
  ln ∈ lns → prepared h ns lns attrs h1 ls attrs1 →
  ∃ h2 attrs2,
    prepare_category ns ln h1 = (Ok tt, h2) ∧ prepared h ns lns attrs h2 ls attrs2 ∧
    is_Some (attrs2 !! ln) ∧ (∀ a, is_Some (attrs1 !! a) → is_Some (attrs2 !! a)).
Proof.
  intros Hln [Hns1 Hlen Hold Hnew Haold Hanew Hnattr Hnames Hcats].
  destruct Hok as (Hnotin & _).
  pose proof (ns_lt _ _ _ Hns) as Hlt.
  pose proof (ns_lt _ _ _ Hns1) as Hlt1.
  unfold prepare_category.
  rewrite (run_bind_ok _ _ _ _ _ (run_hasattr _ _ _ Hns1 _)).
  destruct (attrs1 !! ln) as [v|] eqn:Hv.
  - rewrite bool_decide_true by eauto. simpl.
    exists h1, attrs1. split; [done|]. split; [done|]. split; [by rewrite Hv|done].
  - rewrite bool_decide_false by (by intros [? ?]). simpl.
    rewrite run_bind_ok with (a := length h1) (h' := h1 ++ [ODict ∅]) by done.
    unfold py_setattr. rewrite lookup_app_l, Hns1 by done.
    eexists _, _. split; [done|].
    assert (ls < length h1) by (by eapply lookup_lt_Some).
    assert (ls ≠ ns) by (intros ->; congruence).
    assert (attrs !! ln = None) as Hnone.
    { destruct (attrs !! ln) as [v|] eqn:Hv'; [|done].
      apply Haold in Hv'. congruence. }
    assert (cat0 h ns ln = ∅) as Hc0.
    { unfold cat0, category_of, attr_of. by rewrite Hns, Hnone. }
    split; [split|split].
    + rewrite list_lookup_insert_eq; [done|]. rewrite length_app. lia.
    + rewrite length_insert, length_app. lia.
    + intros l ? ?. rewrite list_lookup_insert_ne by done.
      rewrite lookup_app_l by lia. by apply Hold.
    + rewrite length_insert, length_app. simpl. intros l ? ?.
      destruct (decide (l = length h1)) as [->|].
      * right. rewrite list_lookup_insert_ne by lia. by rewrite list_lookup_middle.
      * rewrite list_lookup_insert_ne by lia. rewrite lookup_app_l by lia.
        apply Hnew; lia.
    + intros a v Ha. rewrite lookup_insert_ne; [by apply Haold|]. intros <-. congruence.
    + intros a ? ?. rewrite lookup_insert_ne by (intros <-; done). by apply Hanew.
    + rewrite lookup_insert_ne; [done|]. intros ->. done.
    + rewrite list_lookup_insert_ne by done. by rewrite lookup_app_l.
    + intros ln' v Hln'. destruct (decide (ln' = ln)) as [->|Hne].
      * rewrite lookup_insert_eq. intros [= <-]. exists (length h1). split; [done|].
        rewrite Hc0, list_lookup_insert_ne by lia. by rewrite list_lookup_middle.
      * rewrite lookup_insert_ne by done. intros Hv'.
        destruct (Hcats ln' v Hln' Hv') as (lc & -> & Hlc). exists lc. split; [done|].
        assert (lc < length h1) by (by eapply lookup_lt_Some).
        assert (lc ≠ ns) by (intros ->; congruence).
        rewrite list_lookup_insert_ne by done. by rewrite lookup_app_l.
    + by rewrite lookup_insert_eq.
    + intros a [v Ha]. destruct (decide (a = ln)) as [->|]; [congruence|].
      rewrite lookup_insert_ne by done. by rewrite Ha.
Qed.

Lemma prepare_categories_spec lns' h1 ls attrs1 :
  lns' ⊆ lns → prepared h ns lns attrs h1 ls attrs1 →
  ∃ h2 attrs2,
    for_each lns' (prepare_category ns) h1 = (Ok tt, h2) ∧
    prepared h ns lns attrs h2 ls attrs2 ∧
    (∀ ln, ln ∈ lns' → is_Some (attrs2 !! ln)) ∧
    (∀ a, is_Some (attrs1 !! a) → is_Some (attrs2 !! a)).
Proof.
  revert h1 attrs1. induction lns' as [|ln lns' IH]; intros h1 attrs1 Hsub Hprep.
  - exists h1, attrs1. split; [done|]. split; [done|]. split; [|done].
    by intros ln ?%elem_of_nil.
  - destruct (prepare_category_spec h1 ls attrs1 ln) as (h2 & attrs2 & Hrun & Hprep2 & Hin & Hmono);
      [apply Hsub; by left|done|].
    destruct (IH h2 attrs2) as (h3 & attrs3 & Hrun3 & Hprep3 & Hin3 & Hmono3);
      [intros x Hx; apply Hsub; by right|done|].
    exists h3, attrs3. split.
    { simpl. by rewrite (run_bind_ok _ _ _ _ _ Hrun). }
    split; [done|]. split.
    + intros ln' [->|Hln']%elem_of_cons; [by apply Hmono3|by apply Hin3].
    + intros a Ha. by apply Hmono3, Hmono.
Qed.

(** After the preparation steps the heap holds a registry without new
    styles. *)
Lemma prepare_spec :
  ∃ h1 ls attrs1,
    (prepare_style_names ns ;;- for_each lns (prepare_category ns)) h = (Ok tt, h1) ∧
    prepared h ns lns attrs h1 ls attrs1 ∧
    holds h1 (length h1) ns ls lns (AState attrs1 (names0 h ns) (dicts_of h1) []) h1.
Proof.
  destruct prepare_style_names_spec as (h1 & ls & attrs1 & Hrun1 & Hprep1).
  destruct (prepare_categories_spec lns h1 ls attrs1) as (h2 & attrs2 & Hrun2 & Hprep2 & Hin & _);
    [done..|].
  exists h2, ls, attrs2. split; [by rewrite (run_bind_ok _ _ _ _ _ Hrun1)|].
  split; [done|].
  destruct Hprep2 as [Hns2 Hlen Hold Hnew Haold Hanew Hnattr Hnames Hcats].
  split; [split|]; simpl.
  - done.
  - done.
  - done.
  - intros l d. by rewrite lookup_dicts_of_Some.
  - intros l [d Hd]. apply lookup_dicts_of_Some in Hd. by eapply lookup_lt_Some.
  - lia.
  - intros i d Hi. by rewrite lookup_nil in Hi.
  - done.
  - intros ln Hln. destruct (Hin ln Hln) as [v Hv].
    destruct (Hcats ln v Hln Hv) as (lc & -> & Hlc).
    exists lc. split; [done|]. eexists. by apply lookup_dicts_of_Some.
Qed.
End prepare.

(** ** What a call does to its registry *)

(** The names of the styles [0 .. n-1], as far as they can be found. *)
Definition names_of (names : arg string) (n : nat) : list string :=
  omap (λ k, match style_name names k with
             | Ok s => Some s
             | Raise _ => None
             end) (seq 0 n).

Lemma names_of_S names n :
  names_of names (S n) =
  names_of names n ++ match style_name names n with Ok s => [s] | Raise _ => [] end.
Proof.
  unfold names_of. rewrite seq_S, omap_app. simpl.
  by destruct (style_name names n).
Qed.

Lemma elem_of_names_of names n name :
  name ∈ names_of names n ↔ ∃ k, k < n ∧ style_name names k = Ok name.
Proof.
  unfold names_of. rewrite list_elem_of_omap. split.
  - intros (k & Hk%elem_of_seq & Hname). exists k. split; [lia|].
    destruct (style_name names k); by simplify_eq.
  - intros (k & Hk & Hname). exists k. split; [apply elem_of_seq; lia|]. by rewrite Hname.
Qed.

(** A category dictionary only gains keys, and only names of the call. *)
Definition dict_grows (nms : list string) (d d' : gmap string pyval) : Prop :=
  (∀ key, is_Some (d !! key) → is_Some (d' !! key)) ∧
  (∀ key, is_Some (d' !! key) → is_Some (d !! key) ∨ key ∈ nms).

(** The registry [σ'] during or after a call that started from [σ] and has
    so far found the names [nms]. *)
Record grows (prefix : string) (sfx : list string) (nms : list string)
    (σ σ' : astate) : Prop := {
  g_names : a_names σ' = foldl add_name (a_names σ) nms;
  g_attrs_mono : ∀ a, is_Some (a_attrs σ !! a) → is_Some (a_attrs σ' !! a);
  g_attrs_frame : ∀ a,
    (∀ name suffix, name ∈ nms → suffix ∈ sfx → a ≠ prefix +:+ name +:+ suffix) →
    a_attrs σ' !! a = a_attrs σ !! a;
  g_dicts : ∀ l, match a_dicts σ !! l, a_dicts σ' !! l with
                 | Some d, Some d' => dict_grows nms d d'
                 | None, None => True
                 | _, _ => False
                 end;
  g_recs : ∃ new, a_recs σ' = a_recs σ ++ new;
}.

Lemma grows_refl prefix sfx σ : grows prefix sfx [] σ σ.
Proof.
  split; try done.
  - intros l. destruct (a_dicts σ !! l); [|done]. split; auto.
  - exists []. by rewrite app_nil_r.
Qed.

Lemma grows_add_name prefix sfx nms σ σ' name :
  grows prefix sfx nms σ σ' →
  grows prefix sfx (nms ++ [name]) σ (a_add_style_name name σ').2.
Proof.
  intros [Hn Hm Hf Hd Hr]. split; simpl; try done.
  - by rewrite foldl_app, Hn.
  - intros a Ha. apply Hf. intros nm sf Hnm. apply Ha. apply elem_of_app. by left.
  - intros l. specialize (Hd l).
    destruct (a_dicts σ !! l), (a_dicts σ' !! l); try done.
    destruct Hd as [H1 H2]. split; [done|]. intros key Hkey.
    destruct (H2 key Hkey); [by left|right]. apply elem_of_app. by left.
Qed.

Lemma grows_new_style prefix sfx nms σ σ' base name suffix d :
  name ∈ nms → suffix ∈ sfx →
  grows prefix sfx nms σ σ' →
  grows prefix sfx nms σ
    (a_new_style base (prefix +:+ name +:+ suffix) (prefix +:+ suffix) name d σ').2.
Proof.
  intros Hname Hsuffix Hg. unfold a_new_style.
  destruct d as [d|e]; [|done].
  destruct (a_attrs σ' !! (prefix +:+ suffix)) as [[| | | | |lc]|]; try done.
  destruct Hg as [Hn Hm Hf Hd Hr]. split; simpl.
  - done.
  - intros a Ha. destruct (decide (a = prefix +:+ name +:+ suffix)) as [->|].
    + by rewrite lookup_insert_eq.
    + rewrite lookup_insert_ne by done. by apply Hm.
  - intros a Ha. rewrite lookup_insert_ne; [by apply Hf|].
    intros <-. by apply (Ha name suffix).
  - intros l. specialize (Hd l). destruct (decide (l = lc)) as [->|].
    + rewrite lookup_alter_eq.
      destruct (a_dicts σ !! lc) as [d0|], (a_dicts σ' !! lc) as [d1|]; try done. simpl.
      destruct Hd as [H1 H2]. split.
      * intros key Hkey. destruct (decide (key = name)) as [->|].
        -- by rewrite lookup_insert_eq.
        -- rewrite lookup_insert_ne by done. by apply H1.
      * intros key. destruct (decide (key = name)) as [->|]; [by right|].
        rewrite lookup_insert_ne by done. apply H2.
    + by rewrite lookup_alter_ne.
  - destruct Hr as [new Hr]. exists (new ++ [d]). by rewrite Hr, app_assoc.
Qed.

Section a_expand.
Context (base : nat) (prefix : string) (names : arg string) (vs : list variant).

Lemma a_variants_grows nms σ σ' name k :
  name ∈ nms → grows prefix (fst <$> vs) nms σ σ' →
  grows prefix (fst <$> vs) nms σ
    (for_each vs (λ v, a_new_style base (prefix +:+ name +:+ v.1)
                         (prefix +:+ v.1) name (v.2 k)) σ').2.
Proof.
  intros Hname Hg.
  pose proof (for_each_ind (λ _ s, grows prefix (fst <$> vs) nms σ s)
                (grows prefix (fst <$> vs) nms σ) vs
                (λ v, a_new_style base (prefix +:+ name +:+ v.1)
                        (prefix +:+ v.1) name (v.2 k)) σ' Hg) as Hind.
  destruct (for_each vs _ σ') as [[[]|e] σ'']; apply Hind.
  all: intros pre v post s Hvs Hs;
    pose proof (grows_new_style prefix (fst <$> vs) nms σ s base name v.1 (v.2 k) Hname) as Hstep;
    destruct (a_new_style _ _ _ _ _ s) as [[[]|e'] s']; apply Hstep; try done;
    apply list_elem_of_fmap; exists v; (split; [done|]); rewrite Hvs;
    apply elem_of_app; right; by left.
Qed.

Lemma a_expand_body_grows k σ s :
  grows prefix (fst <$> vs) (names_of names k) σ s →
  match a_expand_body base prefix names vs k s with
  | (Ok _, s') => grows prefix (fst <$> vs) (names_of names (S k)) σ s' ∧
                  ∃ name, names_of names (S k) = names_of names k ++ [name]
  | (Raise _, s') => ∃ m, m ≤ S k ∧ grows prefix (fst <$> vs) (names_of names m) σ s'
  end.
Proof.
  intros Hg. unfold a_expand_body.
  destruct (style_name names k) as [name|e] eqn:Hname.
  - rewrite run_bind_lift_ok with (a := name) by done.
    rewrite run_bind_ok with (a := tt) (h' := (a_add_style_name name s).2) by done.
    assert (names_of names (S k) = names_of names k ++ [name]) as Hnames
      by (by rewrite names_of_S, Hname).
    assert (name ∈ names_of names (S k)) as Hin
      by (rewrite Hnames; apply elem_of_app; right; by left).
    pose proof (a_variants_grows (names_of names (S k)) σ
                  (a_add_style_name name s).2 name k Hin) as Hv.
    rewrite Hnames in Hv at 1. specialize (Hv (grows_add_name _ _ _ _ _ _ Hg)).
    destruct (for_each vs _ _) as [[[]|e'] s'].
    + split; [done|]. by exists name.
    + exists (S k). split; [lia|done].
  - rewrite run_bind_lift_raise with (e := e) by done.
    exists k. split; [lia|done].
Qed.

(** During and after a call the registry has grown by the names found
    so far; after a call that returns, by all [n] names. *)
Lemma a_expand_grows n σ :
  match a_expand base prefix names vs n σ with
  | (Ok _, σ') => grows prefix (fst <$> vs) (names_of names n) σ σ' ∧
                  length (names_of names n) = n
  | (Raise _, σ') => ∃ m, m ≤ n ∧ grows prefix (fst <$> vs) (names_of names m) σ σ'
  end.
Proof.
  apply (for_range_ind
    (λ k s, grows prefix (fst <$> vs) (names_of names k) σ s ∧ length (names_of names k) = k)
    (λ s, ∃ m, m ≤ n ∧ grows prefix (fst <$> vs) (names_of names m) σ s)).
  - split; [apply grows_refl|done].
  - intros k s Hk [Hg Hlen].
    pose proof (a_expand_body_grows k σ s Hg) as Hb.
    destruct (a_expand_body _ _ _ _ _ s) as [[[]|e] s'].
    + destruct Hb as [Hg' [x Hx]]. split; [done|].
      rewrite Hx, length_app. simpl. lia.
    + destruct Hb as (m & Hm & Hg'). exists m. split; [lia|done].
Qed.
End a_expand.

(** ** Reading the registry of a call back from the heap *)

Section observe.
Context (h0 : heap) (base : nat) (ns ls : loc) (lns : list string).
Context (σ : astate) (h : heap).
Hypothesis Hholds : holds h0 base ns ls lns σ h.

Lemma holds_attr a : attr_of h ns a = a_attrs σ !! a.
Proof. unfold attr_of. by rewrite (rep_ns _ _ _ _ _ _ (proj1 Hholds)). Qed.

Lemma holds_style_names : style_names_of h ns = Some (a_names σ).
Proof.
  unfold style_names_of. rewrite holds_attr.
  rewrite (rep_names_attr _ _ _ _ _ _ (proj1 Hholds)). simpl.
  by rewrite (rep_names _ _ _ _ _ _ (proj1 Hholds)).
Qed.

Lemma holds_dict l d : a_dicts σ !! l = Some d → dict_at h (VRef l) = Some d.
Proof. intros Hl. simpl. by rewrite (rep_dicts _ _ _ _ _ _ (proj1 Hholds) l d Hl). Qed.

Lemma holds_rec i d : a_recs σ !! i = Some d → dict_at h (VRef (base + i)) = Some d.
Proof. intros Hi. simpl. by rewrite (rep_recs _ _ _ _ _ _ (proj1 Hholds) i d Hi). Qed.

Lemma holds_category ln lc d :
  a_attrs σ !! ln = Some (VRef lc) → a_dicts σ !! lc = Some d →
  category_of h ns ln = Some d.
Proof.
  intros Hattr Hd. unfold category_of. rewrite holds_attr, Hattr.
  by apply holds_dict.
Qed.

Lemma holds_length : length h = base + length (a_recs σ).
Proof. apply (rep_length _ _ _ _ _ _ (proj1 Hholds)). Qed.
End observe.

(** ** Names of attributes *)

Lemma string_length_app (a b : string) :
  String.length (a +:+ b) = String.length a + String.length b.
Proof.
  induction a as [|c a IH]; [done|].
  change (String c a +:+ b) with (String c (a +:+ b)). simpl. by rewrite IH.
Qed.

Lemma string_app_inj_r (a b s : string) : a +:+ s = b +:+ s → a = b.
Proof.
  revert b. induction a as [|c a IH]; intros [|c' b] Heq.
  - done.
  - apply (f_equal String.length) in Heq.
    rewrite !string_length_app in Heq. simpl in Heq. lia.
  - apply (f_equal String.length) in Heq.
    rewrite !string_length_app in Heq. simpl in Heq. lia.
  - change (String c (a +:+ s) = String c' (b +:+ s)) in Heq.
    injection Heq as -> Heq. f_equal. by apply IH.
Qed.

(** Distinct names give distinct attributes. *)
Lemma style_attr_inj (prefix suffix name name' : string) :
  prefix +:+ name +:+ suffix = prefix +:+ name' +:+ suffix → name = name'.
Proof. intros Heq%(inj (String.app prefix)). by eapply string_app_inj_r. Qed.

(** The attribute of a style with a name is not the attribute of its
    category. *)
Lemma style_attr_category (prefix suffix name : string) :
  name ≠ "" → prefix +:+ name +:+ suffix ≠ prefix +:+ suffix.
Proof.
  intros Hne Heq%(inj (String.app prefix)).
  apply Hne. apply (string_app_inj_r _ "" suffix). done.
Qed.

(** ** Line and point styles: one dictionary per name *)

Section single.
Context (base : nat) (prefix : string) (names : arg string) (suffix : string).
Context (dict_of : nat → result (gmap string pyval)).
Context (σ : astate) (lc : loc).

Let ln : string := prefix +:+ suffix.
Let body : nat → M astate unit :=
  a_expand_body base prefix names [(suffix, dict_of)].

(** The registry after the first [k] styles. *)
Record styled (k : nat) (σ' : astate) : Prop := {
  st_len : length (a_recs σ') = length (a_recs σ) + k;
  st_old : ∀ i, i < length (a_recs σ) → a_recs σ' !! i = a_recs σ !! i;
  st_recs : ∀ j, j < k →
    ∃ d, dict_of j = Ok d ∧ a_recs σ' !! (length (a_recs σ) + j) = Some d;
  st_names : ∀ j, j < k → ∃ name, style_name names j = Ok name;
  st_cat_attr : a_attrs σ' !! ln = Some (VRef lc);
  st_cat : is_Some (a_dicts σ' !! lc);
  st_last : ∀ j name, j < k → style_name names j = Ok name →
    ∃ i cat, j ≤ i < k ∧ style_name names i = Ok name ∧
      (∀ i', i < i' < k → style_name names i' ≠ Ok name) ∧
      a_attrs σ' !! (prefix +:+ name +:+ suffix)
        = Some (VRef (base + length (a_recs σ) + i)) ∧
      a_dicts σ' !! lc = Some cat ∧
      cat !! name = Some (VRef (base + length (a_recs σ) + i));
}.

Lemma styled_0 :
  a_attrs σ !! ln = Some (VRef lc) → is_Some (a_dicts σ !! lc) → styled 0 σ.
Proof.
  intros Hattr Hcat. split; try done; try (intros; lia).
Qed.

Lemma body_ok_inv k s s' :
  body k s = (Ok tt, s') →
  a_attrs s !! ln = Some (VRef lc) →
  ∃ name d, style_name names k = Ok name ∧ dict_of k = Ok d ∧
    s' = AState (<[prefix +:+ name +:+ suffix := VRef (base + length (a_recs s))]> (a_attrs s))
                (add_name (a_names s) name)
                (alter (insert name (VRef (base + length (a_recs s)))) lc (a_dicts s))
                (a_recs s ++ [d]).
Proof.
  intros Hrun Hattr. unfold body, a_expand_body in Hrun.
  destruct (style_name names k) as [name|e]; [|done].
  rewrite run_bind_lift_ok with (a := name) in Hrun by done.
  rewrite run_bind_ok with (a := tt) (h' := (a_add_style_name name s).2) in Hrun by done.
  simpl in Hrun. rewrite bind_ret_unit in Hrun. unfold a_new_style in Hrun.
  destruct (dict_of k) as [d|e]; [|done]. simpl in Hrun. fold ln in Hrun.
  rewrite Hattr in Hrun. exists name, d. by simplify_eq.
Qed.

Lemma body_ok k s name d :
  style_name names k = Ok name → dict_of k = Ok d →
  a_attrs s !! ln = Some (VRef lc) →
  ∃ s', body k s = (Ok tt, s').
Proof.
  intros Hname Hd Hattr. unfold body, a_expand_body.
  rewrite run_bind_lift_ok with (a := name) by done.
  rewrite run_bind_ok with (a := tt) (h' := (a_add_style_name name s).2) by done.
  simpl. rewrite bind_ret_unit. unfold a_new_style. rewrite Hd. simpl. fold ln.
  rewrite Hattr. by eexists.
Qed.

Context (n : nat).
Hypothesis Hclash : ∀ k name, k < n → style_name names k = Ok name →
  prefix +:+ name +:+ suffix ≠ ln.

Lemma styled_step k s s' :
  k < n → styled k s → body k s = (Ok tt, s') → styled (S k) s'.
Proof.
  intros Hk [Hlen Hold Hrecs Hnames Hattr Hcat Hlast] Hrun.
  destruct (body_ok_inv k s s' Hrun Hattr) as (name & d & Hname & Hd & ->).
  destruct Hcat as [cat Hcat].
  split; simpl.
  - rewrite length_app, Hlen. simpl. lia.
  - intros i Hi. rewrite lookup_app_l by lia. by apply Hold.
  - intros j Hj. destruct (decide (j = k)) as [->|].
    + exists d. split; [done|]. rewrite <-Hlen. by rewrite list_lookup_middle.
    + destruct (Hrecs j) as (d' & Hd' & Hj'); [lia|].
      exists d'. split; [done|]. rewrite lookup_app_l; [done|]. by eapply lookup_lt_Some.
  - intros j Hj. destruct (decide (j = k)) as [->|]; [by eexists|]. apply Hnames. lia.
  - rewrite lookup_insert_ne; [done|]. by apply (Hclash k).
  - rewrite lookup_alter_eq, Hcat. by eexists.
  - intros j name' Hj Hname'. rewrite Hlen.
    destruct (decide (name' = name)) as [->|Hne].
    + exists k, (<[name := VRef (base + (length (a_recs σ) + k))]> cat).
      split; [lia|]. split; [done|]. split; [intros; lia|].
      rewrite lookup_insert_eq, lookup_alter_eq, Hcat, lookup_insert_eq. simpl.
      by rewrite Nat.add_assoc.
    + assert (j < k) as Hjk.
      { destruct (decide (j = k)) as [->|]; [congruence|lia]. }
      destruct (Hlast j name' Hjk Hname') as (i & cat' & Hi & Hnamei & Hlater & Hsn & Hcat' & Hkey).
      assert (cat' = cat) as -> by congruence.
      exists i, (<[name := VRef (base + (length (a_recs σ) + k))]> cat).
      split; [lia|]. split; [done|]. split.
      { intros i' Hi'. destruct (decide (i' = k)) as [->|]; [congruence|]. apply Hlater. lia. }
      rewrite lookup_insert_ne by (intros Heq%style_attr_inj; done).
      rewrite lookup_alter_eq, Hcat, lookup_insert_ne by done. done.
Qed.

(** A call that returns has registered every style. *)
Lemma single_spec σ' :
  a_attrs σ !! ln = Some (VRef lc) → is_Some (a_dicts σ !! lc) →
  a_expand base prefix names [(suffix, dict_of)] n σ = (Ok tt, σ') →
  styled n σ'.
Proof.
  intros Hattr Hcat Hrun.
  pose proof (for_range_ind styled (λ _, True) n body σ (styled_0 Hattr Hcat)) as Hind.
  unfold a_expand in Hrun. fold body in Hrun. rewrite Hrun in Hind. apply Hind.
  intros k s Hk Hs. pose proof (styled_step k s) as Hstep.
  destruct (body k s) as [[[]|e] s']; [by apply Hstep|done].
Qed.


(** As long as names and dictionaries can be found, the styles are
    registered. *)
Lemma single_run k :
  k ≤ n →
  a_attrs σ !! ln = Some (VRef lc) → is_Some (a_dicts σ !! lc) →
  (∀ j, j < k → ∃ name d, style_name names j = Ok name ∧ dict_of j = Ok d) →
  ∃ σk, for_range k body σ = (Ok tt, σk) ∧ styled k σk.
Proof.
  intros Hk Hattr Hcat. induction k as [|k IH]; intros Hok.
  - exists σ. split; [done|]. by apply styled_0.
  - destruct IH as (σk & Hrun & Hst); [lia|intros j Hj; apply Hok; lia|].
    destruct (Hok k) as (name & d & Hname & Hd); [lia|].
    destruct (body_ok k σk name d Hname Hd (st_cat_attr _ _ Hst)) as [s' Hs'].
    exists s'. split.
    + rewrite for_range_S. by rewrite (run_bind_ok _ _ _ _ _ Hrun).
    + eapply styled_step; [|done..]. lia.
Qed.

(** A call whose dictionary [k] cannot be built stops there, after it has
    added name [k] to the list of names. *)
Lemma single_fail k name e :
  k < n →
  a_attrs σ !! ln = Some (VRef lc) → is_Some (a_dicts σ !! lc) →
  (∀ j, j < k → ∃ name d, style_name names j = Ok name ∧ dict_of j = Ok d) →
  style_name names k = Ok name → dict_of k = Raise e →
  ∃ σk, a_expand base prefix names [(suffix, dict_of)] k σ = (Ok tt, σk) ∧
    styled k σk ∧
    a_expand base prefix names [(suffix, dict_of)] n σ
      = (Raise e, (a_add_style_name name σk).2).
Proof.
  intros Hk Hattr Hcat Hok Hname Hd.
  destruct (single_run k) as (σk & Hrun & Hst); [lia|done..|].
  exists σk. split; [done|]. split; [done|].
  unfold a_expand, for_range. fold body.
  replace n with (k + S (n - S k)) by lia.
  rewrite seq_app, for_each_app. fold (for_range k body).
  rewrite (run_bind_ok _ _ _ _ _ Hrun). simpl.
  unfold bind at 1. unfold body at 1, a_expand_body.
  rewrite run_bind_lift_ok with (a := name) by done.
  rewrite run_bind_ok with (a := tt) (h' := (a_add_style_name name σk).2) by done.
  simpl. unfold bind, a_new_style. by rewrite Hd.
Qed.
End single.

(** ** The dictionaries allocated by a call *)

Section rows.
Context (base : nat) (prefix : string) (names : arg string) (vs : list variant).

Lemma a_variants_recs name k σ σ' :
  for_each vs (λ v, a_new_style base (prefix +:+ name +:+ v.1)
                      (prefix +:+ v.1) name (v.2 k)) σ = (Ok tt, σ') →
  ∃ ds, Forall2 (λ (v : variant) d, v.2 k = Ok d) vs ds ∧ a_recs σ' = a_recs σ ++ ds.
Proof.
  intros Hrun.
  pose proof (for_each_ind
    (λ pre s, ∃ ds, Forall2 (λ (v : variant) d, v.2 k = Ok d) pre ds ∧
                    a_recs s = a_recs σ ++ ds)
    (λ _, True) vs
    (λ v, a_new_style base (prefix +:+ name +:+ v.1) (prefix +:+ v.1) name (v.2 k)) σ)
    as Hind.
  rewrite Hrun in Hind. apply Hind.
  - exists []. split; [constructor|by rewrite app_nil_r].
  - intros pre v post s _ (ds & Hds & Hrecs). unfold a_new_style.
    destruct (v.2 k) as [d|e] eqn:Hd; [|done].
    destruct (a_attrs s !! (prefix +:+ v.1)) as [[| | | | |lc]|]; try done.
    exists (ds ++ [d]). simpl. split.
    + apply Forall2_app; [done|]. by constructor.
    + by rewrite Hrecs, app_assoc.
Qed.

Lemma a_expand_recs n σ σ' :
  a_expand base prefix names vs n σ = (Ok tt, σ') →
  ∃ rows, length rows = n ∧
    (∀ k row, rows !! k = Some row → Forall2 (λ (v : variant) d, v.2 k = Ok d) vs row) ∧
    a_recs σ' = a_recs σ ++ concat rows.
Proof.
  intros Hrun.
  pose proof (for_range_ind
    (λ k s, ∃ rows, length rows = k ∧
       (∀ j row, rows !! j = Some row →
          Forall2 (λ (v : variant) d, v.2 j = Ok d) vs row) ∧
       a_recs s = a_recs σ ++ concat rows)
    (λ _, True) n (a_expand_body base prefix names vs) σ) as Hind.
  unfold a_expand in Hrun. rewrite Hrun in Hind. apply Hind.
  - exists []. split; [done|]. split; [|by rewrite app_nil_r].
    intros j row Hj. by rewrite lookup_nil in Hj.
  - intros k s Hk (rows & Hlen & Hrows & Hrecs). unfold a_expand_body.
    destruct (style_name names k) as [name|e]; [|done].
    rewrite run_bind_lift_ok with (a := name) by done.
    rewrite run_bind_ok with (a := tt) (h' := (a_add_style_name name s).2) by done.
    destruct (for_each vs _ _) as [[[]|e] s'] eqn:Hinner; [|done].
    apply a_variants_recs in Hinner as (ds & Hds & Hrecs').
    exists (rows ++ [ds]). split; [rewrite length_app; simpl; lia|]. split.
    + intros j row [Hj|[Hj1 Hj2]]%lookup_app_Some; [by apply Hrows|].
      apply list_lookup_singleton_Some in Hj2 as [Hj2 <-].
      assert (j = k) as -> by lia. done.
    + rewrite Hrecs'. simpl. rewrite Hrecs, concat_app. simpl.
      by rewrite app_nil_r, app_assoc.
Qed.
End rows.

Lemma lookup_concat_uniform {A} (rows : list (list A)) (m k j : nat) (row : list A) :
  (∀ i r, rows !! i = Some r → length r = m) →
  rows !! k = Some row → j < m →
  concat rows !! (k * m + j) = row !! j.
Proof.
  revert k. induction rows as [|r rows IH]; intros k Hlen Hk Hj; [done|].
  destruct k as [|k]; simpl in *.
  - simplify_eq. rewrite lookup_app_l; [done|]. by rewrite (Hlen 0 row).
  - rewrite lookup_app_r by (rewrite (Hlen 0 r) by done; lia).
    rewrite (Hlen 0 r) by done.
    replace (m + k * m + j - m) with (k * m + j) by lia.
    apply IH; [|done..]. intros i r' Hi. by apply (Hlen (S i)).
Qed.

Lemma length_concat_uniform {A} (rows : list (list A)) (m : nat) :
  (∀ i r, rows !! i = Some r → length r = m) →
  length (concat rows) = length rows * m.
Proof.
  induction rows as [|r rows IH]; intros Hlen; [done|]. simpl.
  rewrite length_app, (Hlen 0 r) by done. rewrite IH; [lia|].
  intros i r' Hi. by apply (Hlen (S i)).
Qed.

(** ** The entries of the generated dictionaries *)

Lemma py_dict_Ok kw kwargs d :
  py_dict kw kwargs = Ok d →
  d = list_to_map kw ∪ kwargs ∧ ∀ p, p ∈ kw → kwargs !! p.1 = None.
Proof.
  unfold py_dict. destruct (existsb _ kw) eqn:Hex; [done|]. intros [= <-].
  split; [done|]. intros p Hp.
  destruct (kwargs !! p.1) as [v|] eqn:Hv; [|done].
  assert (existsb (λ p, bool_decide (is_Some (kwargs !! p.1))) kw = true); [|congruence].
  apply existsb_exists. exists p. split; [by apply list_elem_of_In|].
  apply bool_decide_eq_true. by rewrite Hv.
Qed.

Lemma py_dict_lookup kw kwargs d key v :
  py_dict kw kwargs = Ok d → NoDup kw.*1 → (key, v) ∈ kw → d !! key = Some v.
Proof.
  intros [-> _]%py_dict_Ok Hnodup Hin.
  apply lookup_union_Some_l. by apply elem_of_list_to_map.
Qed.

Lemma py_dict_lookup_other kw kwargs d key :
  py_dict kw kwargs = Ok d → key ∉ kw.*1 → d !! key = kwargs !! key.
Proof.
  intros [-> _]%py_dict_Ok Hnotin.
  apply lookup_union_r. by apply not_elem_of_list_to_map.
Qed.

(** The keywords of a [dict(...)] call are distinct, and an entry is among
    them. *)
Ltac keywords :=
  first [ apply (bool_decide_unpack _); by vm_compute
        | by repeat constructor ].

Lemma rbind_Ok {A B} (r : result A) (f : A → result B) b :
  rbind r f = Ok b → ∃ a, r = Ok a ∧ f a = Ok b.
Proof. destruct r as [a|e]; [|done]. simpl. eauto. Qed.



(** What the dictionary of point style [k] holds. *)
Definition point_record (colors dashes : arg string) (lws : arg num)
    (markers : list marker) (markersizes markeredgecolors markeredgewidths : arg num)
    (k : nat) (d : gmap string pyval) : Prop :=
  ∃ c ds lw mk ms mc mw symbol size mec,
    pick colors k = Ok c ∧ pick dashes k = Ok ds ∧ pick lws k = Ok lw ∧
    markers !! (if (1 <? length markers)%nat then k else 0) = Some mk ∧
    pick markersizes k = Ok ms ∧ pick markeredgecolors k = Ok mc ∧
    pick markeredgewidths k = Ok mw ∧
    marker_symbol mk = Ok symbol ∧ marker_size mk ms = Ok size ∧
    lighter c mc = Ok mec ∧
    d !! "color" = Some (VStr c) ∧
    d !! "linestyle" = Some (VStr ds) ∧
    d !! "linewidth" = Some (VNum lw) ∧
    d !! "marker" = Some symbol ∧
    d !! "markersize" = Some size ∧
    d !! "markeredgecolor" = Some (VStr mec) ∧
    d !! "markeredgewidth" = Some (VNum mw).

Lemma point_dict_record colors dashes lws markers markersizes markeredgecolors
    markeredgewidths kwargs k d :
  point_dict colors dashes lws markers markersizes markeredgecolors
    markeredgewidths kwargs k = Ok d →
  point_record colors dashes lws markers markersizes markeredgecolors
    markeredgewidths k d.
Proof.
  unfold point_dict.
  intros (c & Hc & (ds & Hds & (lw & Hlw & (mk & Hmk & (ms & Hms & (mc & Hmc &
    (mw & Hmw & (symbol & Hsymbol & (size & Hsize & (mec & Hmec & Hd)%rbind_Ok)%rbind_Ok)
    %rbind_Ok)%rbind_Ok)%rbind_Ok)%rbind_Ok)%rbind_Ok)%rbind_Ok)%rbind_Ok)%rbind_Ok.
  exists c, ds, lw, mk, ms, mc, mw, symbol, size, mec. repeat split; try done.
  - destruct (1 <? length markers)%nat; simpl in Hmk;
      by destruct (markers !! _); simplify_eq.
  - eapply py_dict_lookup; [done|keywords..].
  - eapply py_dict_lookup; [done|keywords..].
  - eapply py_dict_lookup; [done|keywords..].
  - eapply py_dict_lookup; [done|keywords..].
  - eapply py_dict_lookup; [done|keywords..].
  - eapply py_dict_lookup; [done|keywords..].
  - eapply py_dict_lookup; [done|keywords..].
Qed.

(** ** A call on the heap and on its registry *)

Section call.
Context (h : heap) (ns : loc) (attrs : gmap string pyval).
Context (prefix : string) (names : arg string) (vs : list variant) (n : nat).
Let lns : list string := (λ v : variant, prefix +:+ v.1) <$> vs.
Hypothesis Hns : h !! ns = Some (ONamespace attrs).
Hypothesis Hok : registry_ok h ns lns.
Hypothesis Hclash : no_clash prefix names (fst <$> vs) n.

Lemma call_spec :
  ∃ h1 ls attrs1,
    (prepare_style_names ns ;;- for_each lns (prepare_category ns)) h = (Ok tt, h1) ∧
    prepared h ns lns attrs h1 ls attrs1 ∧
    holds h1 (length h1) ns ls lns (AState attrs1 (names0 h ns) (dicts_of h1) []) h1 ∧
    let run := (prepare_style_names ns ;;-
                for_each lns (prepare_category ns) ;;-
                expand ns prefix names vs n) h in
    let arun := a_expand (length h1) prefix names vs n
                  (AState attrs1 (names0 h ns) (dicts_of h1) []) in
    run.1 = arun.1 ∧ holds h1 (length h1) ns ls lns arun.2 run.2.
Proof.
  destruct (prepare_spec h ns lns attrs Hns Hok) as (h1 & ls & attrs1 & Hrun & Hprep & Hholds).
  exists h1, ls, attrs1. split_and!; [done..|]. intros run arun.
  assert (run = expand ns prefix names vs n h1) as ->.
  { unfold run. rewrite <-bind_assoc. by rewrite (run_bind_ok _ _ _ _ _ Hrun). }
  by apply (refines_expand h1 (length h1) ns ls lns prefix names vs n).
Qed.

Lemma call_ok h' :
  (prepare_style_names ns ;;-
   for_each lns (prepare_category ns) ;;-
   expand ns prefix names vs n) h = (Ok tt, h') →
  ∃ h1 ls attrs1 σ',
    (prepare_style_names ns ;;- for_each lns (prepare_category ns)) h = (Ok tt, h1) ∧
    prepared h ns lns attrs h1 ls attrs1 ∧
    holds h1 (length h1) ns ls lns (AState attrs1 (names0 h ns) (dicts_of h1) []) h1 ∧
    a_expand (length h1) prefix names vs n
      (AState attrs1 (names0 h ns) (dicts_of h1) []) = (Ok tt, σ') ∧
    holds h1 (length h1) ns ls lns σ' h'.
Proof.
  intros Hrun.
  destruct call_spec as (h1 & ls & attrs1 & Hprun & Hprep & Hholds & Hres & Hh).
  exists h1, ls, attrs1. rewrite Hrun in Hres, Hh. simpl in *.
  destruct (a_expand _ _ _ _ _ _) as [r σ']. simpl in *. subst r.
  by exists σ'.
Qed.
End call.

(** ** Establishing the hypotheses *)

Lemma no_clashb_correct prefix names suffixes n :
  no_clashb prefix names suffixes n = true → no_clash prefix names suffixes n.
Proof.
  unfold no_clashb. rewrite forallb_forall.
  intros Hall k name suffix Hk Hname Hsuffix.
  specialize (Hall k). rewrite Hname in Hall.
  assert (In k (seq 0 n)) as Hin by (apply in_seq; lia).
  specialize (Hall Hin). rewrite forallb_forall in Hall.
  specialize (Hall suffix (proj1 (list_elem_of_In _ _) Hsuffix)).
  apply andb_true_iff in Hall as [H1 H2]. split.
  - apply negb_true_iff, String.eqb_neq in H1. done.
  - intros suffix' Hsuffix'. rewrite forallb_forall in H2.
    specialize (H2 suffix' (proj1 (list_elem_of_In _ _) Hsuffix')).
    by apply negb_true_iff, String.eqb_neq in H2.
Qed.

(** A namespace without attributes can take the styles of any call. *)
Lemma registry_ok_fresh h ns lns :
  h !! ns = Some (ONamespace ∅) → "style_names" ∉ lns → registry_ok h ns lns.
Proof.
  intros Hns Hnotin. split; [done|]. exists ∅. split; [done|].
  split; [intros v|intros ln v _]; by rewrite lookup_empty.
Qed.

(** ** The broadcasting law *)

(** The namespace can take the styles of the call, and none of them is
    named like a category of the call or like [style_names]. *)
Definition call_ready (h : heap) (ns : loc) (c : call) : Prop :=
  registry_ok h ns (call_categories c) ∧
  no_clash (call_prefix c) (call_names c) (call_suffixes c) (call_count c).


(** ** The list of names *)

Lemma name_in_app xs ys name : name_in (xs ++ ys) name = name_in xs name || name_in ys name.
Proof. unfold name_in. apply existsb_app. Qed.

Lemma name_in_add_name xs name : name_in (add_name xs name) name = true.
Proof.
  unfold add_name. destruct (name_in xs name) eqn:Hin; [done|].
  rewrite name_in_app. simpl. by rewrite String.eqb_refl, orb_true_r.
Qed.

Lemma add_name_idemp xs name : add_name (add_name xs name) name = add_name xs name.
Proof. unfold add_name at 1. by rewrite name_in_add_name. Qed.

Lemma add_name_prefix xs name : xs `prefix_of` add_name xs name.
Proof. unfold add_name. destruct (name_in xs name); [done|]. by apply prefix_app_r. Qed.

Lemma foldl_add_name_prefix xs names : xs `prefix_of` foldl add_name xs names.
Proof.
  revert xs. induction names as [|name names IH]; intros xs; [done|]. simpl.
  etrans; [apply add_name_prefix|apply IH].
Qed.

Lemma foldl_add_name_replicate xs name n :
  foldl add_name xs (replicate (S n) name) = add_name xs name.
Proof.
  revert xs. induction n as [|n IH]; intros xs; [done|].
  change (foldl add_name (add_name xs name) (replicate (S n) name) = add_name xs name).
  by rewrite IH, add_name_idemp.
Qed.

Lemma name_in_foldl_add_name xs names name :
  name ∈ names → name_in (foldl add_name xs names) name = true.
Proof.
  revert xs. induction names as [|name' names IH]; intros xs Hin.
  - by apply elem_of_nil in Hin.
  - simpl. apply elem_of_cons in Hin as [->|Hin]; [|by apply IH].
    destruct (foldl_add_name_prefix (add_name xs name') names) as [rest ->].
    by rewrite name_in_app, name_in_add_name.
Qed.

(** A name without a placeholder is the name of every style. *)
Lemma style_name_scalar s k : has_percent s = false → style_name (Scalar s) k = Ok s.
Proof. intros Hs. simpl. by rewrite Hs. Qed.

Lemma names_of_scalar s n : has_percent s = false → names_of (Scalar s) n = replicate n s.
Proof.
  intros Hs. induction n as [|n IH]; [done|].
  rewrite names_of_S, IH, style_name_scalar by done.
  clear. induction n as [|n IH]; [done|]. simpl. by rewrite IH.
Qed.

(** ** Line and point styles on the heap *)

Section single_call.
Context (h : heap) (namespace : option loc).
Context (prefix : string) (names : arg string) (suffix : string).
Context (dict_of : nat → result (gmap string pyval)) (n : nat).

Let ns : loc := default main_module namespace.
Let ln : string := prefix +:+ suffix.

Hypothesis Hok : registry_ok h ns [ln].
Hypothesis Hclash : no_clash prefix names [suffix] n.

Lemma single_clash k name :
  k < n → style_name names k = Ok name → prefix +:+ name +:+ suffix ≠ ln.
Proof.
  intros Hk Hname. destruct (Hclash k name suffix Hk Hname) as [_ Hne]; [by left|].
  apply Hne. by left.
Qed.

(** A call that returns: the heap after the preparation steps, and the
    registry the final heap holds. *)
Lemma single_call_ok h' :
  (prepare_style_names ns ;;-
   for_each [ln] (prepare_category ns) ;;-
   expand ns prefix names [(suffix, dict_of)] n) h = (Ok tt, h') →
  ∃ attrs h1 ls attrs1 lc σ',
    h !! ns = Some (ONamespace attrs) ∧
    (prepare_style_names ns ;;- for_each [ln] (prepare_category ns)) h = (Ok tt, h1) ∧
    prepared h ns [ln] attrs h1 ls attrs1 ∧
    attrs1 !! ln = Some (VRef lc) ∧
    h1 !! lc = Some (ODict (cat0 h ns ln)) ∧
    holds h1 (length h1) ns ls [ln] σ' h' ∧
    styled (length h1) prefix names suffix dict_of
      (AState attrs1 (names0 h ns) (dicts_of h1) []) lc n σ' ∧
    grows prefix [suffix] (names_of names n)
      (AState attrs1 (names0 h ns) (dicts_of h1) []) σ' ∧
    length (names_of names n) = n.
Proof.
  intros Hrun. destruct Hok as (Hnotin & attrs & Hns & Hrest).
  destruct (call_ok h ns attrs prefix names [(suffix, dict_of)] n Hns Hok Hclash h' Hrun)
    as (h1 & ls & attrs1 & σ' & Hprun & Hprep & Hholds1 & Harun & Hholds).
  destruct (proj2 Hholds1 ln) as (lc & Hattr & Hcat); [by left|]. simpl in Hattr, Hcat.
  exists attrs, h1, ls, attrs1, lc, σ'. split_and!; try done.
  - destruct (pr_cats _ _ _ _ _ _ _ Hprep ln (VRef lc)) as (lc' & Heq & Hlc); [by left|done|].
    by simplify_eq.
  - by apply (single_spec _ _ _ _ _ _ _ n single_clash).
  - pose proof (a_expand_grows (length h1) prefix names [(suffix, dict_of)] n
                  (AState attrs1 (names0 h ns) (dicts_of h1) [])) as Hg.
    rewrite Harun in Hg. apply Hg.
  - pose proof (a_expand_grows (length h1) prefix names [(suffix, dict_of)] n
                  (AState attrs1 (names0 h ns) (dicts_of h1) [])) as Hg.
    rewrite Harun in Hg. apply Hg.
Qed.

(** The styles generated by a call that returns are the [n] dictionaries
    at the end of the heap. *)
Lemma single_call_records h' :
  (prepare_style_names ns ;;-
   for_each [ln] (prepare_category ns) ;;-
   expand ns prefix names [(suffix, dict_of)] n) h = (Ok tt, h') →
  ∃ h1,
    (prepare_style_names ns ;;- for_each [ln] (prepare_category ns)) h = (Ok tt, h1) ∧
    length h' = length h1 + n ∧
    ∀ k, k < n → ∃ d, dict_of k = Ok d ∧ h' !! (length h1 + k) = Some (ODict d).
Proof.
  intros Hrun.
  destruct (single_call_ok h' Hrun)
    as (attrs & h1 & ls & attrs1 & lc & σ' & Hns & Hprun & Hprep & Hattr & Hlc & Hholds & Hst & Hg & Hlen).
  exists h1. split; [done|]. split.
  - rewrite (holds_length _ _ _ _ _ _ _ Hholds). by rewrite (st_len _ _ _ _ _ _ _ _ _ Hst).
  - intros k Hk. destruct (st_recs _ _ _ _ _ _ _ _ _ Hst k Hk) as (d & Hd & Hrec).
    exists d. split; [done|]. simpl in Hrec.
    apply (rep_recs _ _ _ _ _ _ (proj1 Hholds) _ _ Hrec).
Qed.
End single_call.

(** ** Fill styles on the heap *)

Section multi_call.
Context (h : heap) (namespace : option loc).
Context (prefix : string) (names : arg string) (vs : list variant) (n : nat).

Let ns : loc := default main_module namespace.
Let lns : list string := (λ v : variant, prefix +:+ v.1) <$> vs.

Hypothesis Hok : registry_ok h ns lns.
Hypothesis Hclash : no_clash prefix names (fst <$> vs) n.

(** The styles generated by a call that returns are the [n * length vs]
    dictionaries at the end of the heap, one row per name. *)
Lemma multi_call_records h' :
  (prepare_style_names ns ;;-
   for_each lns (prepare_category ns) ;;-
   expand ns prefix names vs n) h = (Ok tt, h') →
  ∃ h1,
    (prepare_style_names ns ;;- for_each lns (prepare_category ns)) h = (Ok tt, h1) ∧
    length h' = length h1 + n * length vs ∧
    ∀ k i v, k < n → vs !! i = Some v →
      ∃ d, v.2 k = Ok d ∧ h' !! (length h1 + (k * length vs + i)) = Some (ODict d).
Proof.
  intros Hrun. destruct Hok as (Hnotin & attrs & Hns & Hrest).
  destruct (call_ok h ns attrs prefix names vs n Hns Hok Hclash h' Hrun)
    as (h1 & ls & attrs1 & σ' & Hprun & Hprep & Hholds1 & Harun & Hholds).
  apply a_expand_recs in Harun as (rows & Hlen & Hrows & Hrecs). simpl in Hrecs.
  assert (∀ i r, rows !! i = Some r → length r = length vs) as Huni.
  { intros i r Hi. symmetry. eapply Forall2_length, Hrows, Hi. }
  exists h1. split; [done|]. split.
  - rewrite (holds_length _ _ _ _ _ _ _ Hholds), Hrecs.
    by rewrite (length_concat_uniform rows (length vs)), Hlen.
  - intros k i v Hk Hi.
    destruct (lookup_lt_is_Some_2 rows k) as [row Hrow]; [lia|].
    destruct (Forall2_lookup_l _ _ _ _ _ (Hrows k row Hrow) Hi) as (d & Hd & Hvd).
    exists d. split; [done|].
    apply (rep_recs _ _ _ _ _ _ (proj1 Hholds)). rewrite Hrecs.
    rewrite (lookup_concat_uniform rows (length vs) k i row); [done..|].
    by eapply lookup_lt_Some.
Qed.
End multi_call.

(** The variants of a fill style call. *)

Lemma fill_variants_go (f : nat → nat → result (gmap string pyval))
    (suffixes : list (option string)) (i : nat) :
  fst <$> omap (λ js : nat * option string,
                  match js.2 with
                  | Some suffix => Some (suffix, f js.1)
                  | None => None
                  end) (zip (seq i (length suffixes)) suffixes)
  = omap id suffixes.
Proof.
  revert i. induction suffixes as [|[s|] suffixes IH]; intros i; simpl; [done| |].
  - f_equal. apply IH.
  - apply IH.
Qed.

Lemma fill_variants_fst suffixes colors edgecolors edgewidths fillalphas kwargs :
  fst <$> fill_variants suffixes colors edgecolors edgewidths fillalphas kwargs
  = omap id suffixes.
Proof. apply fill_variants_go. Qed.

Lemma fill_categories_variants prefix suffixes colors edgecolors edgewidths fillalphas kwargs :
  fill_categories prefix suffixes =
  (λ v : variant, prefix +:+ v.1)
    <$> fill_variants suffixes colors edgecolors edgewidths fillalphas kwargs.
Proof.
  transitivity ((λ s : string, prefix +:+ s) <$> omap id suffixes).
  - unfold fill_categories. induction suffixes as [|[s|] suffixes IH]; [done| |done].
    simpl. f_equal. apply IH.
  - rewrite <-(fill_variants_fst suffixes colors edgecolors edgewidths fillalphas kwargs).
    by rewrite <-list_fmap_compose.
Qed.

Lemma elem_of_fill_variants suffixes colors edgecolors edgewidths fillalphas kwargs v :
  v ∈ fill_variants suffixes colors edgecolors edgewidths fillalphas kwargs →
  ∃ j, suffixes !! j = Some (Some v.1) ∧
       v.2 = fill_dict_at colors edgecolors edgewidths fillalphas kwargs j.
Proof.
  unfold fill_variants, enumerate.
  intros ([j s] & Hjs & Hv)%list_elem_of_omap. simpl in Hv.
  apply list_elem_of_lookup in Hjs as [i Hi].
  apply lookup_zip_with_Some in Hi as (j' & s' & [= <- <-] & Hj & Hs).
  apply lookup_seq in Hj as [-> _].
  destruct s as [suffix|]; [|done]. injection Hv as <-. by exists i.
Qed.

Lemma fill_dict_at_Ok colors edgecolors edgewidths fillalphas kwargs j k d :
  fill_dict_at colors edgecolors edgewidths fillalphas kwargs j k = Ok d →
  ∃ c ec ew fa,
    pick colors k = Ok c ∧ pick edgecolors k = Ok ec ∧ pick edgewidths k = Ok ew ∧
    pick fillalphas k = Ok fa ∧ fill_dict j c ec ew fa kwargs = Ok d.
Proof.
  unfold fill_dict_at.
  intros (c & Hc & (ec & Hec & (ew & Hew & (fa & Hfa & Hd)%rbind_Ok)%rbind_Ok)%rbind_Ok)
    %rbind_Ok.
  by exists c, ec, ew, fa.
Qed.

(** The entries of the three kinds of fill dictionaries: all entries but
    [edgecolor], [linewidth] and [alpha] are those of
    [dict(facecolor=c, **kwargs)]. *)
Lemma fill_dict_entries j c ec ew fa kwargs d :
  fill_dict j c ec ew fa kwargs = Ok d →
  d !! "facecolor" = Some (VStr c) ∧
  (∀ key, key ≠ "facecolor" → key ≠ "edgecolor" → key ≠ "linewidth" → key ≠ "alpha" →
          d !! key = kwargs !! key) ∧
  match j with
  | 0 => ∃ edge, lighter c ec = Ok edge ∧
                 d !! "edgecolor" = Some (VStr edge) ∧ d !! "linewidth" = Some (VNum ew)
  | 1 => d !! "edgecolor" = Some (VStr "none")
  | 2 => d !! "edgecolor" = Some (VStr "none") ∧ d !! "alpha" = Some (VNum fa)
  | _ => True
  end.
Proof.
  unfold fill_dict. destruct (py_dict _ kwargs) as [fd|e] eqn:Hfd; [|done].
  assert (fd !! "facecolor" = Some (VStr c)) as Hface
    by (eapply py_dict_lookup; [done|keywords..]).
  assert (∀ key, key ≠ "facecolor" → fd !! key = kwargs !! key) as Hother.
  { intros key Hkey. eapply py_dict_lookup_other; [done|].
    by intros ?%list_elem_of_singleton. }
  destruct j as [|[|[|j]]].
  - destruct (lighter c ec) as [edge|e]; [|done]. intros [= <-]. simpl.
    split_and!.
    + by rewrite !lookup_insert_ne.
    + intros key ? ? ? ?. rewrite !lookup_insert_ne by done. by apply Hother.
    + exists edge. split; [done|]. split; [|by rewrite lookup_insert_eq].
      rewrite lookup_insert_ne by done. by rewrite lookup_insert_eq.
  - intros [= <-]. simpl. split_and!.
    + by rewrite !lookup_insert_ne.
    + intros key ? ? ? ?. rewrite !lookup_insert_ne by done. by apply Hother.
    + by rewrite lookup_insert_eq.
  - intros [= <-]. simpl. split_and!.
    + by rewrite !lookup_insert_ne.
    + intros key ? ? ? ?. rewrite !lookup_insert_ne by done. by apply Hother.
    + rewrite lookup_insert_ne by done. by rewrite lookup_insert_eq.
    + by rewrite lookup_insert_eq.
  - intros [= <-]. split_and!; [done| |done]. intros key ? ? ? ?. by apply Hother.
Qed.

(** ** The number of styles *)

Lemma fold_count_step xs n :
  fold_left count_step xs n = n `max` max_list (omap id xs).
Proof.
  revert n. induction xs as [|[m|] xs IH]; intros n.
  - simpl. lia.
  - change (fold_left count_step xs (if (n <? m)%nat then m else n) =
            n `max` (m `max` max_list (omap id xs))).
    rewrite IH. destruct (n <? m)%nat eqn:Hlt;
      [apply Nat.ltb_lt in Hlt|apply Nat.ltb_ge in Hlt]; lia.
  - apply IH.
Qed.

Lemma style_count_max xs : style_count xs = 1 `max` max_list (omap id xs).
Proof. apply fold_count_step. Qed.

(** There is at least one style. *)
Lemma style_count_pos xs : 0 < style_count xs.
Proof. rewrite style_count_max. lia. Qed.


(** X16: with a tuple or list [markers] that holds a single marker
    [(symbol, factor)], as [plot_styles] passes it, every one of the [n]
    generated dictionaries, whatever [n] is, has the symbol as its marker
    and the factor times marker size [k] as its marker size. *)
Lemma single_marker_for_all (prefix : string) (names : arg string) (suffix : string)
    (colors dashes : arg string) (lws : arg num) (symbol : pyval) (factor : num)
    (markersizes markeredgecolors markeredgewidths : arg num)
    (namespace : option loc) (kwargs : gmap string pyval) (h h' : heap) :
  let ns := default main_module namespace in
  let c := PointStyles prefix names suffix colors dashes lws [MPair symbol factor]
             markersizes markeredgecolors markeredgewidths kwargs in
  let n := call_count c in
  call_ready h ns c →
  make_pointstyles prefix names suffix colors dashes lws [MPair symbol factor] markersizes
    markeredgecolors markeredgewidths namespace kwargs h = (Ok tt, h') →
  ∃ h1, prepare_registry ns [prefix +:+ suffix] h = (Ok tt, h1) ∧
    length h' = length h1 + n ∧
    ∀ k, k < n →
      ∃ d ms, h' !! (length h1 + k) = Some (ODict d) ∧
        pick markersizes k = Ok ms ∧
        d !! "marker" = Some symbol ∧
        d !! "markersize" = Some (VNum (num_mul factor ms)).
Proof.
  intros ns c n [Hok Hclash] Hrun.
  rewrite make_pointstyles_expand in Hrun.
  destruct (single_call_records h namespace prefix names suffix _ _ Hok Hclash h' Hrun)
    as (h1 & Hprep & Hlen & Hrecs).
  exists h1. split; [done|]. split; [done|].
  intros k Hk. destruct (Hrecs k Hk) as (d & Hd & Hlook).
  apply point_dict_record in Hd
    as (c' & ds & lw & mk' & ms & mc & mw & symbol' & size & mec & _ & _ & _ & Hmk & Hms
        & _ & _ & Hsymbol & Hsize & _ & _ & _ & _ & Hmarker & Hmarkersize & _).
  simpl in Hmk. injection Hmk as <-. simpl in Hsymbol, Hsize.
  injection Hsymbol as <-. injection Hsize as <-. by exists d, ms.
Qed.

(** *** A single marker that is not in a tuple or list

    The default [markers=('o', 1.0)] and the examples of the docstring pass
    the pair itself.  Its length is 2, so that two styles are counted and
    style 0 takes element 0, the symbol, as its marker. *)

Definition raises {A} (m : M heap A) : Prop :=
  ∀ h, ∃ e h', m h = (Raise e, h').

Lemma raises_bind {A B} (m : M heap A) (f : A → M heap B) :
  (∀ a, raises (f a)) → raises (bind m f).
Proof.
  intros Hf h. unfold bind. destruct (m h) as [[a|e] h1]; [apply Hf|by eexists _, _].
Qed.

Lemma raises_bind_l {A B} (m : M heap A) (f : A → M heap B) :
  raises m → raises (bind m f).
Proof. intros Hm h. unfold bind. destruct (Hm h) as (e & h' & ->). by eexists _, _. Qed.

Lemma raises_bind_lift {A B} (r : result A) (f : A → M heap B) :
  (∀ a, r = Ok a → raises (f a)) → raises (bind (lift r) f).
Proof.
  intros Hf h. unfold bind, lift. destruct r as [a|e]; [by apply Hf|by eexists _, _].
Qed.

(** Whatever the other arguments are, a call whose [markers] is the pair of
    a one-character symbol and a factor raises an exception: when it gets
    as far as the first dictionary, [mk] is the symbol and [mk[1]] is out of
    range. *)
Lemma bare_pair_raises (prefix : string) (names : arg string) (suffix : string)
    (colors dashes : arg string) (lws : arg num) (symbol : ascii) (factor : num)
    (markersizes markeredgecolors markeredgewidths : arg num)
    (namespace : option loc) (kwargs : gmap string pyval) :
  raises (make_pointstyles prefix names suffix colors dashes lws
            [MStr (String symbol EmptyString); MNum factor]
            markersizes markeredgecolors markeredgewidths namespace kwargs).
Proof.
  unfold make_pointstyles. do 2 (apply raises_bind; intros _).
  set (n := style_count _).
  assert (∃ n', n = S n') as [n' ->].
  { pose proof (style_count_pos
      [seq_len names; seq_len colors; seq_len dashes; seq_len lws; Some 2;
       seq_len markersizes; seq_len markeredgecolors; seq_len markeredgewidths]).
    exists (pred n). unfold n. simpl length. lia. }
  unfold for_range. simpl. apply raises_bind_l.
  apply raises_bind; intros name. apply raises_bind; intros _.
  do 3 (apply raises_bind; intros ?).
  apply raises_bind_lift. intros mk [= <-].
  do 3 (apply raises_bind; intros ?).
  apply raises_bind_lift. intros sym _.
  apply raises_bind_lift. intros size Hsize. done.
Qed.

(** C2 does not hold in the code for a single marker pair that is passed as
    it is, which is what the default [markers=('o', 1.0)] and the docstring
    do: [make_pointstyles('ps', 'Female', '', 'red', '-', lw, ('o', f), ms,
    mc, mw, **kwargs)], the example of the docstring, counts two styles
    where one marker pair and scalars were supplied, and for style 0 it
    raises [IndexError] at [mk[1]] with [mk = 'o'], after ['Female'] has
    been appended to [style_names]; no dictionary [psFemale] is generated,
    where C2 and the docstring have one with marker ['o'] and marker size
    [f * ms]. *)
Theorem bare_pair_marker_fails (f lw ms mc mw : num) (kwargs : gmap string pyval) :
  let markers := [MStr "o"; MNum f] in
  style_count [seq_len (Scalar "Female"); seq_len (Scalar "red"); seq_len (Scalar "-");
               seq_len (Scalar lw); Some (length markers); seq_len (Scalar ms);
               seq_len (Scalar mc); seq_len (Scalar mw)] = 2 ∧
  make_pointstyles "ps" (Scalar "Female") "" (Scalar "red") (Scalar "-") (Scalar lw)
    markers (Scalar ms) (Scalar mc) (Scalar mw) (Some 0) kwargs [ONamespace ∅]
  = (Raise IndexError,
     [ONamespace (<["ps" := VRef 2]> (<["style_names" := VRef 1]> ∅));
      OList [VStr "Female"];
      ODict ∅]).
Proof. split; reflexivity. Qed.

(** C9: when [make_linestyles] is given a single name without a
    placeholder, the [n] dictionaries it generates are all registered under
    that name: after the call the name is in [style_names] once (appended if
    it was not there), and the attribute and the entry of the category
    mapping both refer to the dictionary of the last style, the one built
    from index [n - 1]. *)
Theorem scalar_name_last_wins (prefix s suffix : string)
    (colors dashes : arg string) (lws : arg num)
    (namespace : option loc) (kwargs : gmap string pyval) (h h' : heap) :
  let ns := default main_module namespace in
  let c := LineStyles prefix (Scalar s) suffix colors dashes lws kwargs in
  let n := call_count c in
  has_percent s = false →
  call_ready h ns c →
  make_linestyles prefix (Scalar s) suffix colors dashes lws namespace kwargs h
    = (Ok tt, h') →
  ∃ h1 d cat,
    prepare_registry ns [prefix +:+ suffix] h = (Ok tt, h1) ∧
    length h' = length h1 + n ∧
    line_dict colors dashes lws kwargs (n - 1) = Ok d ∧
    h' !! (length h1 + (n - 1)) = Some (ODict d) ∧
    attr_of h' ns (prefix +:+ s +:+ suffix) = Some (VRef (length h1 + (n - 1))) ∧
    category_of h' ns (prefix +:+ suffix) = Some cat ∧
    cat !! s = Some (VRef (length h1 + (n - 1))) ∧
    style_names_of h' ns = Some (add_name (names0 h ns) s) ∧
    (style_names_of h ns = None → style_names_of h' ns = Some [VStr s]).
Proof.
  intros ns c n Hs [Hok Hclash] Hrun.
  rewrite make_linestyles_expand in Hrun.
  destruct (single_call_ok h namespace prefix (Scalar s) suffix _ _ Hok Hclash h' Hrun)
    as (attrs & h1 & ls & attrs1 & lc & σ' & Hns & Hprun & Hprep & Hattr & Hlc & Hholds
        & Hst & Hg & Hlen).
  pose proof (style_count_pos (call_lengths c)) as Hpos. fold (call_count c) in Hpos.
  fold n in Hpos.
  destruct (st_recs _ _ _ _ _ _ _ _ _ Hst (n - 1)) as (d & Hd & Hrec); [simpl in *; lia|].
  destruct (st_last _ _ _ _ _ _ _ _ _ Hst (n - 1) s) as (i & cat & Hi & _ & _ & Hsn & Hcat & Hkey);
    [simpl in *; lia|by apply style_name_scalar|].
  simpl in Hrec, Hsn, Hkey.
  assert (i = n - 1) as -> by (simpl in *; lia).
  rewrite Nat.add_0_r in Hsn, Hkey.
  assert (style_names_of h' ns = Some (add_name (names0 h ns) s)) as Hnames.
  { unfold ns. rewrite (holds_style_names _ _ _ _ _ _ _ Hholds).
    rewrite (g_names _ _ _ _ _ Hg). simpl.
    rewrite names_of_scalar by done. fold n.
    destruct n as [|n']; [lia|]. by rewrite foldl_add_name_replicate. }
  exists h1, d, cat. split_and!; try done.
  - rewrite (holds_length _ _ _ _ _ _ _ Hholds).
    rewrite (st_len _ _ _ _ _ _ _ _ _ Hst). done.
  - apply (rep_recs _ _ _ _ _ _ (proj1 Hholds) _ _ Hrec).
  - unfold ns. by rewrite (holds_attr _ _ _ _ _ _ _ Hholds).
  - eapply (holds_category _ _ _ _ _ _ _ Hholds); [|done].
    apply (st_cat_attr _ _ _ _ _ _ _ _ _ Hst).
  - intros Hnone. rewrite Hnames. unfold names0. by rewrite Hnone.
Qed.

(** An argument that is a sequence without element [k]. *)
Definition too_short {A} (x : arg A) (k : nat) : Prop :=
  ∃ xs, x = Seq xs ∧ length xs ≤ k.

Lemma pick_too_short {A} (x : arg A) k : too_short x k → pick x k = Raise IndexError.
Proof.
  intros (xs & -> & Hlen). simpl. by rewrite lookup_ge_None_2.
Qed.

Lemma pick_cases {A} (x : arg A) k : (∃ a, pick x k = Ok a) ∨ pick x k = Raise IndexError.
Proof.
  destruct x as [a|xs]; simpl; [by eauto|]. destruct (xs !! k); eauto.
Qed.

(** The first access to a missing element raises [IndexError]. *)
Lemma line_dict_too_short colors dashes lws kwargs k :
  too_short colors k ∨ too_short dashes k ∨ too_short lws k →
  line_dict colors dashes lws kwargs k = Raise IndexError.
Proof.
  intros Hshort. unfold line_dict.
  destruct (pick_cases colors k) as [[c Hc]|Hc]; rewrite Hc; [|done]. simpl.
  destruct (pick_cases dashes k) as [[ds Hds]|Hds]; rewrite Hds; [|done]. simpl.
  destruct (pick_cases lws k) as [[lw Hlw]|Hlw]; rewrite Hlw; [|done].
  destruct Hshort as [H|[H|H]]; apply pick_too_short in H; congruence.
Qed.

(** C8: when [make_linestyles] finds the names and builds the dictionaries
    of the styles before [k], and an argument is a sequence too short to
    have an element [k], the call raises [IndexError] at style [k], not
    before; the heap it leaves holds the [k] dictionaries of the earlier
    styles, registered as attributes and in the category mapping, and the
    names up to [k] in [style_names]; nothing that was in the namespace
    before the call has been removed. *)
Theorem no_rollback (prefix : string) (names : arg string) (suffix : string)
    (colors dashes : arg string) (lws : arg num)
    (namespace : option loc) (kwargs : gmap string pyval) (h : heap) (k : nat)
    (name : string) :
  let ns := default main_module namespace in
  let c := LineStyles prefix names suffix colors dashes lws kwargs in
  let ln := prefix +:+ suffix in
  call_ready h ns c →
  k < call_count c →
  (∀ j, j < k → ∃ nm d, style_name names j = Ok nm ∧
                        line_dict colors dashes lws kwargs j = Ok d) →
  style_name names k = Ok name →
  too_short colors k ∨ too_short dashes k ∨ too_short lws k →
  ∃ h1 h' cat,
    prepare_registry ns [ln] h = (Ok tt, h1) ∧
    make_linestyles prefix names suffix colors dashes lws namespace kwargs h
      = (Raise IndexError, h') ∧
    length h' = length h1 + k ∧
    (∀ j, j < k → ∃ d, line_dict colors dashes lws kwargs j = Ok d ∧
                       h' !! (length h1 + j) = Some (ODict d)) ∧
    style_names_of h' ns = Some (foldl add_name (names0 h ns) (names_of names (S k))) ∧
    category_of h' ns ln = Some cat ∧
    (∀ j nm, j < k → style_name names j = Ok nm →
       ∃ i, j ≤ i < k ∧ style_name names i = Ok nm ∧
            attr_of h' ns (prefix +:+ nm +:+ suffix) = Some (VRef (length h1 + i)) ∧
            cat !! nm = Some (VRef (length h1 + i))) ∧
    (∀ a, is_Some (attr_of h ns a) → is_Some (attr_of h' ns a)) ∧
    names0 h ns `prefix_of` foldl add_name (names0 h ns) (names_of names (S k)) ∧
    (∀ key, is_Some (cat0 h ns ln !! key) → is_Some (cat !! key)).
Proof.
  intros ns c ln [Hok Hclash] Hk Hbefore Hname Hshort. subst ns.
  set (ns := default main_module namespace) in *.
  apply line_dict_too_short with (kwargs := kwargs) in Hshort.
  pose proof Hok as (Hnotin & attrs & Hns & _).
  destruct (call_spec h ns attrs prefix names [(suffix, line_dict colors dashes lws kwargs)]
              (call_count c) Hns Hok Hclash)
    as (h1 & ls & attrs1 & Hprun & Hprep & Hholds1 & Hres & Hholds).
  destruct (make_linestyles prefix names suffix colors dashes lws namespace kwargs h)
    as [r h'] eqn:Hrun.
  rewrite make_linestyles_expand in Hrun. fold ns in Hrun.
  change (style_count _) with (call_count c) in Hrun.
  simpl in Hres, Hholds, Hrun. rewrite Hrun in Hres, Hholds.
  destruct (proj2 Hholds1 ln) as (lc & Hattr & Hcat); [by left|]. simpl in Hattr, Hcat.
  destruct (single_fail (length h1) prefix names suffix
              (line_dict colors dashes lws kwargs)
              (AState attrs1 (names0 h ns) (dicts_of h1) []) lc (call_count c)
              (single_clash prefix names suffix (call_count c) Hclash)
              k name IndexError Hk Hattr Hcat Hbefore Hname Hshort)
    as (σk & Hrunk & Hst & Harun).
  rewrite Harun in Hres, Hholds. simpl in Hres, Hholds. subst r.
  pose proof (a_expand_grows (length h1) prefix names
                [(suffix, line_dict colors dashes lws kwargs)] k
                (AState attrs1 (names0 h ns) (dicts_of h1) [])) as Hg.
  rewrite Hrunk in Hg. destruct Hg as [Hg Hlen].
  destruct (st_cat _ _ _ _ _ _ _ _ _ Hst) as [cat Hcat'].
  exists h1, h', cat. split_and!.
  - done.
  - done.
  - rewrite (holds_length _ _ _ _ _ _ _ Hholds). simpl.
    by rewrite (st_len _ _ _ _ _ _ _ _ _ Hst).
  - intros j Hj. destruct (st_recs _ _ _ _ _ _ _ _ _ Hst j Hj) as (d & Hd & Hrec).
    exists d. split; [done|]. apply (rep_recs _ _ _ _ _ _ (proj1 Hholds)). done.
  - rewrite (holds_style_names _ _ _ _ _ _ _ Hholds). simpl.
    rewrite (g_names _ _ _ _ _ Hg). simpl.
    by rewrite names_of_S, Hname, foldl_app.
  - eapply (holds_category _ _ _ _ _ _ _ Hholds); simpl; [|done].
    apply (st_cat_attr _ _ _ _ _ _ _ _ _ Hst).
  - intros j nm Hj Hnm.
    destruct (st_last _ _ _ _ _ _ _ _ _ Hst j nm Hj Hnm)
      as (i & cat' & Hi & Hnmi & _ & Hsn & Hcat'' & Hkey).
    assert (cat' = cat) as -> by congruence. simpl in Hsn, Hkey.
    rewrite Nat.add_0_r in Hsn, Hkey.
    exists i. split_and!; try done; try lia.
    by rewrite (holds_attr _ _ _ _ _ _ _ Hholds).
  - intros a Ha. rewrite (holds_attr _ _ _ _ _ _ _ Hholds). simpl.
    apply (g_attrs_mono _ _ _ _ _ Hg). simpl.
    unfold attr_of in Ha. rewrite Hns in Ha. destruct Ha as [v Hv].
    rewrite (pr_attrs_old _ _ _ _ _ _ _ Hprep a v Hv). by eexists.
  - apply foldl_add_name_prefix.
  - intros key Hkey. pose proof (g_dicts _ _ _ _ _ Hg lc) as Hd. simpl in Hd.
    rewrite Hcat' in Hd.
    destruct (pr_cats _ _ _ _ _ _ _ Hprep ln (VRef lc)) as (lc' & Heq & Hlc); [by left|done|].
    injection Heq as <-. apply lookup_dicts_of_Some in Hlc. rewrite Hlc in Hd.
    by apply Hd.
Qed.

(** ** The three fill styles of a name *)

Lemma bind_Ok_inv {St A B} (m : M St A) (f : A → M St B) s b s' :
  bind m f s = (Ok b, s') → ∃ a s1, m s = (Ok a, s1) ∧ f a s1 = (Ok b, s').
Proof.
  unfold bind. destruct (m s) as [[a|e] s1]; [|done]. intros Hf. by exists a, s1.
Qed.

Lemma a_new_style_inv base sn ln name d σ σ' :
  a_new_style base sn ln name d σ = (Ok tt, σ') →
  ∃ d' lc, d = Ok d' ∧ a_attrs σ !! ln = Some (VRef lc) ∧
    σ' = AState (<[sn := VRef (base + length (a_recs σ))]> (a_attrs σ)) (a_names σ)
           (alter (insert name (VRef (base + length (a_recs σ)))) lc (a_dicts σ))
           (a_recs σ ++ [d']).
Proof.
  unfold a_new_style. destruct d as [d'|e]; [|done].
  destruct (a_attrs σ !! ln) as [[| | | | |lc]|]; try done.
  intros [= <-]. by exists d', lc.
Qed.

Lemma style_attr_suffix_inj (prefix name s1 s2 : string) :
  prefix +:+ name +:+ s1 = prefix +:+ name +:+ s2 → s1 = s2.
Proof. by intros Heq%(inj (String.app prefix))%(inj (String.app name)). Qed.

Lemma fill_variants_three s1 s2 s3 colors edgecolors edgewidths fillalphas kwargs :
  fill_variants [Some s1; Some s2; Some s3] colors edgecolors edgewidths fillalphas kwargs
  = [(s1, fill_dict_at colors edgecolors edgewidths fillalphas kwargs 0);
     (s2, fill_dict_at colors edgecolors edgewidths fillalphas kwargs 1);
     (s3, fill_dict_at colors edgecolors edgewidths fillalphas kwargs 2)].
Proof. done. Qed.

(** C3: for one name and one face color, a [make_fillstyles] call with
    three suffixes generates three dictionaries, registered under the three
    attributes [prefix + name + suffix].  All three have the face color; the
    first has the lightened face color as edge color and the edge width as
    line width, the second has edge color ['none'], the third has edge color
    ['none'] and the alpha value; in every entry other than [edgecolor],
    [linewidth] and [alpha] the three agree. *)
Theorem fill_sub_variants (prefix s s1 s2 s3 c : string) (ec ew fa : num)
    (namespace : option loc) (kwargs : gmap string pyval) (h h' : heap) :
  let ns := default main_module namespace in
  let call := FillStyles prefix (Scalar s) [Some s1; Some s2; Some s3]
                (Scalar c) (Scalar ec) (Scalar ew) (Scalar fa) kwargs in
  has_percent s = false →
  NoDup [s1; s2; s3] →
  call_ready h ns call →
  make_fillstyles prefix (Scalar s) [Some s1; Some s2; Some s3]
    (Scalar c) (Scalar ec) (Scalar ew) (Scalar fa) namespace kwargs h = (Ok tt, h') →
  ∃ h1 d1 d2 d3 edge,
    prepare_registry ns (call_categories call) h = (Ok tt, h1) ∧
    length h' = length h1 + 3 ∧
    attr_of h' ns (prefix +:+ s +:+ s1) = Some (VRef (length h1)) ∧
    attr_of h' ns (prefix +:+ s +:+ s2) = Some (VRef (length h1 + 1)) ∧
    attr_of h' ns (prefix +:+ s +:+ s3) = Some (VRef (length h1 + 2)) ∧
    style_of h' ns (prefix +:+ s +:+ s1) = Some d1 ∧
    style_of h' ns (prefix +:+ s +:+ s2) = Some d2 ∧
    style_of h' ns (prefix +:+ s +:+ s3) = Some d3 ∧
    d1 !! "facecolor" = Some (VStr c) ∧
    d2 !! "facecolor" = Some (VStr c) ∧
    d3 !! "facecolor" = Some (VStr c) ∧
    lighter c ec = Ok edge ∧
    d1 !! "edgecolor" = Some (VStr edge) ∧
    d1 !! "linewidth" = Some (VNum ew) ∧
    d2 !! "edgecolor" = Some (VStr "none") ∧
    d3 !! "edgecolor" = Some (VStr "none") ∧
    d3 !! "alpha" = Some (VNum fa) ∧
    ∀ key, key ≠ "edgecolor" → key ≠ "linewidth" → key ≠ "alpha" →
           d1 !! key = d2 !! key ∧ d2 !! key = d3 !! key.
Proof.
  intros ns call Hs Hnodup [Hok Hclash] Hrun. subst ns.
  set (ns := default main_module namespace) in *.
  rewrite make_fillstyles_expand in Hrun. fold ns in Hrun.
  unfold call_categories in *. simpl in Hok, Hclash.
  change (style_count _) with 1 in Hrun. change (call_count call) with 1 in Hclash.
  rewrite fill_variants_three in Hrun.
  pose proof Hok as (Hnotin & attrs & Hns & _).
  destruct (call_ok h ns attrs prefix (Scalar s)
              [(s1, fill_dict_at (Scalar c) (Scalar ec) (Scalar ew) (Scalar fa) kwargs 0);
               (s2, fill_dict_at (Scalar c) (Scalar ec) (Scalar ew) (Scalar fa) kwargs 1);
               (s3, fill_dict_at (Scalar c) (Scalar ec) (Scalar ew) (Scalar fa) kwargs 2)]
              1 Hns Hok Hclash h' Hrun)
    as (h1 & ls & attrs1 & σ' & Hprun & Hprep & Hholds1 & Harun & Hholds).
  unfold a_expand, for_range in Harun. simpl seq in Harun.
  apply bind_Ok_inv in Harun as ([] & σe & Hbody & [= <-]).
  unfold a_expand_body in Hbody.
  rewrite run_bind_lift_ok with (a := s) in Hbody by (by apply style_name_scalar).
  apply bind_Ok_inv in Hbody as ([] & σa & [= <-] & Hvs).
  simpl in Hvs.
  apply bind_Ok_inv in Hvs as ([] & σ1 & (d1 & lc1 & Hd1 & Hlc1 & ->)%a_new_style_inv & Hvs).
  apply bind_Ok_inv in Hvs as ([] & σ2 & (d2 & lc2 & Hd2 & Hlc2 & ->)%a_new_style_inv & Hvs).
  apply bind_Ok_inv in Hvs as ([] & σ3 & (d3 & lc3 & Hd3 & Hlc3 & ->)%a_new_style_inv & [= <-]).
  simpl in *. rewrite !Nat.add_0_r in *.
  apply NoDup_cons in Hnodup as [Hs1 Hnodup].
  apply NoDup_cons in Hnodup as [Hs2 _].
  assert (s1 ≠ s2 ∧ s1 ≠ s3 ∧ s2 ≠ s3) as (H12 & H13 & H23) by set_solver.
  apply fill_dict_at_Ok in Hd1 as (? & ? & ? & ? & [= <-] & [= <-] & [= <-] & [= <-] & Hd1).
  apply fill_dict_at_Ok in Hd2 as (? & ? & ? & ? & [= <-] & [= <-] & [= <-] & [= <-] & Hd2).
  apply fill_dict_at_Ok in Hd3 as (? & ? & ? & ? & [= <-] & [= <-] & [= <-] & [= <-] & Hd3).
  apply fill_dict_entries in Hd1 as (Hf1 & Ho1 & (edge & Hedge & He1 & Hw1)).
  apply fill_dict_entries in Hd2 as (Hf2 & Ho2 & He2).
  apply fill_dict_entries in Hd3 as (Hf3 & Ho3 & He3 & Ha3).
  assert (attr_of h' ns (prefix +:+ s +:+ s1) = Some (VRef (length h1))) as Ha1.
  { rewrite (holds_attr _ _ _ _ _ _ _ Hholds). simpl.
    rewrite !lookup_insert_ne by (by intros ?%style_attr_suffix_inj).
    by rewrite lookup_insert_eq. }
  assert (attr_of h' ns (prefix +:+ s +:+ s2) = Some (VRef (length h1 + 1))) as Ha2.
  { rewrite (holds_attr _ _ _ _ _ _ _ Hholds). simpl.
    rewrite lookup_insert_ne by (by intros ?%style_attr_suffix_inj).
    by rewrite lookup_insert_eq. }
  assert (attr_of h' ns (prefix +:+ s +:+ s3) = Some (VRef (length h1 + 2))) as Ha3'.
  { rewrite (holds_attr _ _ _ _ _ _ _ Hholds). simpl. by rewrite lookup_insert_eq. }
  pose proof (holds_rec _ _ _ _ _ _ _ Hholds 0 d1 eq_refl) as Hr1.
  pose proof (holds_rec _ _ _ _ _ _ _ Hholds 1 d2 eq_refl) as Hr2.
  pose proof (holds_rec _ _ _ _ _ _ _ Hholds 2 d3 eq_refl) as Hr3.
  rewrite Nat.add_0_r in Hr1.
  exists h1, d1, d2, d3, edge. split_and!; try done.
  - by rewrite (holds_length _ _ _ _ _ _ _ Hholds).
  - unfold style_of. by rewrite Ha1.
  - unfold style_of. by rewrite Ha2.
  - unfold style_of. by rewrite Ha3'.
  - intros key ? ? ?. destruct (decide (key = "facecolor")) as [->|]; [split; congruence|].
    by rewrite Ho1, Ho2, Ho3.
Qed.

(** ** Line, point and linepoint styles from one set of parameters *)



Lemma if_prefix_0 p prefixes (f : string → M heap unit) h :
  if_prefix (p :: prefixes) 0 f h = (if truthy p then f (default "" p) else ret tt) h.
Proof.
  unfold if_prefix. rewrite run_bind_lift_ok with (a := p) by done.
  destruct p as [s|]; [|done]. simpl. by destruct (String.eqb s "").
Qed.

Lemma if_prefix_S p prefixes i (f : string → M heap unit) :
  if_prefix (p :: prefixes) (S i) f = if_prefix prefixes i f.
Proof. done. Qed.



(** ** The example of the docstring of make_linestyles *)

(** The heap after [make_linestyles('ls', 'Male', '', 'blue', '-', 2)] on a
    namespace without attributes: the namespace, [style_names], the
    category [ls] and the style [lsMale]. *)
Definition male_heap : heap :=
  [ONamespace (<["lsMale" := VRef 3]> (<["ls" := VRef 2]> (<["style_names" := VRef 1]> ∅)));
   OList [VStr "Male"];
   ODict {["Male" := VRef 3]};
   ODict (<["color" := VStr "blue"]> (<["linestyle" := VStr "-"]>
            {["linewidth" := VNum (num_of_Z 2)]}))].

Lemma male_heap_ready n : registry_ok male_heap 0 ["ps"] ∧ no_clash "ps" (Scalar "Male") [""] n.
Proof.
  split.
  - split; [by apply (bool_decide_unpack _)|]. eexists. split; [done|]. split.
    + intros v Hv. vm_compute in Hv. injection Hv as <-. by eexists.
    + intros ln v ->%list_elem_of_singleton Hv. vm_compute in Hv. done.
  - intros k name suffix _ [= <-] ->%list_elem_of_singleton. split; [done|].
    by intros suffix' ->%list_elem_of_singleton.
Qed.

(** C5: [make_linestyles('ls', 'Male', '', 'blue', '-', 2)] on a namespace
    without attributes generates one dictionary, with color ['blue'], line
    style ['-'] and line width 2; the attribute [lsMale] and the entry
    ['Male'] of the category [ls] refer to it; [style_names] is
    [['Male']], and it still is after any call of [make_pointstyles] that
    generates a point style ['Male'] in the same namespace. *)
Theorem male_line_style :
  let record : gmap string pyval :=
    <["color" := VStr "blue"]> (<["linestyle" := VStr "-"]>
      {["linewidth" := VNum (num_of_Z 2)]}) in
  ∃ h1,
    make_linestyles "ls" (Scalar "Male") "" (Scalar "blue") (Scalar "-")
      (Scalar (num_of_Z 2)) (Some 0) ∅ [ONamespace ∅] = (Ok tt, h1) ∧
    (* one dictionary besides the list of names and the category *)
    length h1 = 4 ∧
    attr_of h1 0 "lsMale" = Some (VRef 3) ∧
    style_of h1 0 "lsMale" = Some record ∧
    category_of h1 0 "ls" = Some {["Male" := VRef 3]} ∧
    category_style h1 0 "ls" "Male" = Some record ∧
    style_names_of h1 0 = Some [VStr "Male"] ∧
    ∀ colors dashes lws markers markersizes markeredgecolors markeredgewidths kwargs,
      style_names_of
        (make_pointstyles "ps" (Scalar "Male") "" colors dashes lws markers markersizes
           markeredgecolors markeredgewidths (Some 0) kwargs h1).2 0
      = Some [VStr "Male"].
Proof.
  intros record. exists male_heap. split; [by vm_compute|].
  do 6 (split; [by vm_compute|]).
  intros colors dashes lws markers markersizes markeredgecolors markeredgewidths kwargs.
  rewrite make_pointstyles_expand. simpl default.
  set (n := style_count _).
  destruct (male_heap_ready n) as [Hok Hclash].
  destruct (call_spec male_heap 0 _ "ps" (Scalar "Male")
              [("", point_dict colors dashes lws markers markersizes markeredgecolors
                      markeredgewidths kwargs)] n eq_refl Hok Hclash)
    as (h1 & ls & attrs1 & Hprun & Hprep & Hholds1 & Hres & Hholds).
  etrans; [exact (holds_style_names _ _ _ _ _ _ _ Hholds)|]. f_equal.
  pose proof (a_expand_grows (length h1) "ps" (Scalar "Male")
                [("", point_dict colors dashes lws markers markersizes markeredgecolors
                        markeredgewidths kwargs)] n
                (AState attrs1 (names0 male_heap 0) (dicts_of h1) [])) as Hg.
  assert (∀ m, foldl add_name (names0 male_heap 0) (names_of (Scalar "Male") m)
               = [VStr "Male"]) as Hnames.
  { intros m. rewrite names_of_scalar by done.
    destruct m as [|m]; [done|]. by rewrite foldl_add_name_replicate. }
  destruct (a_expand _ _ _ _ _ _) as [[[]|e] σ'].
  - destruct Hg as [Hg _]. simpl. rewrite (g_names _ _ _ _ _ Hg). apply Hnames.
  - destruct Hg as (m & _ & Hg). simpl. rewrite (g_names _ _ _ _ _ Hg). apply Hnames.
Qed.

(** ** Sequences of calls *)

(** The names of the styles a call generates, in order. *)
Definition call_style_names (c : call) : list string :=
  names_of (call_names c) (call_count c).

(** The attributes [prefix + name + suffix] a call sets. *)
Definition call_attrs (c : call) : list string :=
  name ← call_style_names c;
  (λ suffix, call_prefix c +:+ name +:+ suffix) <$> call_suffixes c.

(** Calls one after the other on the same namespace. *)
Definition run_calls (namespace : option loc) (cs : list call) : M heap unit :=
  for_each cs (run_call namespace).

Definition all_names (cs : list call) : list string := cs ≫= call_style_names.
Definition all_categories (cs : list call) : list string := cs ≫= call_categories.
Definition all_attrs (cs : list call) : list string := cs ≫= call_attrs.

(** No style of any of the calls is named like a category of one of them
    or like [style_names], and no category is named [style_names]. *)
Definition calls_no_clash (cs : list call) : Prop :=
  ("style_names" ∉ all_categories cs) ∧
  Forall (λ sn, sn ≠ "style_names" ∧ sn ∉ all_categories cs) (all_attrs cs).

(** [name not in S] and [S.append(name)] on a list of strings. *)
Definition add_str (S : list string) (name : string) : list string :=
  if bool_decide (name ∈ S) then S else S ++ [name].

(** The names in the order of their first occurrence, each once. *)
Definition dedup_names (names : list string) : list string :=
  foldl add_str [] names.

(** The variants of a call. *)
Definition call_variants (c : call) : list variant :=
  match c with
  | LineStyles _ _ suffix colors dashes lws kwargs =>
      [(suffix, line_dict colors dashes lws kwargs)]
  | PointStyles _ _ suffix colors dashes lws markers markersizes
      markeredgecolors markeredgewidths kwargs =>
      [(suffix, point_dict colors dashes lws markers markersizes markeredgecolors
                  markeredgewidths kwargs)]
  | FillStyles _ _ suffixes colors edgecolors edgewidths fillalphas kwargs =>
      fill_variants suffixes colors edgecolors edgewidths fillalphas kwargs
  end.

Lemma call_variants_fst c : fst <$> call_variants c = call_suffixes c.
Proof. destruct c; [done..|]. apply fill_variants_fst. Qed.

Lemma call_variants_categories c :
  (λ v : variant, call_prefix c +:+ v.1) <$> call_variants c = call_categories c.
Proof.
  unfold call_categories. rewrite <-call_variants_fst. by rewrite <-list_fmap_compose.
Qed.

(** Every generator is the two preparation steps and the loop. *)
Lemma run_call_expand namespace c h :
  let ns := default main_module namespace in
  run_call namespace c h =
  (prepare_style_names ns ;;-
   for_each ((λ v : variant, call_prefix c +:+ v.1) <$> call_variants c)
     (prepare_category ns) ;;-
   expand ns (call_prefix c) (call_names c) (call_variants c) (call_count c)) h.
Proof.
  destruct c; simpl.
  - apply make_linestyles_expand.
  - apply make_pointstyles_expand.
  - rewrite make_fillstyles_expand. by rewrite <-fill_categories_variants.
Qed.

(** The list of names as a list of strings. *)

Lemma name_in_strings S name : name_in (VStr <$> S) name = bool_decide (name ∈ S).
Proof.
  induction S as [|x S IH]; [done|].
  change (name_in (VStr <$> x :: S) name)
    with (String.eqb x name || name_in (VStr <$> S) name).
  rewrite IH. destruct (String.eqb x name) eqn:Heq.
  - apply String.eqb_eq in Heq as ->. simpl. symmetry.
    apply bool_decide_eq_true. by left.
  - apply String.eqb_neq in Heq. simpl.
    apply bool_decide_ext. rewrite elem_of_cons.
    split; [by right|]. by intros [->|?].
Qed.

Lemma add_name_strings S name : add_name (VStr <$> S) name = VStr <$> add_str S name.
Proof.
  unfold add_name, add_str. rewrite name_in_strings.
  destruct (bool_decide (name ∈ S)); [done|]. by rewrite fmap_app.
Qed.

Lemma foldl_add_name_strings S names :
  foldl add_name (VStr <$> S) names = VStr <$> foldl add_str S names.
Proof.
  revert S. induction names as [|name names IH]; intros S; [done|].
  simpl. by rewrite add_name_strings, IH.
Qed.

Lemma add_str_NoDup S name : NoDup S → NoDup (add_str S name).
Proof.
  intros HS. unfold add_str. case_bool_decide; [done|].
  apply NoDup_app. split; [done|]. split; [|apply NoDup_singleton].
  intros x Hx ->%list_elem_of_singleton. done.
Qed.

Lemma foldl_add_str_NoDup S names : NoDup S → NoDup (foldl add_str S names).
Proof.
  revert S. induction names as [|name names IH]; intros S HS; [done|].
  simpl. by apply IH, add_str_NoDup.
Qed.

Lemma add_str_elem S name x : x ∈ add_str S name ↔ x ∈ S ∨ x = name.
Proof.
  unfold add_str. case_bool_decide.
  - split; [by left|]. by intros [?| ->].
  - rewrite elem_of_app, list_elem_of_singleton. done.
Qed.

Lemma foldl_add_str_elem S names x :
  x ∈ foldl add_str S names ↔ x ∈ S ∨ x ∈ names.
Proof.
  revert S. induction names as [|name names IH]; intros S; simpl.
  - rewrite elem_of_nil. tauto.
  - rewrite IH, add_str_elem, elem_of_cons. tauto.
Qed.


(** ** The invariant of the registry *)

(** [style_names], if it exists, is the list [S] of distinct names, and
    every category of [cats] that exists is a dictionary with keys from
    [S]. *)
Record registry_inv (h : heap) (ns : loc) (cats : list string) (S : list string)
  : Prop := {
  ri_ok : registry_ok h ns cats;
  ri_names : names0 h ns = VStr <$> S;
  ri_nodup : NoDup S;
  ri_cats : ∀ ln cat key,
    ln ∈ cats → category_of h ns ln = Some cat → is_Some (cat !! key) → key ∈ S;
}.

Lemma registry_ok_subseteq h ns lns cats :
  lns ⊆ cats → registry_ok h ns cats → registry_ok h ns lns.
Proof.
  intros Hsub (Hnotin & attrs & Hns & Hnames & Hcats). split; [by intros ?%Hsub|].
  exists attrs. split_and!; [done..|]. intros ln v Hln. apply Hcats. by apply Hsub.
Qed.

Lemma registry_inv_fresh h ns cats :
  h !! ns = Some (ONamespace ∅) → "style_names" ∉ cats → registry_inv h ns cats [].
Proof.
  intros Hns Hnotin. split.
  - by apply registry_ok_fresh.
  - unfold names0, style_names_of, attr_of. by rewrite Hns, lookup_empty.
  - constructor.
  - intros ln cat key _. unfold category_of, attr_of. by rewrite Hns, lookup_empty.
Qed.

Lemma elem_of_call_attrs c sn :
  sn ∈ call_attrs c ↔
  ∃ k name suffix, k < call_count c ∧ style_name (call_names c) k = Ok name ∧
    suffix ∈ call_suffixes c ∧ sn = call_prefix c +:+ name +:+ suffix.
Proof.
  unfold call_attrs, call_style_names. rewrite list_elem_of_bind. split.
  - intros (name & (suffix & -> & Hsuffix)%list_elem_of_fmap
                 & (k & Hk & Hname)%elem_of_names_of).
    by exists k, name, suffix.
  - intros (k & name & suffix & Hk & Hname & Hsuffix & ->). exists name. split.
    + apply list_elem_of_fmap. by exists suffix.
    + apply elem_of_names_of. by exists k.
Qed.

(** A call that returns keeps the invariant and adds its names. *)
Lemma run_call_inv namespace c cats S h h' :
  let ns := default main_module namespace in
  call_categories c ⊆ cats →
  Forall (λ sn, sn ≠ "style_names" ∧ sn ∉ cats) (call_attrs c) →
  registry_inv h ns cats S →
  run_call namespace c h = (Ok tt, h') →
  registry_inv h' ns cats (foldl add_str S (call_style_names c)) ∧
  length (call_style_names c) = call_count c.
Proof.
  intros ns Hsub Hattrs [Hok Hnames Hnodup Hcats] Hrun.
  rewrite Forall_forall in Hattrs.
  rewrite run_call_expand in Hrun. fold ns in Hrun.
  set (prefix := call_prefix c) in *. set (names := call_names c) in *.
  set (vs := call_variants c) in *. set (n := call_count c) in *.
  assert (((λ v : variant, prefix +:+ v.1) <$> vs) = call_categories c) as Hlns
    by apply call_variants_categories.
  assert (fst <$> vs = call_suffixes c) as Hfst by apply call_variants_fst.
  assert (registry_ok h ns ((λ v : variant, prefix +:+ v.1) <$> vs)) as Hok'.
  { rewrite Hlns. by eapply registry_ok_subseteq. }
  assert (no_clash prefix names (fst <$> vs) n) as Hclash.
  { rewrite Hfst. intros k name suffix Hk Hname Hsuffix.
    assert (prefix +:+ name +:+ suffix ∈ call_attrs c) as Hin
      by (apply elem_of_call_attrs; by exists k, name, suffix).
    destruct (Hattrs _ Hin) as [Hne Hnotin]. split; [done|].
    intros suffix' Hsuffix' Heq. apply Hnotin, Hsub. rewrite Heq.
    unfold call_categories. apply list_elem_of_fmap. by exists suffix'. }
  pose proof Hok as (Hsn & attrs & Hns & Hnames_ok & Hcats_ok).
  destruct (call_ok h ns attrs prefix names vs n Hns Hok' Hclash h' Hrun)
    as (h1 & ls & attrs1 & σ' & Hprun & Hprep & Hholds1 & Harun & Hholds).
  pose proof (a_expand_grows (length h1) prefix names vs n
                (AState attrs1 (names0 h ns) (dicts_of h1) [])) as Hg.
  rewrite Harun in Hg. destruct Hg as [Hg Hlen]. split; [|done].
  pose proof (pr_len _ _ _ _ _ _ _ Hprep) as Hlen1.
  (* the categories *)
  assert (∀ ln v, ln ∈ cats → a_attrs σ' !! ln = Some v →
            ∃ lc cat1 cat', v = VRef lc ∧
              (∀ key, is_Some (cat1 !! key) → key ∈ S) ∧
              h' !! lc = Some (ODict cat') ∧
              dict_grows (names_of names n) cat1 cat') as Hstep.
  { intros ln v Hln Hv.
    rewrite (g_attrs_frame _ _ _ _ _ Hg) in Hv; last first.
    { intros name suffix (k & Hk & Hname)%elem_of_names_of Hsuffix ->.
      assert (prefix +:+ name +:+ suffix ∈ call_attrs c) as Hin.
      { apply elem_of_call_attrs. exists k, name, suffix. by rewrite <-Hfst. }
      by destruct (Hattrs _ Hin) as [_ Hnotin]. }
    simpl in Hv.
    assert (∃ lc cat1, v = VRef lc ∧ h1 !! lc = Some (ODict cat1) ∧
              ∀ key, is_Some (cat1 !! key) → key ∈ S) as (lc & cat1 & -> & Hlc & Hkeys).
    { destruct (decide (ln ∈ (λ v : variant, prefix +:+ v.1) <$> vs)) as [Hin|Hnotin].
      - destruct (pr_cats _ _ _ _ _ _ _ Hprep ln v Hin Hv) as (lc & -> & Hlc).
        exists lc, (cat0 h ns ln). split_and!; [done..|]. intros key Hkey.
        unfold cat0 in Hkey. destruct (category_of h ns ln) as [cat|] eqn:Hcat.
        + by eapply Hcats.
        + simpl in Hkey. rewrite lookup_empty in Hkey. by destruct Hkey.
      - rewrite (pr_attrs_new _ _ _ _ _ _ _ Hprep) in Hv; [|by intros ->|done].
        destruct (Hcats_ok ln v Hln Hv) as [cat Hcat].
        destruct v as [| | | | |lc]; try done. simpl in Hcat.
        destruct (h !! lc) as [[| cat'|]|] eqn:Hlc; simplify_eq.
        exists lc, cat. split; [done|]. split.
        + rewrite (pr_old _ _ _ _ _ _ _ Hprep); [done|by eapply lookup_lt_Some|].
          intros ->. congruence.
        + intros key Hkey. apply (Hcats ln cat key Hln); [|done].
          unfold category_of, attr_of. rewrite Hns, Hv. simpl. by rewrite Hlc. }
    pose proof (g_dicts _ _ _ _ _ Hg lc) as Hd. simpl in Hd.
    rewrite (proj2 (lookup_dicts_of_Some h1 lc cat1) Hlc) in Hd.
    destruct (a_dicts σ' !! lc) as [cat'|] eqn:Hcat'; [|done].
    exists lc, cat1, cat'. split_and!; [done..| |done].
    by apply (rep_dicts _ _ _ _ _ _ (proj1 Hholds)). }
  split.
  - split; [done|]. exists (a_attrs σ'). split; [apply (rep_ns _ _ _ _ _ _ (proj1 Hholds))|].
    split.
    + intros v Hv. rewrite (rep_names_attr _ _ _ _ _ _ (proj1 Hholds)) in Hv.
      injection Hv as <-. simpl. rewrite (rep_names _ _ _ _ _ _ (proj1 Hholds)). by eexists.
    + intros ln v Hln Hv.
      destruct (Hstep ln v Hln Hv) as (lc & cat1 & cat' & -> & _ & Hlc & _).
      simpl. rewrite Hlc. by eexists.
  - unfold names0. rewrite (holds_style_names _ _ _ _ _ _ _ Hholds). simpl.
    rewrite (g_names _ _ _ _ _ Hg). simpl.
    by rewrite Hnames, foldl_add_name_strings.
  - by apply foldl_add_str_NoDup.
  - intros ln cat key Hln Hcat Hkey.
    unfold category_of in Hcat. rewrite (holds_attr _ _ _ _ _ _ _ Hholds) in Hcat.
    destruct (a_attrs σ' !! ln) as [v|] eqn:Hv; [|done]. simpl in Hcat.
    destruct (Hstep ln v Hln Hv) as (lc & cat1 & cat' & -> & Hkeys & Hlc & Hgrow).
    simpl in Hcat. rewrite Hlc in Hcat. injection Hcat as <-.
    apply foldl_add_str_elem.
    destruct (proj2 Hgrow key Hkey) as [Hold|Hnew]; [left; by apply Hkeys|by right].
Qed.

Lemma all_names_cons c cs : all_names (c :: cs) = call_style_names c ++ all_names cs.
Proof. done. Qed.

Lemma run_calls_inv namespace cats cs S h h' :
  let ns := default main_module namespace in
  all_categories cs ⊆ cats →
  Forall (λ sn, sn ≠ "style_names" ∧ sn ∉ cats) (all_attrs cs) →
  registry_inv h ns cats S →
  run_calls namespace cs h = (Ok tt, h') →
  registry_inv h' ns cats (foldl add_str S (all_names cs)) ∧
  ∀ c, c ∈ cs → length (call_style_names c) = call_count c.
Proof.
  intros ns. revert S h. induction cs as [|c cs IH]; intros S h Hsub Hattrs Hinv Hrun.
  - injection Hrun as <-. split; [done|]. by intros c ?%elem_of_nil.
  - unfold run_calls in Hrun. simpl in Hrun.
    apply bind_Ok_inv in Hrun as ([] & h1 & Hc & Hcs).
    unfold all_attrs in Hattrs. simpl in Hattrs. apply Forall_app in Hattrs as [Hattrs1 Hattrs2].
    destruct (run_call_inv namespace c cats S h h1) as [Hinv1 Hlen]; [|done..|].
    { intros x Hx. apply Hsub. unfold all_categories. simpl. apply elem_of_app. by left. }
    destruct (IH (foldl add_str S (call_style_names c)) h1) as [Hinv2 Hlens]; [|done..|].
    { intros x Hx. apply Hsub. unfold all_categories. simpl. apply elem_of_app. by right. }
    split.
    + by rewrite all_names_cons, foldl_app.
    + intros c' [->|Hc']%elem_of_cons; [done|by apply Hlens].
Qed.

(** The names of a call that finds all of them are the names it was
    given. *)
Lemma names_of_seq xs n : names_of (Seq xs) n = take n xs.
Proof.
  induction n as [|n IH]; [done|]. rewrite names_of_S, IH. simpl.
  destruct (xs !! n) as [x|] eqn:Hx.
  - by erewrite take_S_r.
  - rewrite app_nil_r. apply lookup_ge_None in Hx. by rewrite !take_ge by lia.
Qed.

Lemma call_style_names_seq c xs :
  call_names c = Seq xs → length (call_style_names c) = call_count c →
  call_style_names c = xs.
Proof.
  unfold call_style_names. intros Hnames. rewrite Hnames, names_of_seq.
  rewrite length_take. intros Hlen. apply take_ge.
  assert (length xs ≤ call_count c); [|lia].
  unfold call_count. rewrite style_count_max.
  destruct c; simpl in *; subst; simpl; lia.
Qed.


(** ** Nothing is taken back *)

(** X15: whatever the outcome of a call of one of the three generators, be
    it a return or an exception raised on the way, the namespace has
    afterwards every attribute it had before, [style_names] has grown at
    its end, and the categories of the call have every key they had. *)
Lemma call_keeps_registry (c : call) (namespace : option loc) (h : heap) :
  let ns := default main_module namespace in
  let h' := (run_call namespace c h).2 in
  call_ready h ns c →
  (∀ a, is_Some (attr_of h ns a) → is_Some (attr_of h' ns a)) ∧
  names0 h ns `prefix_of` names0 h' ns ∧
  (∀ ln key, ln ∈ call_categories c → is_Some (cat0 h ns ln !! key) →
     ∃ cat, category_of h' ns ln = Some cat ∧ is_Some (cat !! key)).
Proof.
  intros ns h' [Hok Hclash]. unfold h'. rewrite run_call_expand. fold ns.
  set (prefix := call_prefix c) in *. set (names := call_names c) in *.
  set (vs := call_variants c) in *. set (n := call_count c) in *.
  assert (((λ v : variant, prefix +:+ v.1) <$> vs) = call_categories c) as Hlns
    by apply call_variants_categories.
  assert (fst <$> vs = call_suffixes c) as Hfst by apply call_variants_fst.
  rewrite <-Hlns in Hok |- *. rewrite <-Hfst in Hclash.
  pose proof Hok as (Hnotin & attrs & Hns & _).
  destruct (call_spec h ns attrs prefix names vs n Hns Hok Hclash)
    as (h1 & ls & attrs1 & Hprun & Hprep & Hholds1 & _ & Hholds).
  simpl in Hholds.
  set (σ := AState attrs1 (names0 h ns) (dicts_of h1) []) in *.
  assert (∃ m, m ≤ n ∧ grows prefix (fst <$> vs) (names_of names m) σ
                         (a_expand (length h1) prefix names vs n σ).2) as (m & Hm & Hg).
  { pose proof (a_expand_grows (length h1) prefix names vs n σ) as Hg.
    destruct (a_expand (length h1) prefix names vs n σ) as [[[]|e] σ'].
    - exists n. split; [done|apply Hg].
    - destruct Hg as (m & Hm & Hg). by exists m. }
  split_and!.
  - intros a Ha. rewrite (holds_attr _ _ _ _ _ _ _ Hholds).
    apply (g_attrs_mono _ _ _ _ _ Hg). simpl.
    unfold attr_of in Ha. rewrite Hns in Ha. destruct Ha as [v Hv].
    rewrite (pr_attrs_old _ _ _ _ _ _ _ Hprep a v Hv). by eexists.
  - unfold names0 at 2. rewrite (holds_style_names _ _ _ _ _ _ _ Hholds). simpl.
    rewrite (g_names _ _ _ _ _ Hg). apply foldl_add_name_prefix.
  - intros ln key Hln Hkey.
    destruct (proj2 Hholds1 ln Hln) as (lc & Hattr & Hcat).
    assert (a_attrs (a_expand (length h1) prefix names vs n σ).2 !! ln = Some (VRef lc))
      as Hattr'.
    { rewrite (g_attrs_frame _ _ _ _ _ Hg); [done|].
      intros name suffix (k & Hk & Hname)%elem_of_names_of Hsuffix ->.
      apply list_elem_of_fmap in Hln as (v & Hv & Hvin).
      destruct (Hclash k name suffix ltac:(lia) Hname Hsuffix) as [_ Hne].
      apply (Hne v.1); [|done]. apply list_elem_of_fmap. by exists v. }
    pose proof (g_dicts _ _ _ _ _ Hg lc) as Hd.
    destruct (pr_cats _ _ _ _ _ _ _ Hprep ln (VRef lc) Hln Hattr) as (lc' & Heq & Hlc).
    injection Heq as <-. apply lookup_dicts_of_Some in Hlc. simpl in Hd. rewrite Hlc in Hd.
    destruct (a_dicts (a_expand (length h1) prefix names vs n σ).2 !! lc) as [cat|] eqn:Hcat';
      [|done].
    exists cat. split; [|by apply Hd].
    by eapply (holds_category _ _ _ _ _ _ _ Hholds).
Qed.

(** ** Two runs side by side

    Two runs of the same generator with the same arguments, one into the
    namespace [ns1] of a heap of length [b1] and one into the namespace
    [ns2] of a heap of length [b2], allocate in step: object [j] of the
    first run is at address [b1 + j], that of the second at [b2 + j].  The
    runs are related by a simulation whose worlds are the numbers [n] of
    objects allocated so far. *)

(** A value that is not a reference. *)
Definition plain (v : pyval) : Prop :=
  match v with
  | VRef _ => False
  | _ => True
  end.

Definition plain_map (d : gmap string pyval) : Prop :=
  ∀ k v, d !! k = Some v → plain v.

(** A marker whose symbol and size are not references. *)
Definition plain_marker (mk : marker) : Prop :=
  (∀ v, marker_symbol mk = Ok v → plain v) ∧
  (∀ ms v, marker_size mk ms = Ok v → plain v).

Lemma plain_marker_pair symbol factor : plain symbol → plain_marker (MPair symbol factor).
Proof. intros Hs. split; [by intros v [= <-]|by intros ms v [= <-]]. Qed.

Lemma plain_map_insert d k v : plain_map d → plain v → plain_map (<[k := v]> d).
Proof.
  intros Hd Hv k' v'. destruct (decide (k = k')) as [<-|Hne].
  - rewrite lookup_insert_eq. by intros [= <-].
  - rewrite lookup_insert_ne by done. apply Hd.
Qed.

Lemma py_dict_plain kw kwargs d :
  Forall (λ p : string * pyval, plain p.2) kw → plain_map kwargs →
  py_dict kw kwargs = Ok d → plain_map d.
Proof.
  intros Hkw Hkwargs. unfold py_dict. destruct (existsb _ _); [done|].
  intros [= <-] k v [Hk|[_ Hk]]%lookup_union_Some_raw; [|by eapply Hkwargs].
  apply elem_of_list_to_map_2 in Hk. rewrite Forall_forall in Hkw.
  by apply (Hkw (k, v)).
Qed.

Lemma fill_dict_plain j c ec ew fa kwargs d :
  plain_map kwargs → fill_dict j c ec ew fa kwargs = Ok d → plain_map d.
Proof.
  intros Hkwargs. unfold fill_dict.
  destruct (py_dict _ _) as [filldict|] eqn:Hdict; [|done].
  apply py_dict_plain in Hdict; [|by repeat constructor|done].
  destruct j as [|[|[|j]]].
  - destruct (lighter c ec); [|done]. intros [= <-]. simpl.
    by repeat apply plain_map_insert.
  - intros [= <-]. simpl. by repeat apply plain_map_insert.
  - intros [= <-]. simpl. by repeat apply plain_map_insert.
  - by intros [= <-].
Qed.

Inductive rel_res {A} (RA : A → A → Prop) : result A → result A → Prop :=
  | rel_Ok a1 a2 : RA a1 a2 → rel_res RA (Ok a1) (Ok a2)
  | rel_Raise e : rel_res RA (Raise e) (Raise e).

Section simulation.
Variables (ns1 b1 ns2 b2 : loc) (h10 h20 : heap).

Definition rel_loc (n : nat) (l1 l2 : loc) : Prop :=
  (l1 = ns1 ∧ l2 = ns2) ∨ (∃ j, j < n ∧ l1 = b1 + j ∧ l2 = b2 + j).

Definition rel_val (n : nat) (v1 v2 : pyval) : Prop :=
  match v1, v2 with
  | VRef l1, VRef l2 => rel_loc n l1 l2
  | VRef _, _ | _, VRef _ => False
  | _, _ => v1 = v2
  end.

Definition rel_map (n : nat) (d1 d2 : gmap string pyval) : Prop :=
  ∀ k, option_Forall2 (rel_val n) (d1 !! k) (d2 !! k).

Definition rel_obj (n : nat) (o1 o2 : obj) : Prop :=
  match o1, o2 with
  | OList xs1, OList xs2 => Forall2 (rel_val n) xs1 xs2
  | ODict d1, ODict d2 => rel_map n d1 d2
  | ONamespace d1, ONamespace d2 => rel_map n d1 d2
  | _, _ => False
  end.

(** Related addresses hold related objects. *)
Definition rel_objs (n : nat) (h1 h2 : heap) : Prop :=
  ∀ l1 l2, rel_loc n l1 l2 → option_Forall2 (rel_obj n) (h1 !! l1) (h2 !! l2).

(** The two heaps after [n] allocations; what was in the heaps [h10] and
    [h20] at the start, the namespaces apart, is as it was. *)
Record rel_heap (n : nat) (h1 h2 : heap) : Prop := {
  rh_ns1 : ns1 < b1;
  rh_ns2 : ns2 < b2;
  rh_len1 : length h1 = b1 + n;
  rh_len2 : length h2 = b2 + n;
  rh_objs : rel_objs n h1 h2;
  rh_old1 : ∀ l, l < b1 → l ≠ ns1 → h1 !! l = h10 !! l;
  rh_old2 : ∀ l, l < b2 → l ≠ ns2 → h2 !! l = h20 !! l
}.

Definition sim {A} (n0 : nat) (RA : nat → A → A → Prop) (m1 m2 : M heap A) : Prop :=
  ∀ n h1 h2, n0 ≤ n → rel_heap n h1 h2 →
    ∃ n', n ≤ n' ∧ rel_heap n' (m1 h1).2 (m2 h2).2 ∧
          rel_res (RA n') (m1 h1).1 (m2 h2).1.

Definition same {A} : nat → A → A → Prop := λ _, eq.

Lemma rel_loc_ns n : rel_loc n ns1 ns2.
Proof. by left. Qed.

Lemma rel_loc_mono n n' l1 l2 : n ≤ n' → rel_loc n l1 l2 → rel_loc n' l1 l2.
Proof. intros Hn [?|(j & Hj & ? & ?)]; [by left|]. right. exists j. split; [lia|done]. Qed.

Lemma rel_val_mono n n' v1 v2 : n ≤ n' → rel_val n v1 v2 → rel_val n' v1 v2.
Proof. intros Hn. destruct v1, v2; simpl; try done. by apply rel_loc_mono. Qed.

Lemma rel_map_mono n n' d1 d2 : n ≤ n' → rel_map n d1 d2 → rel_map n' d1 d2.
Proof.
  intros Hn Hd k. destruct (Hd k); constructor. by eapply rel_val_mono.
Qed.

Lemma rel_obj_mono n n' o1 o2 : n ≤ n' → rel_obj n o1 o2 → rel_obj n' o1 o2.
Proof.
  intros Hn. destruct o1, o2; simpl; try done.
  - intros Hxs. eapply Forall2_impl; [exact Hxs|]. intros ??. by apply rel_val_mono.
  - by apply rel_map_mono.
  - by apply rel_map_mono.
Qed.

Lemma option_rel_obj_mono n n' x y :
  n ≤ n' → option_Forall2 (rel_obj n) x y → option_Forall2 (rel_obj n') x y.
Proof. intros Hn [o1 o2 Ho|]; constructor. by eapply rel_obj_mono. Qed.

Lemma rel_val_plain n v : plain v → rel_val n v v.
Proof. by destruct v. Qed.

Lemma rel_map_plain n d : plain_map d → rel_map n d d.
Proof.
  intros Hd k. destruct (d !! k) as [v|] eqn:Hk; constructor.
  apply rel_val_plain. by eapply Hd.
Qed.

Lemma rel_map_empty n : rel_map n ∅ ∅.
Proof. intros k. rewrite !lookup_empty. constructor. Qed.

Lemma rel_map_insert n d1 d2 k v1 v2 :
  rel_map n d1 d2 → rel_val n v1 v2 → rel_map n (<[k := v1]> d1) (<[k := v2]> d2).
Proof.
  intros Hd Hv k'. destruct (decide (k = k')) as [<-|Hne].
  - rewrite !lookup_insert_eq. by constructor.
  - rewrite !lookup_insert_ne by done. apply Hd.
Qed.

Lemma rel_loc_inj n l1 l2 l1' l2' :
  ns1 < b1 → ns2 < b2 → rel_loc n l1 l2 → rel_loc n l1' l2' → l1 = l1' ↔ l2 = l2'.
Proof.
  intros ? ? [[-> ->]|(j & ? & -> & ->)] [[-> ->]|(j' & ? & -> & ->)]; lia.
Qed.

Lemma rel_loc_new n l1 l2 : rel_loc n l1 l2 → (l1 = ns1 ∨ b1 ≤ l1) ∧ (l2 = ns2 ∨ b2 ≤ l2).
Proof. intros [[-> ->]|(j & ? & -> & ->)]; split; (by left) || (right; lia). Qed.

Lemma rel_heap_lookup n h1 h2 l1 l2 :
  rel_heap n h1 h2 → rel_loc n l1 l2 →
  option_Forall2 (rel_obj n) (h1 !! l1) (h2 !! l2).
Proof. intros Hh. apply Hh. Qed.

(** Writing related objects to related addresses. *)
Lemma rel_heap_insert n h1 h2 l1 l2 o1 o2 :
  rel_heap n h1 h2 → rel_loc n l1 l2 → rel_obj n o1 o2 →
  is_Some (h1 !! l1) → is_Some (h2 !! l2) →
  rel_heap n (<[l1 := o1]> h1) (<[l2 := o2]> h2).
Proof.
  intros [] Hl Ho H1%lookup_lt_is_Some H2%lookup_lt_is_Some.
  split; try done.
  - by rewrite length_insert.
  - by rewrite length_insert.
  - intros l1' l2' Hl'.
    pose proof (rel_loc_inj n l1 l2 l1' l2' rh_ns3 rh_ns4 Hl Hl') as Hinj.
    destruct (decide (l1 = l1')) as [<-|Hne].
    + rewrite <- (proj1 Hinj eq_refl).
      rewrite !list_lookup_insert_eq by done. by constructor.
    + rewrite !list_lookup_insert_ne by tauto. by apply rh_objs0.
  - intros l ? ?. rewrite list_lookup_insert_ne; [by apply rh_old3|].
    destruct (rel_loc_new _ _ _ Hl) as [[->| ?] _]; [done|lia].
  - intros l ? ?. rewrite list_lookup_insert_ne; [by apply rh_old4|].
    destruct (rel_loc_new _ _ _ Hl) as [_ [->| ?]]; [done|lia].
Qed.

(** Allocating related objects. *)
Lemma rel_heap_alloc n h1 h2 o1 o2 :
  rel_heap n h1 h2 → rel_obj n o1 o2 →
  rel_heap (S n) (h1 ++ [o1]) (h2 ++ [o2]) ∧ rel_loc (S n) (length h1) (length h2).
Proof.
  intros [] Ho. split; [split; try done|].
  - rewrite length_app. simpl. lia.
  - rewrite length_app. simpl. lia.
  - intros l1 l2 [[-> ->]|(j & Hj & -> & ->)].
    + rewrite !lookup_app_l by lia.
      eapply option_rel_obj_mono; [|apply rh_objs0, rel_loc_ns]. lia.
    + destruct (decide (j = n)) as [->|Hne].
      * rewrite <- rh_len3, <- rh_len4.
        rewrite !lookup_app_r by lia. rewrite !Nat.sub_diag. simpl. constructor.
        eapply rel_obj_mono; [|done]. lia.
      * rewrite !lookup_app_l by lia.
        eapply option_rel_obj_mono; [|apply rh_objs0; right; exists j; split; [lia|done]].
        lia.
  - intros l ? ?. rewrite lookup_app_l by lia. by apply rh_old3.
  - intros l ? ?. rewrite lookup_app_l by lia. by apply rh_old4.
  - right. exists n. split; [lia|]. by rewrite rh_len3, rh_len4.
Qed.

(** *** The rules of the simulation *)

Lemma sim_mono {A} n0 n1 (RA : nat → A → A → Prop) m1 m2 :
  n0 ≤ n1 → sim n0 RA m1 m2 → sim n1 RA m1 m2.
Proof. intros Hn Hsim n h1 h2 Hn1. apply Hsim. lia. Qed.

Lemma sim_ret {A} n0 (RA : nat → A → A → Prop) a1 a2 :
  (∀ n, n0 ≤ n → RA n a1 a2) → sim n0 RA (ret a1) (ret a2).
Proof. intros Ha n h1 h2 Hn Hh. exists n. split; [done|]. split; [done|]. constructor. auto. Qed.

Lemma sim_lift {A} n0 (r : result A) : sim n0 same (lift r) (lift r).
Proof.
  intros n h1 h2 Hn Hh. exists n. split; [done|]. split; [done|].
  simpl. destruct r; by constructor.
Qed.

Lemma sim_bind {A B} n0 (RA : nat → A → A → Prop) (RB : nat → B → B → Prop)
    m1 m2 (f1 f2 : A → M heap B) :
  sim n0 RA m1 m2 →
  (∀ n a1 a2, n0 ≤ n → RA n a1 a2 → sim n RB (f1 a1) (f2 a2)) →
  sim n0 RB (bind m1 f1) (bind m2 f2).
Proof.
  intros Hm Hf n h1 h2 Hn Hh. unfold bind.
  destruct (Hm n h1 h2 Hn Hh) as (n' & Hn' & Hh' & Hr).
  destruct (m1 h1) as [r1 h1'], (m2 h2) as [r2 h2']. simpl in *.
  destruct Hr as [a1 a2 Ha|e].
  - destruct (Hf n' a1 a2 ltac:(lia) Ha n' h1' h2' ltac:(lia) Hh') as (n'' & ? & ? & ?).
    exists n''. split; [lia|done].
  - exists n'. split; [done|]. split; [done|]. constructor.
Qed.

Lemma sim_when n0 b m1 m2 : sim n0 same m1 m2 → sim n0 same (when b m1) (when b m2).
Proof. intros Hm. destruct b; [done|]. by apply sim_ret. Qed.

Lemma sim_for_each {A} n0 (xs : list A) (f1 f2 : A → M heap unit) :
  (∀ x n, n0 ≤ n → sim n same (f1 x) (f2 x)) →
  sim n0 same (for_each xs f1) (for_each xs f2).
Proof.
  intros Hf. revert n0 Hf. induction xs as [|x xs IH]; intros n0 Hf; simpl.
  - by apply sim_ret.
  - eapply sim_bind; [by apply Hf|]. intros n _ _ Hn _.
    apply IH. intros y n' Hn'. apply Hf. lia.
Qed.

Lemma sim_for_range n0 k (f1 f2 : nat → M heap unit) :
  (∀ x n, n0 ≤ n → sim n same (f1 x) (f2 x)) →
  sim n0 same (for_range k f1) (for_range k f2).
Proof. apply sim_for_each. Qed.

Lemma sim_bind_lift {A B} n0 (RB : nat → B → B → Prop) (r : result A)
    (f1 f2 : A → M heap B) :
  (∀ a, r = Ok a → sim n0 RB (f1 a) (f2 a)) →
  sim n0 RB (bind (lift r) f1) (bind (lift r) f2).
Proof.
  intros Hf. destruct r as [a|e].
  - exact (Hf a eq_refl).
  - intros n h1 h2 Hn Hh. exists n. split; [done|]. split; [done|]. constructor.
Qed.

(** *** The primitive operations *)

Lemma rel_heap_cases n h1 h2 l1 l2 :
  rel_heap n h1 h2 → rel_loc n l1 l2 →
  (h1 !! l1 = None ∧ h2 !! l2 = None) ∨
  (∃ o1 o2, h1 !! l1 = Some o1 ∧ h2 !! l2 = Some o2 ∧ rel_obj n o1 o2).
Proof.
  intros Hh Hl. pose proof (rel_heap_lookup n h1 h2 l1 l2 Hh Hl) as Ho.
  destruct (h1 !! l1) as [o1|], (h2 !! l2) as [o2|]; inversion Ho; subst; eauto 10.
Qed.

Lemma rel_map_is_Some n d1 d2 k :
  rel_map n d1 d2 →
  bool_decide (is_Some (d1 !! k)) = bool_decide (is_Some (d2 !! k)).
Proof.
  intros Hd. specialize (Hd k).
  destruct (d1 !! k), (d2 !! k); inversion Hd; subst; done.
Qed.

Lemma sim_alloc n0 o1 o2 : rel_obj n0 o1 o2 → sim n0 rel_loc (alloc o1) (alloc o2).
Proof.
  intros Ho n h1 h2 Hn Hh. exists (S n).
  destruct (rel_heap_alloc n h1 h2 o1 o2 Hh (rel_obj_mono _ _ _ _ Hn Ho)) as [Hh' Hl].
  split; [lia|]. split; [done|]. by constructor.
Qed.

Lemma sim_hasattr n0 l1 l2 a :
  rel_loc n0 l1 l2 → sim n0 same (py_hasattr l1 a) (py_hasattr l2 a).
Proof.
  intros Hl n h1 h2 Hn Hh. exists n. split; [done|]. unfold py_hasattr.
  destruct (rel_heap_cases n h1 h2 l1 l2 Hh (rel_loc_mono _ _ _ _ Hn Hl))
    as [[-> ->]|(o1 & o2 & -> & -> & Ho)]; [by split; [|constructor]|].
  destruct o1, o2; try done; simpl; (split; [done|]); constructor; try done.
  by apply (rel_map_is_Some n).
Qed.

Lemma sim_getattr n0 l1 l2 a :
  rel_loc n0 l1 l2 → sim n0 rel_val (py_getattr l1 a) (py_getattr l2 a).
Proof.
  intros Hl n h1 h2 Hn Hh. exists n. split; [done|]. unfold py_getattr.
  destruct (rel_heap_cases n h1 h2 l1 l2 Hh (rel_loc_mono _ _ _ _ Hn Hl))
    as [[-> ->]|(o1 & o2 & -> & -> & Ho)]; [by split; [|constructor]|].
  destruct o1 as [| |d1], o2 as [| |d2]; try done; simpl; try (by split; [|constructor]).
  specialize (Ho a).
  destruct (d1 !! a), (d2 !! a); inversion Ho; subst; simpl; (split; [done|]);
    by constructor.
Qed.

Lemma sim_setattr n0 l1 l2 a v1 v2 :
  rel_loc n0 l1 l2 → rel_val n0 v1 v2 →
  sim n0 same (py_setattr l1 a v1) (py_setattr l2 a v2).
Proof.
  intros Hl Hv n h1 h2 Hn Hh. exists n. split; [done|]. unfold py_setattr.
  apply (rel_loc_mono _ n) in Hl; [|done]. apply (rel_val_mono _ n) in Hv; [|done].
  destruct (rel_heap_cases n h1 h2 l1 l2 Hh Hl)
    as [[H1 H2]|(o1 & o2 & H1 & H2 & Ho)]; rewrite H1, H2; [by split; [|constructor]|].
  destruct o1 as [| |d1], o2 as [| |d2]; try done; simpl; try (by split; [|constructor]).
  split; [|by constructor].
  apply rel_heap_insert; rewrite ?H1, ?H2; eauto. by apply rel_map_insert.
Qed.

Lemma existsb_rel n (name : string) xs1 xs2 :
  Forall2 (rel_val n) xs1 xs2 →
  existsb (λ x, match x with VStr s => String.eqb s name | _ => false end) xs1
  = existsb (λ x, match x with VStr s => String.eqb s name | _ => false end) xs2.
Proof.
  induction 1 as [|x y xs ys Hxy _ IH]; [done|]. simpl. rewrite IH. f_equal.
  destruct x, y; simpl in Hxy; try done; congruence.
Qed.

Lemma sim_contains n0 v1 v2 name :
  rel_val n0 v1 v2 → sim n0 same (py_contains v1 name) (py_contains v2 name).
Proof.
  intros Hv n h1 h2 Hn Hh. exists n. split; [done|]. unfold py_contains.
  apply (rel_val_mono _ n) in Hv; [|done].
  destruct v1 as [| | | | |l1], v2 as [| | | | |l2]; simpl in Hv; try done;
    try (by split; [|constructor]); try (injection Hv as <-; by split; [|constructor]).
  destruct (rel_heap_cases n h1 h2 l1 l2 Hh Hv)
    as [[H1 H2]|(o1 & o2 & H1 & H2 & Ho)]; rewrite H1, H2; [by split; [|constructor]|].
  destruct o1, o2; try done; simpl; (split; [done|]); constructor; try done.
  - by apply (existsb_rel n).
  - by apply (rel_map_is_Some n).
Qed.

Lemma sim_append n0 v1 v2 x1 x2 :
  rel_val n0 v1 v2 → rel_val n0 x1 x2 →
  sim n0 same (py_append v1 x1) (py_append v2 x2).
Proof.
  intros Hv Hx n h1 h2 Hn Hh. exists n. split; [done|]. unfold py_append.
  apply (rel_val_mono _ n) in Hv; [|done]. apply (rel_val_mono _ n) in Hx; [|done].
  destruct v1 as [| | | | |l1], v2 as [| | | | |l2]; simpl in Hv; try done;
    try (by split; [|constructor]).
  destruct (rel_heap_cases n h1 h2 l1 l2 Hh Hv)
    as [[H1 H2]|(o1 & o2 & H1 & H2 & Ho)]; rewrite H1, H2; [by split; [|constructor]|].
  destruct o1, o2; try done; simpl; try (by split; [|constructor]).
  split; [|by constructor].
  apply rel_heap_insert; rewrite ?H1, ?H2; eauto.
  simpl. apply Forall2_app; [done|]. by constructor.
Qed.

Lemma sim_setitem n0 v1 v2 name x1 x2 :
  rel_val n0 v1 v2 → rel_val n0 x1 x2 →
  sim n0 same (py_setitem v1 name x1) (py_setitem v2 name x2).
Proof.
  intros Hv Hx n h1 h2 Hn Hh. exists n. split; [done|]. unfold py_setitem.
  apply (rel_val_mono _ n) in Hv; [|done]. apply (rel_val_mono _ n) in Hx; [|done].
  destruct v1 as [| | | | |l1], v2 as [| | | | |l2]; simpl in Hv; try done;
    try (by split; [|constructor]).
  destruct (rel_heap_cases n h1 h2 l1 l2 Hh Hv)
    as [[H1 H2]|(o1 & o2 & H1 & H2 & Ho)]; rewrite H1, H2; [by split; [|constructor]|].
  destruct o1, o2; try done; simpl; try (by split; [|constructor]).
  split; [|by constructor].
  apply rel_heap_insert; rewrite ?H1, ?H2; eauto. by apply rel_map_insert.
Qed.

(** *** The code shared by the generators *)

Lemma sim_prepare_style_names n0 :
  sim n0 same (prepare_style_names ns1) (prepare_style_names ns2).
Proof.
  unfold prepare_style_names.
  eapply sim_bind; [apply sim_hasattr, rel_loc_ns|]. intros n b ? Hn <-.
  apply sim_when. eapply sim_bind; [apply sim_alloc; constructor|].
  intros n' l1 l2 Hn' Hl. by apply sim_setattr; [apply rel_loc_ns|].
Qed.

Lemma sim_prepare_category n0 ln :
  sim n0 same (prepare_category ns1 ln) (prepare_category ns2 ln).
Proof.
  unfold prepare_category.
  eapply sim_bind; [apply sim_hasattr, rel_loc_ns|]. intros n b ? Hn <-.
  apply sim_when. eapply sim_bind; [apply sim_alloc, rel_map_empty|].
  intros n' l1 l2 Hn' Hl. by apply sim_setattr; [apply rel_loc_ns|].
Qed.

Lemma sim_add_style_name n0 name :
  sim n0 same (add_style_name ns1 name) (add_style_name ns2 name).
Proof.
  unfold add_style_name.
  eapply sim_bind; [apply sim_getattr, rel_loc_ns|]. intros n sns1 sns2 Hn Hsns.
  eapply sim_bind; [by apply sim_contains|]. intros n' b ? Hn' <-.
  apply sim_when.
  eapply sim_bind; [apply sim_getattr, rel_loc_ns|]. intros n'' v1 v2 Hn'' Hv.
  by apply sim_append.
Qed.

Lemma sim_register n0 sn ln name d1 d2 :
  rel_loc n0 d1 d2 →
  sim n0 same (register ns1 sn ln name d1) (register ns2 sn ln name d2).
Proof.
  intros Hd. unfold register.
  eapply sim_bind; [by apply sim_setattr; [apply rel_loc_ns|]|]. intros n _ _ Hn _.
  eapply sim_bind; [apply sim_getattr, rel_loc_ns|]. intros n' cat1 cat2 Hn' Hcat.
  apply sim_setitem; [done|]. simpl. eapply rel_loc_mono; [|done]. lia.
Qed.

Lemma sim_new_dict n0 sn ln name d :
  plain_map d →
  sim n0 same (ld ←- alloc (ODict d); register ns1 sn ln name ld)
              (ld ←- alloc (ODict d); register ns2 sn ln name ld).
Proof.
  intros Hd. eapply sim_bind; [by apply sim_alloc, rel_map_plain|].
  intros n l1 l2 Hn Hl. by apply sim_register.
Qed.

(** *** The generators *)

Lemma sim_make_linestyles n0 prefix names suffix colors dashes lws kwargs :
  plain_map kwargs →
  sim n0 same
    (make_linestyles prefix names suffix colors dashes lws (Some ns1) kwargs)
    (make_linestyles prefix names suffix colors dashes lws (Some ns2) kwargs).
Proof.
  intros Hkwargs. unfold make_linestyles. simpl default.
  eapply sim_bind; [apply sim_prepare_style_names|]. intros n1 _ _ _ _.
  eapply sim_bind; [apply sim_prepare_category|]. intros n2 _ _ _ _.
  apply sim_for_range. intros k n _.
  apply sim_bind_lift. intros name _.
  eapply sim_bind; [apply sim_add_style_name|]. intros n3 _ _ _ _.
  do 3 (apply sim_bind_lift; intros ? _).
  apply sim_bind_lift. intros d Hd.
  apply sim_new_dict. eapply py_dict_plain; [| |done]; [|done].
  by repeat constructor.
Qed.

Lemma sim_make_pointstyles n0 prefix names suffix colors dashes lws markers
    markersizes markeredgecolors markeredgewidths kwargs :
  Forall plain_marker markers →
  plain_map kwargs →
  sim n0 same
    (make_pointstyles prefix names suffix colors dashes lws markers markersizes
       markeredgecolors markeredgewidths (Some ns1) kwargs)
    (make_pointstyles prefix names suffix colors dashes lws markers markersizes
       markeredgecolors markeredgewidths (Some ns2) kwargs).
Proof.
  intros Hmarkers Hkwargs. unfold make_pointstyles. simpl default.
  eapply sim_bind; [apply sim_prepare_style_names|]. intros n1 _ _ _ _.
  eapply sim_bind; [apply sim_prepare_category|]. intros n2 _ _ _ _.
  apply sim_for_range. intros k n _.
  apply sim_bind_lift. intros name _.
  eapply sim_bind; [apply sim_add_style_name|]. intros n3 _ _ _ _.
  do 3 (apply sim_bind_lift; intros ? _).
  apply sim_bind_lift. intros mk Hmk.
  apply sim_bind_lift. intros ms _.
  do 2 (apply sim_bind_lift; intros ? _).
  apply sim_bind_lift. intros symbol Hsymbol.
  apply sim_bind_lift. intros size Hsize.
  apply sim_bind_lift. intros mec _.
  apply sim_bind_lift. intros d Hd.
  apply sim_new_dict. eapply py_dict_plain; [| |done]; [|done].
  assert (plain_marker mk) as [Hplain1 Hplain2].
  { rewrite Forall_forall in Hmarkers. apply Hmarkers.
    destruct (1 <? length markers)%nat; simpl in Hmk.
    - destruct (markers !! k) eqn:Hk; [|done]. injection Hmk as <-.
      by eapply list_elem_of_lookup_2.
    - destruct (markers !! 0) eqn:Hk; [|done]. injection Hmk as <-.
      by eapply list_elem_of_lookup_2. }
  apply Hplain1 in Hsymbol. apply Hplain2 in Hsize.
  by repeat constructor.
Qed.

Lemma sim_if_prefix n0 prefixes i (f1 f2 : string → M heap unit) :
  (∀ s, sim n0 same (f1 s) (f2 s)) →
  sim n0 same (if_prefix prefixes i f1) (if_prefix prefixes i f2).
Proof.
  intros Hf. unfold if_prefix. apply sim_bind_lift. intros [s|] _.
  - destruct (String.eqb s ""); [by apply sim_ret|apply Hf].
  - by apply sim_ret.
Qed.

Lemma sim_make_linepointstyles n0 prefixes names suffix colors dashes lws markers
    markersizes markeredgecolors markeredgewidths kwargs :
  Forall plain_marker markers →
  plain_map kwargs →
  sim n0 same
    (make_linepointstyles prefixes names suffix colors dashes lws markers markersizes
       markeredgecolors markeredgewidths (Some ns1) kwargs)
    (make_linepointstyles prefixes names suffix colors dashes lws markers markersizes
       markeredgecolors markeredgewidths (Some ns2) kwargs).
Proof.
  intros Hmarkers Hkwargs. unfold make_linepointstyles. simpl default.
  eapply sim_bind.
  { apply sim_if_prefix. intros s. by apply sim_make_linestyles. }
  intros n1 _ _ _ _. eapply sim_bind.
  { apply sim_if_prefix. intros s. by apply sim_make_pointstyles. }
  intros n2 _ _ _ _.
  apply sim_if_prefix. intros s. by apply sim_make_pointstyles.
Qed.

Lemma sim_make_fillstyles n0 prefix names suffixes colors edgecolors edgewidths
    fillalphas kwargs :
  plain_map kwargs →
  sim n0 same
    (make_fillstyles prefix names suffixes colors edgecolors edgewidths fillalphas
       (Some ns1) kwargs)
    (make_fillstyles prefix names suffixes colors edgecolors edgewidths fillalphas
       (Some ns2) kwargs).
Proof.
  intros Hkwargs. unfold make_fillstyles. simpl default.
  eapply sim_bind; [apply sim_prepare_style_names|]. intros n1 _ _ _ _.
  eapply sim_bind.
  { apply sim_for_each. intros [suffix|] n _; [apply sim_prepare_category|by apply sim_ret]. }
  intros n2 _ _ _ _.
  apply sim_for_range. intros k n _.
  apply sim_bind_lift. intros name _.
  eapply sim_bind; [apply sim_add_style_name|]. intros n3 _ _ _ _.
  apply sim_for_each. intros [j [suffix|]] n' _; simpl; [|by apply sim_ret].
  do 4 (apply sim_bind_lift; intros ? _).
  apply sim_bind_lift. intros d Hd.
  apply sim_new_dict. by eapply fill_dict_plain.
Qed.

Lemma sim_plot_styles n0 names colors dashes markers lwthick lwthin markerlarge
    markersmall mec mew fillalpha :
  Forall plain_marker markers →
  sim n0 same
    (plot_styles names colors dashes markers lwthick lwthin markerlarge markersmall
       mec mew fillalpha (Some ns1))
    (plot_styles names colors dashes markers lwthick lwthin markerlarge markersmall
       mec mew fillalpha (Some ns2)).
Proof.
  intros Hmarkers. unfold plot_styles. simpl default.
  assert (Forall plain_marker [MPair (VStr "o") (num_of_Z 1)]) as Hcircle
    by (by repeat (constructor; [by apply plain_marker_pair|])).
  eapply sim_bind; [by apply sim_make_linepointstyles|]. intros n1 _ _ _ _.
  eapply sim_bind; [by apply sim_make_linepointstyles|]. intros n2 _ _ _ _.
  eapply sim_bind; [by apply sim_make_linepointstyles|]. intros n3 _ _ _ _.
  by apply sim_make_fillstyles.
Qed.

End simulation.

Lemma rel_res_same {A} n (r1 r2 : result A) : rel_res (same n) r1 r2 → r1 = r2.
Proof. by intros [a1 a2 ->|e]. Qed.

Lemma rel_heap_init ns1 ns2 (h1 h2 : heap) :
  h1 !! ns1 = Some (ONamespace ∅) → h2 !! ns2 = Some (ONamespace ∅) →
  rel_heap ns1 (length h1) ns2 (length h2) h1 h2 0 h1 h2.
Proof.
  intros H1 H2. split; try done.
  - by eapply lookup_lt_Some.
  - by eapply lookup_lt_Some.
  - intros l1 l2 [[-> ->]|(j & ? & _)]; [|lia].
    rewrite H1, H2. constructor. apply rel_map_empty.
Qed.

(** The relation of a run with itself. *)
Lemma rel_val_diag ns1 b1 ns2 b2 n v1 v2 :
  rel_val ns1 b1 ns2 b2 n v1 v2 → rel_val ns1 b1 ns1 b1 n v1 v1.
Proof.
  destruct v1, v2; simpl; try done.
  intros [[-> ->]|(j & ? & -> & ->)]; [by left|]. right. by exists j.
Qed.

Lemma rel_map_diag ns1 b1 ns2 b2 n d1 d2 :
  rel_map ns1 b1 ns2 b2 n d1 d2 → rel_map ns1 b1 ns1 b1 n d1 d1.
Proof.
  intros Hd k. specialize (Hd k).
  destruct (d1 !! k), (d2 !! k); inversion Hd; subst; constructor.
  by eapply rel_val_diag.
Qed.

Lemma rel_obj_diag ns1 b1 ns2 b2 n o1 o2 :
  rel_obj ns1 b1 ns2 b2 n o1 o2 → rel_obj ns1 b1 ns1 b1 n o1 o1.
Proof.
  destruct o1, o2; simpl; try done.
  - induction 1; constructor; [by eapply rel_val_diag|done].
  - apply rel_map_diag.
  - apply rel_map_diag.
Qed.

(** ** The structure of a registry

    What can be seen from a value by following references at most [fuel]
    times: addresses do not show, only the objects they lead to. *)

#[warnings="-register-all"]
Inductive tree : Type :=
  | TVal (v : pyval)
  | TList (ts : list tree)
  | TDict (d : gmap string tree)
  | TNamespace (attrs : gmap string tree)
  | TDangling
  | TCut.

Fixpoint view (fuel : nat) (h : heap) (v : pyval) : tree :=
  match v with
  | VRef l =>
      match fuel with
      | 0 => TCut
      | S fuel' =>
          match h !! l with
          | Some (OList xs) => TList (view fuel' h <$> xs)
          | Some (ODict d) => TDict (view fuel' h <$> d)
          | Some (ONamespace attrs) => TNamespace (view fuel' h <$> attrs)
          | None => TDangling
          end
      end
  | _ => TVal v
  end.

Lemma view_map ns1 b1 ns2 b2 n (f1 f2 : pyval → tree) (d1 d2 : gmap string pyval) :
  (∀ v1 v2, rel_val ns1 b1 ns2 b2 n v1 v2 → f1 v1 = f2 v2) →
  rel_map ns1 b1 ns2 b2 n d1 d2 → f1 <$> d1 = f2 <$> d2.
Proof.
  intros Hf Hd. apply map_eq. intros k. rewrite !lookup_fmap. specialize (Hd k).
  destruct (d1 !! k), (d2 !! k); inversion Hd; subst; simpl; [|done].
  f_equal. by apply Hf.
Qed.

Lemma view_list ns1 b1 ns2 b2 n (f1 f2 : pyval → tree) (xs1 xs2 : list pyval) :
  (∀ v1 v2, rel_val ns1 b1 ns2 b2 n v1 v2 → f1 v1 = f2 v2) →
  Forall2 (rel_val ns1 b1 ns2 b2 n) xs1 xs2 → f1 <$> xs1 = f2 <$> xs2.
Proof.
  intros Hf. induction 1 as [|x y xs ys Hxy _ IH]; simpl; [done|].
  f_equal; [by apply Hf|done].
Qed.

(** Related values of related heaps have the same structure. *)
Lemma view_rel ns1 b1 ns2 b2 n (h1 h2 : heap) :
  rel_objs ns1 b1 ns2 b2 n h1 h2 →
  ∀ fuel v1 v2, rel_val ns1 b1 ns2 b2 n v1 v2 → view fuel h1 v1 = view fuel h2 v2.
Proof.
  intros Hh. induction fuel as [|fuel IH]; intros v1 v2 Hv.
  - destruct v1, v2; simpl in Hv; try done; simpl; congruence.
  - destruct v1 as [| | | | |l1], v2 as [| | | | |l2]; simpl in Hv; try done;
      try (simpl; congruence).
    simpl. pose proof (Hh l1 l2 Hv) as Ho.
    destruct (h1 !! l1) as [o1|], (h2 !! l2) as [o2|]; inversion Ho as [? ? Ho'|]; subst;
      [|done].
    destruct o1, o2; simpl in Ho'; try done; f_equal.
    + by eapply view_list.
    + by eapply view_map.
    + by eapply view_map.
Qed.

(** *** What equal structures have in common *)

Lemma view_plain fuel fuel' (h h' : heap) v v' :
  plain v → view fuel h v = view fuel' h' v' → v' = v.
Proof.
  intros Hv. destruct v; try done; destruct fuel, fuel', v' as [| | | | |l']; simpl;
    try congruence; destruct (h' !! l') as [[]|]; done.
Qed.

Lemma view_plain_list fuel fuel' (h h' : heap) xs xs' :
  Forall plain xs → view fuel h <$> xs = view fuel' h' <$> xs' → xs' = xs.
Proof.
  intros Hxs. revert xs'. induction Hxs as [|x xs Hx _ IH]; intros [|x' xs']; simpl;
    try done.
  intros [= Hhead Htail]. f_equal; [by eapply view_plain|by apply IH].
Qed.

Lemma view_plain_map fuel fuel' (h h' : heap) (d d' : gmap string pyval) :
  plain_map d → view fuel h <$> d = view fuel' h' <$> d' → d' = d.
Proof.
  intros Hd Heq. apply map_eq. intros k.
  assert ((view fuel h <$> d) !! k = (view fuel' h' <$> d') !! k) as Hk by (by rewrite Heq).
  rewrite !lookup_fmap in Hk.
  destruct (d !! k) as [v|] eqn:Hv, (d' !! k) as [v'|]; simpl in Hk; try done.
  injection Hk as Hk. f_equal. eapply view_plain; [|done]. by eapply Hd.
Qed.

Lemma view_attr_inv fuel (h1 h2 : heap) ns1 ns2 a v1 :
  view (S fuel) h1 (VRef ns1) = view (S fuel) h2 (VRef ns2) →
  attr_of h1 ns1 a = Some v1 →
  ∃ v2, attr_of h2 ns2 a = Some v2 ∧ view fuel h1 v1 = view fuel h2 v2.
Proof.
  unfold attr_of. simpl.
  destruct (h1 !! ns1) as [[| |a1]|]; try done.
  destruct (h2 !! ns2) as [[| |a2]|]; try done.
  intros [= Heq] Hv1.
  assert ((view fuel h1 <$> a1) !! a = (view fuel h2 <$> a2) !! a) as Ha by (by rewrite Heq).
  rewrite !lookup_fmap, Hv1 in Ha.
  destruct (a2 !! a) as [v2|]; [|done]. injection Ha as Ha. by exists v2.
Qed.

Lemma view_list_inv fuel (h1 h2 : heap) v1 v2 xs1 :
  view (S fuel) h1 v1 = view (S fuel) h2 v2 →
  list_at h1 v1 = Some xs1 →
  ∃ xs2, list_at h2 v2 = Some xs2 ∧ view fuel h1 <$> xs1 = view fuel h2 <$> xs2.
Proof.
  destruct v1 as [| | | | |l1]; try done. simpl.
  destruct (h1 !! l1) as [[xs| |]|]; try done. intros Heq [= <-].
  destruct v2 as [| | | | |l2]; try done. simpl in *.
  destruct (h2 !! l2) as [[xs2| |]|]; try done. injection Heq as Heq. by exists xs2.
Qed.

Lemma view_dict_inv fuel (h1 h2 : heap) v1 v2 d1 :
  view (S fuel) h1 v1 = view (S fuel) h2 v2 →
  dict_at h1 v1 = Some d1 →
  ∃ d2, dict_at h2 v2 = Some d2 ∧ view fuel h1 <$> d1 = view fuel h2 <$> d2.
Proof.
  destruct v1 as [| | | | |l1]; try done. simpl.
  destruct (h1 !! l1) as [[|d| ]|]; try done. intros Heq [= <-].
  destruct v2 as [| | | | |l2]; try done. simpl in *.
  destruct (h2 !! l2) as [[|d2| ]|]; try done. injection Heq as Heq. by exists d2.
Qed.

(** Two namespaces of the same structure have the same list [style_names],
    the same keys in every category mapping, and the same dictionary under
    every key and every attribute; a list or a dictionary that holds a
    reference has no equal at other addresses, only one of the same
    structure. *)
Lemma same_structure (h1 h2 : heap) (ns1 ns2 : loc) :
  (∀ fuel, view fuel h1 (VRef ns1) = view fuel h2 (VRef ns2)) →
  (∀ xs, style_names_of h1 ns1 = Some xs → Forall plain xs →
         style_names_of h2 ns2 = Some xs) ∧
  (∀ ln cat1, category_of h1 ns1 ln = Some cat1 →
     ∃ cat2, category_of h2 ns2 ln = Some cat2 ∧ dom cat1 = dom cat2) ∧
  (∀ ln name d, category_style h1 ns1 ln name = Some d → plain_map d →
                category_style h2 ns2 ln name = Some d) ∧
  (∀ sn d, style_of h1 ns1 sn = Some d → plain_map d → style_of h2 ns2 sn = Some d).
Proof.
  intros Hview. split_and!.
  - intros xs Hxs Hplain. unfold style_names_of in *.
    destruct (attr_of h1 ns1 "style_names") as [v1|] eqn:Hv1; [|done]. simpl in Hxs.
    destruct (view_attr_inv 1 h1 h2 ns1 ns2 _ v1 (Hview 2) Hv1) as (v2 & Hv2 & Hv). rewrite Hv2. simpl.
    destruct (view_list_inv 0 h1 h2 v1 v2 xs Hv Hxs) as (xs2 & Hxs2 & Heq). rewrite Hxs2.
    f_equal. by eapply view_plain_list.
  - intros ln cat1 Hcat. unfold category_of in *.
    destruct (attr_of h1 ns1 ln) as [v1|] eqn:Hv1; [|done]. simpl in Hcat.
    destruct (view_attr_inv 1 h1 h2 ns1 ns2 _ v1 (Hview 2) Hv1) as (v2 & Hv2 & Hv). rewrite Hv2. simpl.
    destruct (view_dict_inv 0 h1 h2 v1 v2 cat1 Hv Hcat) as (cat2 & Hcat2 & Heq). rewrite Hcat2.
    exists cat2. split; [done|].
    by rewrite <- (dom_fmap_L (view 0 h1) cat1), Heq, dom_fmap_L.
  - intros ln name d Hd Hplain. unfold category_style, category_of in *.
    destruct (attr_of h1 ns1 ln) as [v1|] eqn:Hv1; [|done]. simpl in Hd.
    destruct (dict_at h1 v1) as [cat1|] eqn:Hcat1; [|done].
    destruct (cat1 !! name) as [w1|] eqn:Hw1; [|done].
    destruct (view_attr_inv 2 h1 h2 ns1 ns2 _ v1 (Hview 3) Hv1) as (v2 & Hv2 & Hv). rewrite Hv2. simpl.
    destruct (view_dict_inv 1 h1 h2 v1 v2 cat1 Hv Hcat1) as (cat2 & Hcat2 & Heq). rewrite Hcat2.
    assert ((view 1 h1 <$> cat1) !! name = (view 1 h2 <$> cat2) !! name) as Hname
      by (by rewrite Heq).
    rewrite !lookup_fmap, Hw1 in Hname.
    destruct (cat2 !! name) as [w2|]; [|done]. injection Hname as Hname.
    destruct (view_dict_inv 0 h1 h2 w1 w2 d Hname Hd) as (d2 & Hd2 & Heq2). rewrite Hd2.
    f_equal. by eapply view_plain_map.
  - intros sn d Hd Hplain. unfold style_of in *.
    destruct (attr_of h1 ns1 sn) as [v1|] eqn:Hv1; [|done]. simpl in Hd.
    destruct (view_attr_inv 1 h1 h2 ns1 ns2 _ v1 (Hview 2) Hv1) as (v2 & Hv2 & Hv). rewrite Hv2. simpl.
    destruct (view_dict_inv 0 h1 h2 v1 v2 d Hv Hd) as (d2 & Hd2 & Heq). rewrite Hd2.
    f_equal. by eapply view_plain_map.
Qed.

(** Two runs of [plot_styles] from related heaps end in related heaps. *)
Lemma plot_styles_sim names colors dashes markers lwthick lwthin markerlarge
    markersmall mec mew fillalpha (ns1 ns2 : loc) (h1 h2 : heap) :
  Forall plain_marker markers →
  h1 !! ns1 = Some (ONamespace ∅) →
  h2 !! ns2 = Some (ONamespace ∅) →
  let run1 := plot_styles names colors dashes markers lwthick lwthin markerlarge
                markersmall mec mew fillalpha (Some ns1) h1 in
  let run2 := plot_styles names colors dashes markers lwthick lwthin markerlarge
                markersmall mec mew fillalpha (Some ns2) h2 in
  run1.1 = run2.1 ∧
  ∃ n, rel_heap ns1 (length h1) ns2 (length h2) h1 h2 n run1.2 run2.2.
Proof.
  intros Hmarkers H1 H2 run1 run2.
  destruct (sim_plot_styles ns1 (length h1) ns2 (length h2) h1 h2 0 names colors dashes
              markers lwthick lwthin markerlarge markersmall mec mew fillalpha Hmarkers
              0 h1 h2 (le_n 0) (rel_heap_init ns1 ns2 h1 h2 H1 H2))
    as (n & _ & Hh & Hr).
  split; [by eapply rel_res_same|]. by exists n.
Qed.

(** C7: two calls of [plot_styles] with the same arguments, each into a
    namespace that has no attributes when the call is made, end in the same
    way, either both returning or both raising the same exception, and
    leave registries of the same structure: what is reachable from the one
    namespace after its call and from the other after its call is the
    same at every depth, that is the same attributes, the same list
    [style_names], the same keys in every category mapping and the same
    dictionary under every key.  When the second call is made in the heap
    the first one left (or an extension of it), it does not touch the
    registry of the first.  The marker symbols are values, not
    references. *)
Theorem plot_styles_twice (names colors dashes : arg string) (markers : list marker)
    (lwthick lwthin markerlarge markersmall mec mew fillalpha : num)
    (ns1 ns2 : loc) (h1 h2 h1' h2' : heap) (r1 r2 : result unit) :
  Forall plain_marker markers →
  h1 !! ns1 = Some (ONamespace ∅) →
  h2 !! ns2 = Some (ONamespace ∅) →
  plot_styles names colors dashes markers lwthick lwthin markerlarge markersmall
    mec mew fillalpha (Some ns1) h1 = (r1, h1') →
  plot_styles names colors dashes markers lwthick lwthin markerlarge markersmall
    mec mew fillalpha (Some ns2) h2 = (r2, h2') →
  r1 = r2 ∧
  (∀ fuel, view fuel h1' (VRef ns1) = view fuel h2' (VRef ns2)) ∧
  (h1' `prefix_of` h2 → ns2 ≠ ns1 → ns2 < length h1 ∨ length h1' ≤ ns2 →
   ∀ fuel, view fuel h2' (VRef ns1) = view fuel h1' (VRef ns1)).
Proof.
  intros Hmarkers H1 H2 Hrun1 Hrun2.
  destruct (plot_styles_sim names colors dashes markers lwthick lwthin markerlarge
              markersmall mec mew fillalpha ns1 ns2 h1 h2 Hmarkers H1 H2)
    as (Hr & n & Hh).
  rewrite Hrun1, Hrun2 in Hr, Hh. simpl in Hr, Hh.
  split; [done|]. split.
  - intros fuel. eapply view_rel; [apply Hh|]. by left.
  - intros Hprefix Hns Hfresh fuel. symmetry.
    apply (view_rel ns1 (length h1) ns1 (length h1) n); [|by left].
    destruct Hh as [Hlt1 Hlt2 Hlen1 Hlen2 Hobjs _ Hold].
    assert (∀ l, l = ns1 ∨ (∃ j, j < n ∧ l = length h1 + j) → h2' !! l = h1' !! l)
      as Hsame.
    { intros l Hl.
      assert (l < length h1' ∧ l ≠ ns2) as [Hl1 Hl2].
      { destruct Hl as [->|(j & ? & ->)]; split; lia. }
      rewrite Hold; [|apply prefix_length in Hprefix; lia|done].
      destruct Hprefix as [k ->]. by rewrite lookup_app_l. }
    intros l1 l2 Hl.
    assert (l2 = l1) as -> by (destruct Hl as [[-> ->]|(j & ? & -> & ->)]; done).
    rewrite Hsame by (destruct Hl as [[-> _]|(j & ? & -> & _)]; eauto).
    assert (∃ l', rel_loc ns1 (length h1) ns2 (length h2) n l1 l') as [l' Hl'].
    { destruct Hl as [[-> _]|(j & ? & -> & _)];
        [exists ns2; by left|exists (length h2 + j); right; by exists j]. }
    pose proof (Hobjs l1 l' Hl') as Ho.
    destruct (h1' !! l1), (h2' !! l'); inversion Ho; subst; constructor.
    by eapply rel_obj_diag.
Qed.

(** ** Arguments the generators do not accept *)

(** X1: a generator whose [names] is an empty list does not return
    without styles: the number of styles is at least one, so that
    [names[0]] is looked up and raises [IndexError].  The list
    [style_names] and the categories of the call have been created by
    then; no style has. *)
Theorem empty_names_raise (c : call) (namespace : option loc) (h : heap) :
  let ns := default main_module namespace in
  call_names c = Seq [] →
  registry_ok h ns (call_categories c) →
  ∃ h1, prepare_registry ns (call_categories c) h = (Ok tt, h1) ∧
        run_call namespace c h = (Raise IndexError, h1).
Proof.
  intros ns Hnames Hok. rewrite run_call_expand. fold ns.
  rewrite call_variants_categories.
  pose proof Hok as (_ & attrs & Hns & _).
  destruct (prepare_spec h ns (call_categories c) attrs Hns Hok)
    as (h1 & ls & attrs1 & Hprun & _ & _).
  exists h1. split; [done|].
  rewrite <-bind_assoc. rewrite (run_bind_ok _ _ _ _ _ Hprun).
  destruct (call_count c) as [|n] eqn:Hn.
  { pose proof (style_count_pos (call_lengths c)). unfold call_count in Hn. lia. }
  unfold expand, for_range. simpl. unfold bind, expand_body, bind.
  by rewrite Hnames.
Qed.

Lemma hasattr_no_namespace ns a (h : heap) :
  (∀ attrs, h !! ns ≠ Some (ONamespace attrs)) → py_hasattr ns a h = (Ok false, h).
Proof.
  intros Hns. unfold py_hasattr. destruct (h !! ns) as [[| |attrs]|] eqn:Hl; try done.
  by destruct (Hns attrs).
Qed.

Lemma setattr_no_namespace ns a v (h : heap) :
  (∀ attrs, h !! ns ≠ Some (ONamespace attrs)) →
  py_setattr ns a v h = (Raise AttributeError, h).
Proof.
  intros Hns. unfold py_setattr. destruct (h !! ns) as [[| |attrs]|] eqn:Hl; try done.
  by destruct (Hns attrs).
Qed.

Lemma prepare_style_names_no_namespace ns (h : heap) :
  (∀ attrs, h !! ns ≠ Some (ONamespace attrs)) →
  prepare_style_names ns h = (Raise AttributeError, h ++ [OList []]).
Proof.
  intros Hns. unfold prepare_style_names, bind. rewrite hasattr_no_namespace by done.
  simpl. unfold bind, alloc. apply setattr_no_namespace.
  intros attrs Hl. apply lookup_app_Some in Hl as [Hl|[_ Hl]]; [by eapply Hns|].
  by apply list_lookup_singleton_Some in Hl as [_ ?].
Qed.

(** X2: the namespace has to be an object that takes attributes, a module
    or the like.  With a dictionary (which is what the docstrings ask for),
    a list or anything else, every generator raises [AttributeError] when
    it sets [style_names]: the empty list made for it is left over, and
    nothing that was in the heap has changed. *)
Theorem namespace_without_attributes (c : call) (ns : loc) (h : heap) :
  (∀ attrs, h !! ns ≠ Some (ONamespace attrs)) →
  run_call (Some ns) c h = (Raise AttributeError, h ++ [OList []]).
Proof.
  intros Hns.
  destruct c; simpl; unfold make_linestyles, make_pointstyles, make_fillstyles;
    simpl; unfold bind at 1; by rewrite prepare_style_names_no_namespace.
Qed.

(** The three sub-calls of [make_linepointstyles], in the order of their
    prefixes. *)
Definition linepoint_calls (names : arg string)
    (suffix : string) (colors dashes : arg string) (lws : arg num)
    (markers : list marker) (markersizes markeredgecolors markeredgewidths : arg num)
    (namespace : option loc) (kwargs : gmap string pyval)
  : list (string → M heap unit) :=
  [λ p, make_linestyles p names suffix colors dashes lws namespace kwargs;
   λ p, make_pointstyles p names suffix colors (Scalar "none") (Scalar (num_of_Z 0))
          markers markersizes markeredgecolors markeredgewidths namespace kwargs;
   λ p, make_pointstyles p names suffix colors dashes lws
          markers markersizes markeredgecolors markeredgewidths namespace kwargs].

Lemma for_each_filter_cons_bind {St A B} (t : A → bool) (x : A) (xs : list A)
    (g : A → M St unit) (k : unit → M St B) s :
  bind (for_each (List.filter t (x :: xs)) g) k s =
  bind (if t x then g x else ret tt) (λ _, bind (for_each (List.filter t xs) g) k) s.
Proof.
  simpl. destruct (t x); [|done]. simpl. by rewrite bind_assoc.
Qed.

Lemma if_prefix_nil i (f : string → M heap unit) h :
  if_prefix [] i f h = (Raise IndexError, h).
Proof. unfold if_prefix, bind, lift, prefix_at. by rewrite lookup_nil. Qed.

(** X3: [prefixes] needs three entries.  With fewer,
    [make_linepointstyles] never returns: it generates the categories of
    the prefixes that are there, in order and skipping the empty ones, and
    then raises [IndexError] for the first prefix that is missing. *)
Theorem short_prefixes_raise (prefixes : list (option string)) (names : arg string)
    (suffix : string) (colors dashes : arg string) (lws : arg num)
    (markers : list marker) (markersizes markeredgecolors markeredgewidths : arg num)
    (namespace : option loc) (kwargs : gmap string pyval) (h : heap) :
  let calls := linepoint_calls names suffix colors dashes lws markers markersizes
                 markeredgecolors markeredgewidths
                 (Some (default main_module namespace)) kwargs in
  let run := make_linepointstyles prefixes names suffix colors dashes lws markers
               markersizes markeredgecolors markeredgewidths namespace kwargs h in
  length prefixes < 3 →
  run = (for_each (List.filter (λ pf : option string * (string → M heap unit), truthy pf.1)
                     (zip prefixes calls))
           (λ pf, pf.2 (default "" pf.1)) ;;-
         raise IndexError) h ∧
  (∃ e, run.1 = Raise e) ∧
  (prefixes = [] → run = (Raise IndexError, h)).
Proof.
  intros calls run Hlen.
  assert (run = (for_each (List.filter
                   (λ pf : option string * (string → M heap unit), truthy pf.1)
                   (zip prefixes calls))
                  (λ pf, pf.2 (default "" pf.1)) ;;- raise IndexError) h) as Heq.
  { unfold run, make_linepointstyles, calls, linepoint_calls. cbv zeta.
    destruct prefixes as [|p0 [|p1 [|p2 rest]]]; [| | |simpl in Hlen; lia];
      cbn [zip_with].
    - unfold bind at 1. by rewrite if_prefix_nil.
    - rewrite for_each_filter_cons_bind.
      apply (bind_ext_l_r _ _ _ _ _ (if_prefix_0 _ _ _ _)). intros _ h1.
      rewrite if_prefix_S. unfold bind at 1. by rewrite if_prefix_nil.
    - rewrite for_each_filter_cons_bind.
      apply (bind_ext_l_r _ _ _ _ _ (if_prefix_0 _ _ _ _)). intros _ h1.
      rewrite for_each_filter_cons_bind. rewrite !if_prefix_S.
      apply (bind_ext_l_r _ _ _ _ _ (if_prefix_0 _ _ _ _)). intros _ h2.
      unfold bind at 1. by rewrite if_prefix_nil. }
  split; [done|]. split.
  - rewrite Heq. unfold bind.
    destruct (for_each _ _ h) as [[[]|e] h']; by eexists.
  - intros ->. by rewrite Heq.
Qed.

(** ** Further keyword arguments *)

Definition call_kwargs (c : call) : gmap string pyval :=
  match c with
  | LineStyles _ _ _ _ _ _ kwargs => kwargs
  | PointStyles _ _ _ _ _ _ _ _ _ _ kwargs => kwargs
  | FillStyles _ _ _ _ _ _ _ kwargs => kwargs
  end.

(** The keywords a generator passes to [dict(...)] beside [**kwargs]. *)
Definition call_keywords (c : call) : list string :=
  match c with
  | LineStyles _ _ _ _ _ _ _ => ["color"; "linestyle"; "linewidth"]
  | PointStyles _ _ _ _ _ _ _ _ _ _ _ =>
      ["color"; "linestyle"; "linewidth"; "marker"; "markersize";
       "markeredgecolor"; "markeredgewidth"]
  | FillStyles _ _ _ _ _ _ _ _ => ["facecolor"]
  end.

(** The keys a generator writes with [update] afterwards. *)
Definition call_updates (c : call) : list string :=
  match c with
  | FillStyles _ _ _ _ _ _ _ _ => ["edgecolor"; "linewidth"; "alpha"]
  | _ => []
  end.

Lemma py_dict_kwargs kw kwargs d :
  py_dict kw kwargs = Ok d →
  (∀ key, key ∈ kw.*1 → kwargs !! key = None) ∧
  (∀ key, key ∉ kw.*1 → d !! key = kwargs !! key).
Proof.
  intros Hd. split.
  - intros key ([key' v] & -> & Hin)%list_elem_of_fmap.
    by apply (proj2 (py_dict_Ok _ _ _ Hd) (key', v)).
  - intros key Hkey. by eapply py_dict_lookup_other.
Qed.

Lemma variant_kwargs c (v : variant) k d :
  v ∈ call_variants c → v.2 k = Ok d →
  (∀ key, key ∈ call_keywords c → call_kwargs c !! key = None) ∧
  (∀ key, key ∉ call_keywords c → key ∉ call_updates c →
          d !! key = call_kwargs c !! key).
Proof.
  destruct c as [prefix names suffix colors dashes lws kwargs
                |prefix names suffix colors dashes lws markers markersizes
                   markeredgecolors markeredgewidths kwargs
                |prefix names suffixes colors edgecolors edgewidths fillalphas kwargs];
    simpl.
  - intros ->%list_elem_of_singleton. simpl. unfold line_dict.
    intros (c & _ & (ds & _ & (lw & _ & Hd)%rbind_Ok)%rbind_Ok)%rbind_Ok.
    apply py_dict_kwargs in Hd as [Hnone Hother]. split; [done|].
    intros key Hkey _. by apply Hother.
  - intros ->%list_elem_of_singleton. simpl. unfold point_dict.
    intros (c & _ & (ds & _ & (lw & _ & (mk & _ & (ms & _ & (mc & _ &
      (mw & _ & (symbol & _ & (size & _ & (mec & _ & Hd)%rbind_Ok)%rbind_Ok)
      %rbind_Ok)%rbind_Ok)%rbind_Ok)%rbind_Ok)%rbind_Ok)%rbind_Ok)%rbind_Ok)%rbind_Ok.
    apply py_dict_kwargs in Hd as [Hnone Hother]. split; [done|].
    intros key Hkey _. by apply Hother.
  - intros (j & _ & Hj)%elem_of_fill_variants. rewrite Hj.
    intros (c & ec & ew & fa & _ & _ & _ & _ & Hd)%fill_dict_at_Ok.
    pose proof (fill_dict_entries _ _ _ _ _ _ _ Hd) as (_ & Hother & _).
    split.
    + intros key ->%list_elem_of_singleton. unfold fill_dict in Hd.
      destruct (py_dict _ kwargs) as [fd|e] eqn:Hfd; [|done].
      apply py_dict_kwargs in Hfd as [Hnone _]. apply Hnone. by left.
    + intros key Hkey Hupd. apply Hother.
      * intros ->. apply Hkey. by left.
      * intros ->. apply Hupd. by left.
      * intros ->. apply Hupd. right. by left.
      * intros ->. apply Hupd. do 2 right. by left.
Qed.

(** X4: the further keyword arguments of a call that returns are in every
    dictionary it has generated, each with its value.  They cannot replace
    what the generator itself passes to [dict(...)]: a call with such a
    keyword does not return.  A fill style's
    [edgecolor], [linewidth] and [alpha] are the exception: set by
    [update], they replace a keyword argument of that name. *)
Theorem kwargs_in_every_style (c : call) (namespace : option loc) (h h' : heap) :
  let ns := default main_module namespace in
  let n := call_count c in
  let m := length (call_suffixes c) in
  call_ready h ns c →
  run_call namespace c h = (Ok tt, h') →
  (0 < m → ∀ key, key ∈ call_keywords c → call_kwargs c !! key = None) ∧
  ∃ h1, prepare_registry ns (call_categories c) h = (Ok tt, h1) ∧
    length h' = length h1 + n * m ∧
    ∀ k i, k < n → i < m →
      ∃ d, h' !! (length h1 + (k * m + i)) = Some (ODict d) ∧
        ∀ key, key ∉ call_keywords c → key ∉ call_updates c →
               d !! key = call_kwargs c !! key.
Proof.
  intros ns n m [Hok Hclash] Hrun. rewrite run_call_expand in Hrun. fold ns in Hrun.
  rewrite <-call_variants_categories in Hok |- *.
  rewrite <-call_variants_fst in Hclash.
  assert (m = length (call_variants c)) as Hm
    by (unfold m; by rewrite <-call_variants_fst, length_fmap).
  destruct (multi_call_records h namespace (call_prefix c) (call_names c) (call_variants c)
              (call_count c) Hok Hclash h' Hrun) as (h1 & Hprep & Hlen & Hrecs).
  fold n in Hlen, Hrecs. rewrite <-Hm in Hlen, Hrecs.
  split.
  - intros Hpos key Hkey.
    destruct (lookup_lt_is_Some_2 (call_variants c) 0) as [v Hv]; [lia|].
    destruct (Hrecs 0 0 v) as (d & Hd & _); [apply style_count_pos|done|].
    eapply variant_kwargs; [|done..]. by eapply list_elem_of_lookup_2.
  - exists h1. split; [done|]. split; [done|]. intros k i Hk Hi.
    destruct (lookup_lt_is_Some_2 (call_variants c) i) as [v Hv]; [lia|].
    destruct (Hrecs k i v Hk Hv) as (d & Hd & Hlook).
    exists d. split; [done|].
    eapply variant_kwargs; [|done]. by eapply list_elem_of_lookup_2.
Qed.

(** ** plot_params (lines 511-578)

    [plot_params] reads the line styles [lsGrid] and [lsSpine] of the
    namespace and writes to [mpl.rcParams], which is taken as a plain
    dictionary, as for [color_cycler]. *)

(** The float [0.6]. *)
Variable point_six : num.

(** A value of [mpl.rcParams]: a value as it was passed in or found in a
    style, the lines of the LaTeX preamble, or a color cycle. *)
Inductive rc_setting : Type :=
  | RcVal (v : pyval)
  | RcLines (lines : list string)
  | RcCycle (c : rc_value).

(** The heap and [mpl.rcParams]. *)
Record world : Type := World {
  w_heap : heap;
  w_rc : gmap string rc_setting;
}.

(** An operation on the heap, in the world. *)
Definition on_heap {A} (m : M heap A) : M world A :=
  λ w, let '(r, h') := m (w_heap w) in (r, World h' (w_rc w)).

(** [mpl.rcParams[key] = v] *)
Definition rc_set (key : string) (v : rc_setting) : M world unit :=
  λ w, (Ok tt, World (w_heap w) (<[key := v]> (w_rc w))).

(** [v[key]] for a string [key] *)
Definition py_getitem (v : pyval) (key : string) : M heap pyval :=
  λ h, match v with
       | VRef l =>
           match h !! l with
           | Some (ODict d) =>
               match d !! key with
               | Some x => (Ok x, h)
               | None => (Raise KeyError, h)
               end
           | _ => (Raise TypeError, h)
           end
       | _ => (Raise TypeError, h)
       end.

(** [line[:2]] and [line[2:]] *)
Definition str_take (n : nat) (s : string) : string := String.substring 0 n s.
Definition str_drop (n : nat) (s : string) : string :=
  String.substring n (String.length s - n) s.

(** [[
    [r'\usepackage{%s}' % line[2:] if line[:2] == 'p:' else line for line in preamble]
]] *)
Definition latex_line (line : string) : string :=
  if String.eqb (str_take 2 line) "p:"
  then "\usepackage{" +:+ str_drop 2 line +:+ "}"
  else line.

Definition latex_preamble (preamble : list string) : list string :=
  latex_line <$> preamble.

(** [mpl.rcParams[key] = getattr(namespace, style)[item]] *)
Definition rc_set_from (key : string) (namespace : loc) (style item : string)
  : M world unit :=
  d ←- on_heap (py_getattr namespace style);
  v ←- on_heap (py_getitem d item);
  rc_set key (RcVal v).

Definition plot_params (font_size : num) (font_family : option string)
    (label_size : pyval) (tick_dir : string) (tick_size : num) (legend_size : pyval)
    (latex : bool) (preamble : option (list string)) (fig_color axes_color : pyval)
    (namespace : option loc) : M world unit :=
  let namespace := default main_module namespace in
  rc_set "figure.facecolor" (RcVal fig_color) ;;-
  match font_family with
  | Some family => rc_set "font.family" (RcVal (VStr family))
  | None => ret tt
  end ;;-
  rc_set "font.size" (RcVal (VNum font_size)) ;;-
  rc_set "xtick.labelsize" (RcVal label_size) ;;-
  rc_set "ytick.labelsize" (RcVal label_size) ;;-
  rc_set "xtick.direction" (RcVal (VStr tick_dir)) ;;-
  rc_set "ytick.direction" (RcVal (VStr tick_dir)) ;;-
  rc_set "xtick.major.size" (RcVal (VNum tick_size)) ;;-
  rc_set "ytick.major.size" (RcVal (VNum tick_size)) ;;-
  rc_set "xtick.minor.size" (RcVal (VNum (num_mul point_six tick_size))) ;;-
  rc_set "ytick.minor.size" (RcVal (VNum (num_mul point_six tick_size))) ;;-
  rc_set "legend.fontsize" (RcVal legend_size) ;;-
  grid ←- on_heap (py_hasattr namespace "lsGrid");
  when grid (
    rc_set_from "grid.color" namespace "lsGrid" "color" ;;-
    rc_set_from "grid.linestyle" namespace "lsGrid" "linestyle" ;;-
    rc_set_from "grid.linewidth" namespace "lsGrid" "linewidth") ;;-
  rc_set "axes.facecolor" (RcVal axes_color) ;;-
  spine ←- on_heap (py_hasattr namespace "lsSpine");
  when spine (
    rc_set_from "axes.edgecolor" namespace "lsSpine" "color" ;;-
    rc_set_from "axes.linewidth" namespace "lsSpine" "linewidth") ;;-
  rc_set "text.usetex" (RcVal (VBool latex)) ;;-
  when latex (rc_set "text.latex.unicode" (RcVal (VBool true))) ;;-
  match preamble with
  | Some lines =>
      when latex (rc_set "text.latex.preamble" (RcLines (latex_preamble lines)))
  | None => ret tt
  end.

(** *** The LaTeX preamble *)

Lemma substring_all (s : string) : String.substring 0 (String.length s) s = s.
Proof. induction s as [|c s IH]; [done|]. simpl. by rewrite IH. Qed.

Lemma str_take_package (x : string) : str_take 2 ("p:" +:+ x) = "p:".
Proof. unfold str_take. simpl. by destruct x. Qed.

Lemma str_drop_package (x : string) : str_drop 2 ("p:" +:+ x) = x.
Proof. unfold str_drop. simpl. rewrite Nat.sub_0_r. apply substring_all. Qed.

Lemma str_take_package_inv (line : string) :
  str_take 2 line = "p:" → line = "p:" +:+ str_drop 2 line.
Proof.
  unfold str_take, str_drop. destruct line as [|a [|b rest]]; try done. simpl.
  rewrite Nat.sub_0_r, substring_all. destruct rest; by intros [= -> ->].
Qed.

(** X5: the lines of the preamble are translated one by one: a line
    [p:xxx] becomes [\usepackage{xxx}], every other line stays as it is.
    The result has as many lines as the preamble, and translating it once
    more changes nothing, so that a preamble can be passed on through
    several layers of styles. *)
Theorem latex_preamble_lines (preamble : list string) :
  length (latex_preamble preamble) = length preamble ∧
  latex_preamble (latex_preamble preamble) = latex_preamble preamble ∧
  (∀ i x, preamble !! i = Some ("p:" +:+ x) →
          latex_preamble preamble !! i = Some ("\usepackage{" +:+ x +:+ "}")) ∧
  (∀ i line, preamble !! i = Some line → str_take 2 line ≠ "p:" →
             latex_preamble preamble !! i = Some line).
Proof.
  unfold latex_preamble. split_and!.
  - by rewrite length_fmap.
  - rewrite <-list_fmap_compose. apply list_fmap_ext. intros _ line _.
    unfold compose, latex_line at 2.
    destruct (String.eqb (str_take 2 line) "p:") eqn:Hp.
    + unfold latex_line. by rewrite Hp.
    + unfold latex_line. by rewrite Hp.
  - intros i x Hi. rewrite list_lookup_fmap, Hi.
    change (Some (latex_line ("p:" +:+ x)) = Some ("\usepackage{" +:+ x +:+ "}")).
    unfold latex_line. by rewrite str_take_package, str_drop_package.
  - intros i line Hi Hline. rewrite list_lookup_fmap, Hi.
    change (Some (latex_line line) = Some line).
    unfold latex_line. apply String.eqb_neq in Hline. by rewrite Hline.
Qed.

(** *** What plot_params leaves alone *)

(** The keys of [mpl.rcParams] that [plot_params] writes. *)
Definition plot_params_keys : list string :=
  ["figure.facecolor"; "font.family"; "font.size"; "xtick.labelsize"; "ytick.labelsize";
   "xtick.direction"; "ytick.direction"; "xtick.major.size"; "ytick.major.size";
   "xtick.minor.size"; "ytick.minor.size"; "legend.fontsize";
   "grid.color"; "grid.linestyle"; "grid.linewidth"; "axes.facecolor";
   "axes.edgecolor"; "axes.linewidth";
   "text.usetex"; "text.latex.unicode"; "text.latex.preamble"].

(** [m] keeps [P], whether it returns or raises. *)
Definition keeps {A} (P : world → Prop) (m : M world A) : Prop :=
  ∀ w, P w → P (m w).2.

Lemma keeps_ret {A} P (a : A) : keeps P (ret a).
Proof. by intros w. Qed.

Lemma keeps_bind {A B} P (m : M world A) (f : A → M world B) :
  keeps P m → (∀ a, keeps P (f a)) → keeps P (bind m f).
Proof.
  intros Hm Hf w Hw. unfold bind. specialize (Hm w Hw).
  destruct (m w) as [[a|e] w1]; [by apply Hf|done].
Qed.

Lemma keeps_when P b (m : M world unit) : keeps P m → keeps P (when b m).
Proof. intros Hm. destruct b; [done|apply keeps_ret]. Qed.

(** Reading from the heap changes nothing. *)
Definition reads {A} (m : M heap A) : Prop := ∀ h, (m h).2 = h.

Lemma reads_hasattr ns a : reads (py_hasattr ns a).
Proof. intros h. unfold py_hasattr. by destruct (h !! ns) as [[]|]. Qed.

Lemma reads_getattr ns a : reads (py_getattr ns a).
Proof.
  intros h. unfold py_getattr. destruct (h !! ns) as [[| |attrs]|]; try done.
  by destruct (attrs !! a).
Qed.

Lemma reads_getitem v key : reads (py_getitem v key).
Proof.
  intros h. unfold py_getitem. destruct v as [| | | | |l]; try done.
  destruct (h !! l) as [[|d|]|]; try done. by destruct (d !! key).
Qed.

Lemma keeps_on_heap {A} P (m : M heap A) : reads m → keeps P (on_heap m).
Proof.
  intros Hm [h rc] Hw. unfold on_heap. simpl. specialize (Hm h).
  destruct (m h) as [r h']. simpl in *. by subst.
Qed.

(** The heap of [w0] and its settings outside [keys]. *)
Definition rc_frame (keys : list string) (w0 w : world) : Prop :=
  w_heap w = w_heap w0 ∧
  ∀ key, key ∉ keys → w_rc w !! key = w_rc w0 !! key.

Lemma rc_frame_refl keys w : rc_frame keys w w.
Proof. by split. Qed.

Lemma keeps_rc_set keys w0 key v : key ∈ keys → keeps (rc_frame keys w0) (rc_set key v).
Proof.
  intros Hkey w [Hheap Hrc]. split; [done|]. intros key' Hkey'. simpl.
  rewrite lookup_insert_ne by (by intros ->). by apply Hrc.
Qed.

Lemma keeps_rc_set_from keys w0 key ns style item :
  key ∈ keys → keeps (rc_frame keys w0) (rc_set_from key ns style item).
Proof.
  intros Hkey. unfold rc_set_from.
  apply keeps_bind; [apply keeps_on_heap, reads_getattr|]. intros d.
  apply keeps_bind; [apply keeps_on_heap, reads_getitem|]. intros v.
  by apply keeps_rc_set.
Qed.

(** The steps of [plot_params] one after the other. *)
Ltac keeps_step :=
  lazymatch goal with
  | |- keeps _ (bind _ _) => apply keeps_bind; [|intros ?]
  | |- keeps _ (when _ _) => apply keeps_when
  | |- keeps _ (ret _) => apply keeps_ret
  | |- keeps _ (rc_set _ _) =>
      apply keeps_rc_set; apply (bool_decide_unpack _); by vm_compute
  | |- keeps _ (rc_set_from _ _ _ _) =>
      apply keeps_rc_set_from; apply (bool_decide_unpack _); by vm_compute
  | |- keeps _ (on_heap _) => apply keeps_on_heap, reads_hasattr
  | |- keeps _ (match ?x with _ => _ end) => destruct x
  end.

Ltac keeps_steps := repeat keeps_step.

Lemma keeps_plot_params w0 font_size font_family label_size tick_dir tick_size legend_size
    latex preamble fig_color axes_color namespace :
  keeps (rc_frame plot_params_keys w0)
    (plot_params font_size font_family label_size tick_dir tick_size legend_size
       latex preamble fig_color axes_color namespace).
Proof. unfold plot_params. keeps_steps. Qed.

(** X6: whether it returns or raises, [plot_params] changes nothing in the
    heap, the namespace and its styles included, and in [mpl.rcParams] it
    changes no key but its own; the color cycle, for one, stays. *)
Theorem plot_params_frame font_size font_family label_size tick_dir tick_size legend_size
    latex preamble fig_color axes_color namespace (w : world) :
  let w' := (plot_params font_size font_family label_size tick_dir tick_size legend_size
               latex preamble fig_color axes_color namespace w).2 in
  w_heap w' = w_heap w ∧
  (∀ key, key ∉ plot_params_keys → w_rc w' !! key = w_rc w !! key) ∧
  w_rc w' !! "axes.prop_cycle" = w_rc w !! "axes.prop_cycle" ∧
  w_rc w' !! "axes.color_cycle" = w_rc w !! "axes.color_cycle".
Proof.
  intros w'.
  destruct (keeps_plot_params w font_size font_family label_size tick_dir tick_size
              legend_size latex preamble fig_color axes_color namespace w
              (rc_frame_refl _ w))
    as [Hheap Hrc].
  split; [done|]. split; [done|].
  split; apply Hrc; apply (bool_decide_unpack _); by vm_compute.
Qed.

(** *** The grid and the spines *)










(** ** What a generator writes to

    The generators write to the namespace, to the list [style_names] and
    to the category dictionaries, and to what they have made themselves.
    [framed h] says so of the heap [h] of a run that started on [h0]; it
    holds without any assumption on the namespace or on the arguments. *)

Section frame.
Context (h0 : heap) (ns : loc) (keys : list string).

(** What an attribute of [keys] of the namespace referred to at the
    start. *)
Definition registry_object (l : loc) : Prop :=
  ∃ a, a ∈ keys ∧ attr_of h0 ns a = Some (VRef l).

Record framed (h : heap) : Prop := {
  fr_len : length h0 ≤ length h;
  fr_old : ∀ l, l < length h0 → l ≠ ns → ¬ registry_object l → h !! l = h0 !! l;
  fr_attrs : ∀ attrs a l,
    h !! ns = Some (ONamespace attrs) → a ∈ keys → attrs !! a = Some (VRef l) →
    l < length h0 → attr_of h0 ns a = Some (VRef l);
  fr_keep : ∀ a, is_Some (attr_of h0 ns a) → is_Some (attr_of h ns a);
}.

(** [m] keeps the frame, whether it returns or raises, and what it returns
    satisfies [Q]. *)
Definition steps {A} (Q : A → Prop) (m : M heap A) : Prop :=
  ∀ h, framed h → framed (m h).2 ∧ ∀ a, (m h).1 = Ok a → Q a.

(** A value that, if it refers to an object of the start, refers to one of
    the registry. *)
Definition writable (v : pyval) : Prop :=
  ∀ l, v = VRef l → l < length h0 → registry_object l.

Definition any {A} : A → Prop := λ _, True.

Lemma framed_start : framed h0.
Proof.
  split; [done|done| |done]. intros attrs a l Hns _ Ha _. unfold attr_of. by rewrite Hns.
Qed.

Lemma attr_of_Some (h : heap) a v :
  attr_of h ns a = Some v ↔ ∃ attrs, h !! ns = Some (ONamespace attrs) ∧ attrs !! a = Some v.
Proof.
  unfold attr_of. destruct (h !! ns) as [[| |attrs]|]; split; try done.
  - by intros (? & ? & _).
  - by intros (? & ? & _).
  - intros Hv. by exists attrs.
  - by intros (? & [= <-] & ?).
  - by intros (? & ? & _).
Qed.

Lemma steps_ret {A} (Q : A → Prop) a : Q a → steps Q (ret a).
Proof. intros Ha h Hh. split; [done|]. by intros ? [= <-]. Qed.

Lemma steps_lift {A} (r : result A) : steps any (lift r).
Proof. by intros h Hh. Qed.

Lemma steps_bind {A B} (Q : A → Prop) (R : B → Prop) (m : M heap A) (f : A → M heap B) :
  steps Q m → (∀ a, Q a → steps R (f a)) → steps R (bind m f).
Proof.
  intros Hm Hf h Hh. unfold bind. destruct (Hm h Hh) as [H1 H2].
  destruct (m h) as [[a|e] h1]; simpl in *; [by apply Hf; [apply H2|]|done].
Qed.

Lemma steps_when b (m : M heap unit) : steps any m → steps any (when b m).
Proof. intros Hm. destruct b; [done|by apply steps_ret]. Qed.

Lemma steps_for_each {A} (xs : list A) (f : A → M heap unit) :
  (∀ x, x ∈ xs → steps any (f x)) → steps any (for_each xs f).
Proof.
  induction xs as [|x xs IH]; intros Hf; simpl; [by apply steps_ret|].
  eapply steps_bind; [apply Hf; by left|]. intros _ _. apply IH.
  intros y Hy. apply Hf. by right.
Qed.

Lemma steps_reads {A} (m : M heap A) : (∀ h, (m h).2 = h) → steps any m.
Proof. intros Hm h Hh. by rewrite Hm. Qed.

Lemma steps_alloc (o : obj) :
  (∀ attrs, o ≠ ONamespace attrs) → steps (λ r, length h0 ≤ r) (alloc o).
Proof.
  intros Ho h [Hlen Hold Hattrs Hkeep]. unfold alloc. simpl. split; [|by intros ? [= <-]].
  split.
  - rewrite length_app. lia.
  - intros l Hl Hne Hreg. rewrite lookup_app_l by lia. by apply Hold.
  - intros attrs a l Hns. apply lookup_app_Some in Hns as [Hns|[_ Hns]]; [by eapply Hattrs|].
    apply list_lookup_singleton_Some in Hns as [_ ->]. by destruct (Ho attrs).
  - intros a [v (attrs & Hns & Hv)%attr_of_Some]%Hkeep. exists v.
    apply attr_of_Some. exists attrs. split; [|done]. by apply lookup_app_l_Some.
Qed.

Lemma steps_getattr a : a ∈ keys → steps writable (py_getattr ns a).
Proof.
  intros Ha h Hh. unfold py_getattr.
  destruct (h !! ns) as [[| |attrs]|] eqn:Hns; try done.
  destruct (attrs !! a) as [v|] eqn:Hv; [|done]. simpl. split; [done|].
  intros ? [= <-] l -> Hl. exists a. split; [done|]. by eapply (fr_attrs _ Hh).
Qed.

Lemma steps_setattr a r : length h0 ≤ r → steps any (py_setattr ns a (VRef r)).
Proof.
  intros Hr h Hh. unfold py_setattr.
  destruct (h !! ns) as [[| |attrs]|] eqn:Hns; try done. simpl. split; [|done].
  destruct Hh as [Hlen Hold Hattrs Hkeep]. split.
  - by rewrite length_insert.
  - intros l Hl Hne Hreg. rewrite list_lookup_insert_ne by done. by apply Hold.
  - intros attrs' a' l. rewrite list_lookup_insert_eq by (by eapply lookup_lt_Some).
    intros [= <-] Ha' Hl Hlt. destruct (decide (a' = a)) as [->|].
    + rewrite lookup_insert_eq in Hl. injection Hl as <-. lia.
    + rewrite lookup_insert_ne in Hl by done. by eapply Hattrs.
  - intros a' [v (attrs' & Hns' & Hv)%attr_of_Some]%Hkeep.
    assert (attrs' = attrs) as -> by congruence.
    unfold attr_of. rewrite list_lookup_insert_eq by (by eapply lookup_lt_Some).
    destruct (decide (a' = a)) as [->|].
    + rewrite lookup_insert_eq. by eexists.
    + rewrite lookup_insert_ne by done. by eexists.
Qed.

Lemma framed_insert (h : heap) l o :
  framed h → l < length h → (l < length h0 → registry_object l) →
  (∀ attrs, h !! l ≠ Some (ONamespace attrs)) →
  (∀ attrs, o ≠ ONamespace attrs) →
  framed (<[l := o]> h).
Proof.
  intros [Hlen Hold Hattrs Hkeep] Hl Hreg Hno Ho. split.
  - by rewrite length_insert.
  - intros l' Hl' Hne Hnot. destruct (decide (l' = l)) as [->|].
    + by destruct Hnot; apply Hreg.
    + rewrite list_lookup_insert_ne by done. by apply Hold.
  - intros attrs a l'. destruct (decide (l = ns)) as [->|].
    + rewrite list_lookup_insert_eq by done. intros [= ->]. by destruct (Ho attrs).
    + rewrite list_lookup_insert_ne by done. apply Hattrs.
  - intros a [v (attrs & Hns & Hv)%attr_of_Some]%Hkeep. exists v.
    apply attr_of_Some. exists attrs. split; [|done].
    rewrite list_lookup_insert_ne; [done|]. intros ->. by destruct (Hno attrs).
Qed.

Lemma steps_append v x : writable v → steps any (py_append v x).
Proof.
  intros Hv h Hh. unfold py_append. destruct v as [| | | | |l]; try done.
  destruct (h !! l) as [[xs| |]|] eqn:Hl; try done. simpl. split; [|done].
  apply framed_insert; [done|by eapply lookup_lt_Some|by apply Hv|by rewrite Hl|done].
Qed.

Lemma steps_setitem v name x : writable v → steps any (py_setitem v name x).
Proof.
  intros Hv h Hh. unfold py_setitem. destruct v as [| | | | |l]; try done.
  destruct (h !! l) as [[|d|]|] eqn:Hl; try done. simpl. split; [|done].
  apply framed_insert; [done|by eapply lookup_lt_Some|by apply Hv|by rewrite Hl|done].
Qed.

Lemma steps_contains v name : steps any (py_contains v name).
Proof.
  apply steps_reads. intros h. unfold py_contains.
  destruct v as [| | | | |l]; try done. by destruct (h !! l) as [[]|].
Qed.

(** *** The code shared by the generators *)

Lemma steps_prepare_style_names : steps any (prepare_style_names ns).
Proof.
  unfold prepare_style_names.
  eapply steps_bind; [apply steps_reads, reads_hasattr|]. intros b _.
  apply steps_when. eapply steps_bind; [by apply steps_alloc|]. intros l Hl.
  by apply steps_setattr.
Qed.

Lemma steps_prepare_category ln : steps any (prepare_category ns ln).
Proof.
  unfold prepare_category.
  eapply steps_bind; [apply steps_reads, reads_hasattr|]. intros b _.
  apply steps_when. eapply steps_bind; [by apply steps_alloc|]. intros l Hl.
  by apply steps_setattr.
Qed.

Lemma steps_add_style_name name :
  "style_names" ∈ keys → steps any (add_style_name ns name).
Proof.
  intros Hkey. unfold add_style_name.
  eapply steps_bind; [by apply steps_getattr|]. intros sns _.
  eapply steps_bind; [apply steps_contains|]. intros b _.
  apply steps_when. eapply steps_bind; [by apply steps_getattr|]. intros sns' Hsns.
  by apply steps_append.
Qed.

Lemma steps_new_style sn ln name d :
  ln ∈ keys → steps any (new_style ns sn ln name d).
Proof.
  intros Hkey. unfold new_style, register.
  eapply steps_bind; [apply steps_lift|]. intros d' _.
  eapply steps_bind; [by apply steps_alloc|]. intros r Hr.
  eapply steps_bind; [by apply steps_setattr|]. intros _ _.
  eapply steps_bind; [by apply steps_getattr|]. intros cat Hcat.
  by apply steps_setitem.
Qed.

Lemma steps_expand prefix names (vs : list variant) n :
  "style_names" ∈ keys → (∀ v, v ∈ vs → prefix +:+ v.1 ∈ keys) →
  steps any (expand ns prefix names vs n).
Proof.
  intros Hnames Hcats. unfold expand, for_range. apply steps_for_each. intros k _.
  unfold expand_body.
  eapply steps_bind; [apply steps_lift|]. intros name _.
  eapply steps_bind; [by apply steps_add_style_name|]. intros _ _.
  apply steps_for_each. intros v Hv. apply steps_new_style. by apply Hcats.
Qed.
End frame.

(** X9: a call of a generator, whether it returns or raises and whatever
    its arguments are, takes no object from the heap and changes none that
    was there, except the namespace, the list that was its [style_names]
    and the dictionaries that were its categories of the call; a style
    dictionary of an earlier call, for one, stays as it is.  The namespace
    loses no attribute. *)
Theorem generators_write_registry_only (c : call) (namespace : option loc) (h : heap) :
  let ns := default main_module namespace in
  let h' := (run_call namespace c h).2 in
  length h ≤ length h' ∧
  (∀ l, l < length h → l ≠ ns →
    (∀ a, a ∈ "style_names" :: call_categories c → attr_of h ns a ≠ Some (VRef l)) →
    h' !! l = h !! l) ∧
  (∀ a, is_Some (attr_of h ns a) → is_Some (attr_of h' ns a)).
Proof.
  intros ns h'. unfold h'. rewrite run_call_expand. fold ns.
  rewrite call_variants_categories.
  set (keys := "style_names" :: call_categories c).
  assert (steps h ns keys any
            (prepare_style_names ns ;;-
             for_each (call_categories c) (prepare_category ns) ;;-
             expand ns (call_prefix c) (call_names c) (call_variants c) (call_count c)))
    as Hsteps.
  { eapply steps_bind; [apply steps_prepare_style_names|]. intros _ _.
    eapply steps_bind.
    { apply steps_for_each. intros ln _. apply steps_prepare_category. }
    intros _ _. apply steps_expand; [by left|].
    intros v Hv. right. rewrite <-call_variants_categories.
    apply list_elem_of_fmap. by exists v. }
  destruct (Hsteps h (framed_start h ns keys)) as [[Hlen Hold _ Hkeep] _].
  split_and!; [done| |done]. intros l Hl Hne Hnot. apply Hold; [done..|].
  intros (a & Ha & Hattr). by apply (Hnot a).
Qed.

(** ** plot_styles as a sequence of calls *)

(** The calls of the generators that [plot_styles] makes, by way of
    [make_linepointstyles], in their order.  The second call of
    [make_linepointstyles] has an empty first prefix: there are no line
    styles with suffix ['c']. *)
Definition plot_styles_calls (names : arg string) (colors dashes : arg string)
    (markers : list marker)
    (lwthick lwthin markerlarge markersmall mec mew fillalpha : num) : list call :=
  let circle : list marker := [MPair (VStr "o") (num_of_Z 1)] in
  let none := Scalar "none" in
  let zero := Scalar (num_of_Z 0) in
  [LineStyles "ls" names "" colors dashes (Scalar lwthick) ∅;
   PointStyles "ps" names "" colors none zero markers
     (Scalar markerlarge) (Scalar mec) (Scalar mew) ∅;
   PointStyles "lps" names "" colors dashes (Scalar lwthick) markers
     (Scalar markerlarge) (Scalar mec) (Scalar mew) ∅;
   PointStyles "ps" names "c" colors none zero circle
     (Scalar markerlarge) (Scalar mec) (Scalar mew) ∅;
   PointStyles "lps" names "c" colors dashes (Scalar lwthick) circle
     (Scalar markerlarge) (Scalar mec) (Scalar mew) ∅;
   LineStyles "ls" names "m" colors dashes (Scalar lwthin) ∅;
   PointStyles "ps" names "m" colors none zero circle
     (Scalar markersmall) (Scalar mec) (Scalar mew) ∅;
   PointStyles "lps" names "m" colors dashes (Scalar lwthin) circle
     (Scalar markersmall) (Scalar mec) (Scalar mew) ∅;
   FillStyles "fs" names [Some ""; Some "s"; Some "a"] colors
     (Scalar mec) (Scalar mew) (Scalar fillalpha) ∅].

Lemma if_prefix_run (prefixes : list (option string)) i (f : string → M heap unit) h :
  if_prefix prefixes i f h
  = match prefixes !! i with
    | Some p => (if truthy p then f (default "" p) else ret tt) h
    | None => (Raise IndexError, h)
    end.
Proof.
  unfold if_prefix, prefix_at, bind, lift. destruct (prefixes !! i) as [[s|]|]; [|done..].
  simpl. by destruct (String.eqb s "").
Qed.

Lemma run_bind_ret {St A B} (a : A) (f : A → M St B) s : bind (ret a) f s = f a s.
Proof. done. Qed.

Lemma plot_styles_run_calls names colors dashes markers
    lwthick lwthin markerlarge markersmall mec mew fillalpha namespace h :
  plot_styles names colors dashes markers lwthick lwthin markerlarge markersmall
    mec mew fillalpha namespace h
  = run_calls (Some (default main_module namespace))
      (plot_styles_calls names colors dashes markers lwthick lwthin markerlarge
         markersmall mec mew fillalpha) h.
Proof.
  unfold plot_styles, run_calls, plot_styles_calls, make_linepointstyles.
  cbn [for_each run_call]. revert h.
  repeat first
    [ intros h; apply bind_ext_l_r; [by rewrite if_prefix_run|intros [] ?]; revert h
    | intros h; rewrite (bind_ext_l _ (ret tt)) by (by rewrite if_prefix_run);
      rewrite run_bind_ret; revert h
    | intros h; rewrite bind_assoc; revert h ].
  intros h. by rewrite bind_ret_unit.
Qed.

Lemma foldl_add_str_absorb S names :
  (∀ x, x ∈ names → x ∈ S) → foldl add_str S names = S.
Proof.
  induction names as [|name names IH]; intros Hin; [done|]. simpl.
  unfold add_str at 2. rewrite bool_decide_eq_true_2 by (apply Hin; by left).
  apply IH. intros x Hx. apply Hin. by right.
Qed.

Lemma dedup_names_repeated (cs : list call) (c : call) (xs : list string) :
  (∀ c', c' ∈ c :: cs → call_style_names c' = xs) →
  dedup_names (all_names (c :: cs)) = dedup_names xs.
Proof.
  intros Hxs. rewrite all_names_cons. unfold dedup_names. rewrite foldl_app.
  rewrite (Hxs c) by (by left). apply foldl_add_str_absorb.
  intros x (c' & Hx & Hc')%list_elem_of_bind.
  rewrite (Hxs c') in Hx by (by right).
  apply foldl_add_str_elem. by right.
Qed.

(** X10: [plot_styles] is nine calls of the generators, line, point and
    linepoint styles without suffix and with suffix ['m'], point and
    linepoint styles with suffix ['c'], and the fill styles.  Although each
    of the nine adds every name, on a namespace that had no attributes
    [style_names] holds the names once each, in the order of their first
    occurrence, and the eleven category dictionaries have no key that is
    not one of the names. *)
Theorem plot_styles_names (xs : list string) (colors dashes : arg string)
    (markers : list marker)
    (lwthick lwthin markerlarge markersmall mec mew fillalpha : num)
    (namespace : option loc) (h h' : heap) :
  let ns := default main_module namespace in
  let cs := plot_styles_calls (Seq xs) colors dashes markers lwthick lwthin
              markerlarge markersmall mec mew fillalpha in
  h !! ns = Some (ONamespace ∅) →
  calls_no_clash cs →
  plot_styles (Seq xs) colors dashes markers lwthick lwthin markerlarge markersmall
    mec mew fillalpha namespace h = (Ok tt, h') →
  run_calls (Some ns) cs h = (Ok tt, h') ∧
  names0 h' ns = VStr <$> dedup_names xs ∧
  NoDup (dedup_names xs) ∧
  (∀ c, c ∈ cs → call_count c = length xs) ∧
  ∀ ln cat key,
    ln ∈ ["ls"; "ps"; "lps"; "psc"; "lpsc"; "lsm"; "psm"; "lpsm"; "fs"; "fss"; "fsa"] →
    category_of h' ns ln = Some cat → is_Some (cat !! key) → key ∈ xs.
Proof.
  intros ns cs Hns [Hsn Hattrs] Hrun. rewrite plot_styles_run_calls in Hrun. fold ns cs in Hrun.
  destruct (run_calls_inv (Some ns) (all_categories cs) cs [] h h')
    as [[Hok Hnames Hnodup Hcats] Hlens]; [done|done|by apply registry_inv_fresh|done|].
  cbv zeta in Hnames, Hcats, Hlens.
  assert (∀ c, c ∈ cs → call_style_names c = xs) as Hxs.
  { intros c Hc. apply call_style_names_seq; [|by apply Hlens].
    unfold cs, plot_styles_calls in Hc.
    repeat (apply elem_of_cons in Hc as [->|Hc]; [done|]). by apply elem_of_nil in Hc. }
  assert (foldl add_str [] (all_names cs) = dedup_names xs) as Hdedup
    by apply dedup_names_repeated, Hxs.
  rewrite Hdedup in Hnames, Hnodup, Hcats.
  split_and!; [done..| |].
  - intros c Hc. by rewrite <-(Hlens c Hc), (Hxs c Hc).
  - intros ln cat key Hln Hcat Hkey.
    assert (key ∈ dedup_names xs) as Hin by (by eapply Hcats).
    apply foldl_add_str_elem in Hin as [[]%elem_of_nil|]; done.
Qed.

(** ** The display functions (lines 838-965)

    [plot_linestyles], [plot_pointstyles], [plot_linepointstyles] and
    [plot_fillstyles] read the list [style_names] and the category
    dictionaries of the module and call methods of a matplotlib axes.  The
    list and the dictionaries are arguments here, the list with its names
    and each category with the dictionaries of its styles; the axes is the
    sequence of the calls made on it.  Coordinates are kept as the
    expressions the code computes, with the float literals as they are
    written. *)







(** A category: the style dictionaries by name. *)
Abbreviation category := (gmap string (gmap string pyval)).





(** *** One column per name that has a style *)

















End Styles.

(** ** The color cycle *)

Lemma color_cycle_omap palette colors :
  color_cycle palette colors = Ok (omap (λ c, palette !! c) colors).
Proof.
  induction colors as [|c colors IH]; [done|]. simpl.
  destruct (palette !! c) as [v|] eqn:Hc.
  - rewrite bool_decide_true by eauto. by rewrite IH.
  - rewrite bool_decide_false by (by intros [? ?]). done.
Qed.

Lemma length_omap_le {A B} (f : A → option B) (xs : list A) :
  length (omap f xs) ≤ length xs.
Proof.
  induction xs as [|x xs IH]; [done|].
  change (omap f (x :: xs)) with (match f x with Some y => y :: omap f xs | None => omap f xs end).
  destruct (f x); simpl; lia.
Qed.

Lemma length_omap_lt {A B} (f : A → option B) (xs : list A) x :
  x ∈ xs → f x = None → length (omap f xs) < length xs.
Proof.
  induction xs as [|y xs IH]; intros Hx Hf; [by apply elem_of_nil in Hx|].
  change (omap f (y :: xs)) with (match f y with Some z => z :: omap f xs | None => omap f xs end).
  apply elem_of_cons in Hx as [<-|Hx].
  - rewrite Hf. pose proof (length_omap_le f xs). simpl. lia.
  - specialize (IH Hx Hf). destruct (f y); simpl; lia.
Qed.

(** C10: the color cycle handed to the rendering configuration is the list
    of the palette values of the requested names that are in the palette, in
    the order requested; a name that is not in the palette is skipped, no
    error is raised, and the cycle is then shorter than the request. *)
Theorem color_cycler_filters (palette : gmap string string) (colors : list string)
    (rcParams : gmap string rc_value) :
  let cycle := omap (λ c, palette !! c) colors in
  color_cycle palette colors = Ok cycle ∧
  color_cycler palette colors rcParams =
    (Ok tt, if bool_decide (is_Some (rcParams !! "axes.prop_cycle"))
            then <["axes.prop_cycle" := RcCycler "color" cycle]> rcParams
            else <["axes.color_cycle" := RcList cycle]> rcParams) ∧
  length cycle ≤ length colors ∧
  (∀ c, c ∈ colors → palette !! c = None → length cycle < length colors).
Proof.
  intros cycle. split; [apply color_cycle_omap|]. split.
  - unfold color_cycler, bind, lift. rewrite color_cycle_omap. fold cycle.
    by destruct (bool_decide _).
  - split; [apply length_omap_le|]. intros c Hc Hnone. by eapply length_omap_lt.
Qed.

(** ** Concrete inputs

    To evaluate the generators, numbers are taken to be integers, and the
    functions from outside the module are replaced by stand-ins:
    [lighter] records the color and the factor it was called with, the
    string formatting fills in the first [%d], and a string times an
    integer is its repetition. *)

Definition demo_lighter (c : string) (f : Z) : result string :=
  Ok ("lighter(" +:+ c +:+ "," +:+ pretty f +:+ ")").

Fixpoint fill_in (s : string) (x : string) : option string :=
  match s with
  | EmptyString => None
  | String c rest =>
      match rest with
      | String d rest' =>
          if Ascii.eqb c "%"%char && Ascii.eqb d "d"%char then Some (x +:+ rest')
          else String c <$> fill_in rest x
      | EmptyString => None
      end
  end.

Definition demo_str_mod (s : string) (i : Z) : result string :=
  match fill_in s (pretty i) with
  | Some r => Ok r
  | None => Raise ValueError
  end.

Definition demo_str_mul (s : string) (n : Z) : result (@pyval Z) :=
  Ok (VStr (String.concat EmptyString (replicate (Z.to_nat n) s))).

(** A heap with nothing but an empty module [__main__]. *)
Definition fresh_heap : list (@obj Z) := [ONamespace ∅].

Definition demo_call : option nat → @call Z → M (list (@obj Z)) unit :=
  run_call Z.mul demo_lighter demo_str_mod demo_str_mul.

(** The call of the docstring of [make_linestyles]:
    [make_linestyles('ls', ['Red', 'Green'], 'm', ['r', 'g'], ['-', '--'], 0.5)],
    with a width of 1. *)
Definition red_green : @call Z :=
  LineStyles "ls" (Seq ["Red"; "Green"]) "m" (Seq ["r"; "g"]) (Seq ["-"; "--"])
    (Scalar 1%Z) ∅.


(** The call of the docstring of [make_fillstyles]:
    [make_fillstyles('fs', 'PSD', ['', 's', 'a'], [#00FF00], 2.0, 0.5, 0.4)],
    with a scalar color and integer numbers. *)
Definition psd_fill : @call Z :=
  FillStyles "fs" (Scalar "PSD") [Some ""; Some "s"; Some "a"] (Scalar "#00FF00")
    (Scalar 2%Z) (Scalar 1%Z) (Scalar 4%Z) ∅.



(** [make_pointstyles('ps', 'Reds%d', 'c', ['red', 'orange', 'yellow'],
    'none', 0, (('o', 1),), 8, 1, 0)], after the docstring of
    [make_pointstyles]. *)
Definition reds : @call Z :=
  PointStyles "ps" (Scalar "Reds%d") "c" (Seq ["red"; "orange"; "yellow"])
    (Scalar "none") (Scalar 0%Z) [MPair (VStr "o") 1%Z] (Scalar 8%Z) (Scalar 1%Z)
    (Scalar 0%Z) ∅.

Lemma demo_ready (c : @call Z) :
  "style_names" ∉ call_categories c →
  no_clashb demo_str_mod (call_prefix c) (call_names c) (call_suffixes c) (call_count c)
    = true →
  call_ready demo_str_mod fresh_heap 0 c.
Proof.
  intros Hnotin Hclash. split; [by apply registry_ok_fresh|by apply no_clashb_correct].
Defined.

Lemma single_marker_for_all_witness :
  call_ready demo_str_mod fresh_heap 0 reds ∧
  demo_call None reds fresh_heap = (Ok tt, (demo_call None reds fresh_heap).2) ∧
  ∃ h1, prepare_registry 0 ["psc"] fresh_heap = (Ok tt, h1) ∧
    length (demo_call None reds fresh_heap).2 = length h1 + 3 ∧
    ∀ k, k < 3 →
      ∃ d ms, (demo_call None reds fresh_heap).2 !! (length h1 + k) = Some (ODict d) ∧
        pick (Scalar 8%Z) k = Ok ms ∧
        d !! "marker" = Some (VStr "o") ∧
        d !! "markersize" = Some (VNum (1 * ms)%Z).
Proof.
  assert (call_ready demo_str_mod fresh_heap 0 reds) as Hready.
  { apply demo_ready; [by apply (bool_decide_unpack _)|done]. }
  assert (demo_call None reds fresh_heap = (Ok tt, (demo_call None reds fresh_heap).2))
    as Hrun by (by vm_compute).
  split; [exact Hready|]. split; [exact Hrun|].
  exact (single_marker_for_all Z.mul demo_lighter demo_str_mod demo_str_mul "ps" (Scalar "Reds%d") "c"
           (Seq ["red"; "orange"; "yellow"]) (Scalar "none") (Scalar 0%Z)
           (VStr "o") 1%Z (Scalar 8%Z) (Scalar 1%Z) (Scalar 0%Z) None ∅ fresh_heap _
           Hready Hrun).
Defined.

(** One name for two colors. *)
Definition male_twice : @call Z :=
  LineStyles "ls" (Scalar "Male") "" (Seq ["blue"; "red"]) (Scalar "-") (Scalar 2%Z) ∅.

Lemma scalar_name_last_wins_witness :
  has_percent "Male" = false ∧
  call_ready demo_str_mod fresh_heap 0 male_twice ∧
  demo_call None male_twice fresh_heap
    = (Ok tt, (demo_call None male_twice fresh_heap).2) ∧
  ∃ h1 d cat,
    prepare_registry 0 ["ls"] fresh_heap = (Ok tt, h1) ∧
    length (demo_call None male_twice fresh_heap).2 = length h1 + 2 ∧
    line_dict (Seq ["blue"; "red"]) (Scalar "-") (Scalar 2%Z) ∅ 1 = Ok d ∧
    (demo_call None male_twice fresh_heap).2 !! (length h1 + 1) = Some (ODict d) ∧
    attr_of (demo_call None male_twice fresh_heap).2 0 "lsMale"
      = Some (VRef (length h1 + 1)) ∧
    category_of (demo_call None male_twice fresh_heap).2 0 "ls" = Some cat ∧
    cat !! "Male" = Some (VRef (length h1 + 1)) ∧
    style_names_of (demo_call None male_twice fresh_heap).2 0
      = Some (add_name (names0 fresh_heap 0) "Male") ∧
    (style_names_of fresh_heap 0 = None →
     style_names_of (demo_call None male_twice fresh_heap).2 0 = Some [VStr "Male"]).
Proof.
  assert (call_ready demo_str_mod fresh_heap 0 male_twice) as Hready.
  { apply demo_ready; [by apply (bool_decide_unpack _)|done]. }
  assert (demo_call None male_twice fresh_heap
          = (Ok tt, (demo_call None male_twice fresh_heap).2)) as Hrun by (by vm_compute).
  split; [done|]. split; [exact Hready|]. split; [exact Hrun|].
  exact (scalar_name_last_wins demo_str_mod "ls" "Male" "" (Seq ["blue"; "red"])
           (Scalar "-") (Scalar 2%Z) None ∅ fresh_heap _ eq_refl Hready Hrun).
Defined.

(** Three names for two colors. *)
Definition short_colors : @call Z :=
  LineStyles "ls" (Seq ["A"; "B"; "C"]) "" (Seq ["r"; "g"]) (Scalar "-") (Scalar 1%Z) ∅.

Lemma no_rollback_witness :
  call_ready demo_str_mod fresh_heap 0 short_colors ∧
  2 < call_count short_colors ∧
  too_short (Seq ["r"; "g"]) 2 ∧
  ∃ h1 h',
    prepare_registry 0 ["ls"] fresh_heap = (Ok tt, h1) ∧
    demo_call None short_colors fresh_heap = (Raise IndexError, h') ∧
    length h' = length h1 + 2 ∧
    style_names_of h' 0 = Some [VStr "A"; VStr "B"; VStr "C"] ∧
    is_Some (attr_of h' 0 "lsA") ∧ is_Some (attr_of h' 0 "lsB") ∧
    attr_of h' 0 "lsC" = None.
Proof.
  assert (call_ready demo_str_mod fresh_heap 0 short_colors) as Hready.
  { apply demo_ready; [by apply (bool_decide_unpack _)|done]. }
  assert (2 < call_count short_colors) as Hk by (vm_compute; lia).
  assert (too_short (Seq ["r"; "g"]) 2) as Hshort by (exists ["r"; "g"]; split; [done|simpl; lia]).
  assert (∀ j, j < 2 → ∃ nm d,
            style_name demo_str_mod (Seq ["A"; "B"; "C"]) j = Ok nm ∧
            line_dict (Seq ["r"; "g"]) (Scalar "-") (Scalar 1%Z) ∅ j = Ok d) as Hbefore.
  { intros [|[|j]] Hj; [by eexists _, _..|lia]. }
  split; [exact Hready|]. split; [exact Hk|]. split; [exact Hshort|].
  destruct (no_rollback demo_str_mod "ls" (Seq ["A"; "B"; "C"]) "" (Seq ["r"; "g"])
              (Scalar "-") (Scalar 1%Z) None ∅ fresh_heap 2 "C"
              Hready Hk Hbefore eq_refl (or_introl Hshort))
    as (h1 & h' & cat & Hprep & Hrun & Hlen & Hrecs & Hnames & Hcat & Hreg & Hkept & _).
  exists h1, h'. split; [exact Hprep|]. split; [exact Hrun|]. split; [exact Hlen|].
  split; [exact Hnames|].
  destruct (Hreg 0 "A") as (i & _ & _ & Ha & _); [lia|done|].
  destruct (Hreg 1 "B") as (i' & _ & _ & Hb & _); [lia|done|].
  split; [exact (ex_intro _ _ Ha)|]. split; [exact (ex_intro _ _ Hb)|].
  change (demo_call None short_colors fresh_heap = (Raise IndexError, h')) in Hrun.
  assert (h' = (demo_call None short_colors fresh_heap).2) as -> by (by rewrite Hrun).
  by vm_compute.
Defined.

Lemma fill_sub_variants_witness :
  has_percent "PSD" = false ∧
  NoDup [""; "s"; "a"] ∧
  call_ready demo_str_mod fresh_heap 0 psd_fill ∧
  demo_call None psd_fill fresh_heap = (Ok tt, (demo_call None psd_fill fresh_heap).2) ∧
  ∃ d1 d2 d3 edge,
    style_of (demo_call None psd_fill fresh_heap).2 0 "fsPSD" = Some d1 ∧
    style_of (demo_call None psd_fill fresh_heap).2 0 "fsPSDs" = Some d2 ∧
    style_of (demo_call None psd_fill fresh_heap).2 0 "fsPSDa" = Some d3 ∧
    demo_lighter "#00FF00" 2 = Ok edge ∧
    d1 !! "edgecolor" = Some (VStr edge) ∧
    d1 !! "linewidth" = Some (VNum 1%Z) ∧
    d2 !! "edgecolor" = Some (VStr "none") ∧
    d3 !! "edgecolor" = Some (VStr "none") ∧
    d3 !! "alpha" = Some (VNum 4%Z) ∧
    d1 !! "facecolor" = d2 !! "facecolor" ∧ d2 !! "facecolor" = d3 !! "facecolor".
Proof.
  assert (NoDup [""; "s"; "a"]) as Hnodup by (by apply (bool_decide_unpack _)).
  assert (call_ready demo_str_mod fresh_heap 0 psd_fill) as Hready.
  { apply demo_ready; [by apply (bool_decide_unpack _)|done]. }
  assert (demo_call None psd_fill fresh_heap
          = (Ok tt, (demo_call None psd_fill fresh_heap).2)) as Hrun by (by vm_compute).
  split; [done|]. split; [exact Hnodup|]. split; [exact Hready|]. split; [exact Hrun|].
  destruct (fill_sub_variants Z.mul demo_lighter demo_str_mod demo_str_mul "fs" "PSD" "" "s" "a" "#00FF00"
              2%Z 1%Z 4%Z None ∅ fresh_heap _ eq_refl Hnodup Hready Hrun)
    as (h1 & d1 & d2 & d3 & edge & _ & _ & _ & _ & _ & H1 & H2 & H3 & _ & _ & _
        & Hedge & He1 & Hw1 & He2 & He3 & Ha3 & Hsame).
  exists d1, d2, d3, edge.
  split; [exact H1|]. split; [exact H2|]. split; [exact H3|]. split; [exact Hedge|].
  split; [exact He1|]. split; [exact Hw1|]. split; [exact He2|]. split; [exact He3|].
  split; [exact Ha3|]. by apply Hsame.
Defined.




(** [plot_styles(['Female', 'Male'], ['red', 'blue'], '-', (('s', 1), ('^', 1)),
    2, 1, 8, 5, 1, 1, 4, namespace)] into two namespaces of one heap, one
    call after the other. *)
Definition two_namespaces : list (@obj Z) := [ONamespace ∅; ONamespace ∅].

Definition square_triangle : list (@marker Z) := [MPair (VStr "s") 1%Z; MPair (VStr "^") 1%Z].

Definition demo_plot_styles (ns : loc) : M (list (@obj Z)) unit :=
  plot_styles id Z.mul demo_lighter demo_str_mod demo_str_mul (Seq ["Female"; "Male"])
    (Seq ["red"; "blue"]) (Scalar "-") square_triangle 2%Z 1%Z 8%Z 5%Z 1%Z 1%Z 4%Z
    (Some ns).

Lemma plot_styles_twice_witness :
  let h1' := (demo_plot_styles 0 two_namespaces).2 in
  let h2' := (demo_plot_styles 1 h1').2 in
  Forall (plain_marker Z.mul demo_str_mul) square_triangle ∧
  two_namespaces !! 0 = Some (ONamespace ∅) ∧
  h1' !! 1 = Some (ONamespace ∅) ∧
  demo_plot_styles 0 two_namespaces = (Ok tt, h1') ∧
  demo_plot_styles 1 h1' = (Ok tt, h2') ∧
  ∀ fuel, view fuel h2' (VRef 0) = view fuel h2' (VRef 1).
Proof.
  intros h1' h2'.
  assert (Forall (plain_marker Z.mul demo_str_mul) square_triangle) as Hmarkers
    by (by repeat (constructor; [by apply plain_marker_pair|])).
  assert (h1' !! 1 = Some (ONamespace ∅)) as Hfresh by (by vm_compute).
  assert (demo_plot_styles 0 two_namespaces = (Ok tt, h1')) as Hrun1 by (by vm_compute).
  assert (demo_plot_styles 1 h1' = (Ok tt, h2')) as Hrun2 by (by vm_compute).
  split; [exact Hmarkers|]. split; [done|]. split; [exact Hfresh|].
  split; [exact Hrun1|]. split; [exact Hrun2|].
  destruct (plot_styles_twice id Z.mul demo_lighter demo_str_mod demo_str_mul _ _ _ _ _ _ _ _ _ _ _
              0 1 two_namespaces h1' h1' h2' (Ok tt) (Ok tt)
              Hmarkers eq_refl Hfresh Hrun1 Hrun2) as (_ & Hview & Hframe).
  intros fuel. rewrite <- (Hview fuel). apply Hframe; [done|done|].
  left. simpl. lia.
Defined.

(** ** Further concrete inputs *)

(** A call without names. *)
Definition no_names : @call Z :=
  LineStyles "ls" (Seq []) "" (Seq ["r"]) (Scalar "-") (Scalar 1%Z) ∅.

Lemma empty_names_raise_witness :
  call_names no_names = Seq [] ∧
  registry_ok fresh_heap 0 (call_categories no_names) ∧
  ∃ h1, prepare_registry 0 (call_categories no_names) fresh_heap = (Ok tt, h1) ∧
        demo_call None no_names fresh_heap = (Raise IndexError, h1).
Proof.
  assert (registry_ok fresh_heap 0 (call_categories no_names)) as Hok.
  { apply registry_ok_fresh; [done|]. by apply (bool_decide_unpack _). }
  split; [reflexivity|]. split; [exact Hok|].
  exact (empty_names_raise Z.mul demo_lighter demo_str_mod demo_str_mul no_names None
           fresh_heap eq_refl Hok).
Defined.

(** A module and a dictionary that is passed as namespace. *)
Definition dict_namespace : list (@obj Z) := [ONamespace ∅; ODict ∅].

Lemma namespace_without_attributes_witness :
  (∀ attrs, dict_namespace !! 1 ≠ Some (ONamespace attrs)) ∧
  demo_call (Some 1) red_green dict_namespace
    = (Raise AttributeError, dict_namespace ++ [OList []]).
Proof.
  assert (∀ attrs, dict_namespace !! 1 ≠ Some (ONamespace attrs)) as Hns
    by (intros attrs; discriminate).
  split; [exact Hns|].
  exact (namespace_without_attributes Z.mul demo_lighter demo_str_mod demo_str_mul
           red_green 1 dict_namespace Hns).
Defined.

(** [make_linepointstyles(['ls', 'ps'], ['Red', 'Green'], '', ['r', 'g'],
    '-', 1, (('o', 1),), 8, 1, 1)]: two prefixes only. *)
Lemma short_prefixes_raise_witness :
  length [Some "ls"; Some "ps"] < 3 ∧
  ∃ e, (make_linepointstyles id Z.mul demo_lighter demo_str_mod demo_str_mul
          [Some "ls"; Some "ps"] (Seq ["Red"; "Green"]) "" (Seq ["r"; "g"]) (Scalar "-")
          (Scalar 1%Z) [MPair (VStr "o") 1%Z] (Scalar 8%Z) (Scalar 1%Z) (Scalar 1%Z)
          None ∅ fresh_heap).1 = Raise e.
Proof.
  assert (length [Some "ls"; Some "ps"] < 3) as Hlen by (simpl; lia).
  split; [exact Hlen|].
  exact (proj1 (proj2 (short_prefixes_raise id Z.mul demo_lighter demo_str_mod demo_str_mul
           [Some "ls"; Some "ps"] (Seq ["Red"; "Green"]) "" (Seq ["r"; "g"]) (Scalar "-")
           (Scalar 1%Z) [MPair (VStr "o") 1%Z] (Scalar 8%Z) (Scalar 1%Z) (Scalar 1%Z)
           None ∅ fresh_heap Hlen))).
Defined.

(** [make_linestyles('ls', ['Red', 'Green'], '', ['r', 'g'], '-', 1, zorder=3)] *)
Definition red_green_zorder : @call Z :=
  LineStyles "ls" (Seq ["Red"; "Green"]) "" (Seq ["r"; "g"]) (Scalar "-")
    (Scalar 1%Z) {["zorder" := VNum 3%Z]}.

Lemma kwargs_in_every_style_witness :
  call_ready demo_str_mod fresh_heap 0 red_green_zorder ∧
  demo_call None red_green_zorder fresh_heap
    = (Ok tt, (demo_call None red_green_zorder fresh_heap).2) ∧
  ∃ h1, prepare_registry 0 (call_categories red_green_zorder) fresh_heap = (Ok tt, h1) ∧
    ∀ k, k < 2 →
      ∃ d, (demo_call None red_green_zorder fresh_heap).2 !! (length h1 + (k * 1 + 0))
             = Some (ODict d) ∧
           d !! "zorder" = Some (VNum 3%Z).
Proof.
  assert (call_ready demo_str_mod fresh_heap 0 red_green_zorder) as Hready.
  { apply demo_ready; [by apply (bool_decide_unpack _)|done]. }
  assert (demo_call None red_green_zorder fresh_heap
          = (Ok tt, (demo_call None red_green_zorder fresh_heap).2)) as Hrun
    by (by vm_compute).
  split; [exact Hready|]. split; [exact Hrun|].
  destruct (kwargs_in_every_style Z.mul demo_lighter demo_str_mod demo_str_mul
              red_green_zorder None fresh_heap _ Hready Hrun)
    as (_ & h1 & Hprep & _ & Hrecs).
  exists h1. split; [exact Hprep|]. intros k Hk.
  destruct (Hrecs k 0 Hk ltac:(simpl; lia)) as (d & Hd & Hkw).
  exists d. split; [exact Hd|].
  rewrite (Hkw "zorder") by (by apply (bool_decide_unpack _)). reflexivity.
Defined.

Lemma call_keeps_registry_witness :
  call_ready demo_str_mod fresh_heap 0 short_colors ∧
  demo_call None short_colors fresh_heap
    = (Raise IndexError, (demo_call None short_colors fresh_heap).2) ∧
  (∀ a, is_Some (attr_of fresh_heap 0 a) →
        is_Some (attr_of (demo_call None short_colors fresh_heap).2 0 a)) ∧
  names0 fresh_heap 0 `prefix_of` names0 (demo_call None short_colors fresh_heap).2 0.
Proof.
  assert (call_ready demo_str_mod fresh_heap 0 short_colors) as Hready.
  { apply demo_ready; [by apply (bool_decide_unpack _)|done]. }
  split; [exact Hready|]. split; [by vm_compute|].
  destruct (call_keeps_registry Z.mul demo_lighter demo_str_mod demo_str_mul short_colors
              None fresh_heap Hready) as (Hattrs & Hnames & _).
  split; [exact Hattrs|exact Hnames].
Defined.

(** [plot_styles(['A', 'B', 'A'], 'red', '-', (('o', 1),), 2, 1, 8, 5, 1, 1, 4)]:
    a name given twice. *)
Definition demo_names_twice : M (list (@obj Z)) unit :=
  plot_styles id Z.mul demo_lighter demo_str_mod demo_str_mul (Seq ["A"; "B"; "A"])
    (Scalar "red") (Scalar "-") [MPair (VStr "o") 1%Z] 2%Z 1%Z 8%Z 5%Z 1%Z 1%Z 4%Z None.

Lemma plot_styles_names_witness :
  let cs := plot_styles_calls id (Seq ["A"; "B"; "A"]) (Scalar "red") (Scalar "-")
              [MPair (VStr "o") 1%Z] 2%Z 1%Z 8%Z 5%Z 1%Z 1%Z 4%Z in
  let h' := (demo_names_twice fresh_heap).2 in
  fresh_heap !! 0 = Some (ONamespace ∅) ∧
  calls_no_clash demo_str_mod cs ∧
  demo_names_twice fresh_heap = (Ok tt, h') ∧
  length cs = 9 ∧
  names0 h' 0 = [VStr "A"; VStr "B"] ∧
  ∀ c, c ∈ cs → call_count c = 3.
Proof.
  intros cs h'.
  assert (calls_no_clash demo_str_mod cs) as Hclash.
  { split; [by apply (bool_decide_unpack _)|]. by apply (bool_decide_unpack _). }
  assert (demo_names_twice fresh_heap = (Ok tt, h')) as Hrun by (by vm_compute).
  split; [reflexivity|]. split; [exact Hclash|]. split; [exact Hrun|].
  split; [reflexivity|].
  destruct (plot_styles_names id Z.mul demo_lighter demo_str_mod demo_str_mul
              ["A"; "B"; "A"] (Scalar "red") (Scalar "-") [MPair (VStr "o") 1%Z]
              2%Z 1%Z 8%Z 5%Z 1%Z 1%Z 4%Z None fresh_heap h' eq_refl Hclash Hrun)
    as (_ & Hnames & _ & Hcount & _).
  split; [exact Hnames|exact Hcount].
Defined.

(** *** plot_params on rational numbers *)

Abbreviation Q := QArith_base.Q.
Abbreviation Qmult := QArith_base.Qmult.
Abbreviation Qmake := QArith_base.Qmake.






